(** * Event ingestion system: normalization, idempotent ingestion, aggregation

    A shallow embedding of the server-side JavaScript of the event ingestion
    system (services/normalizationService.js, services/deduplicationService.js,
    services/eventProcessingService.js, models/Event.js,
    models/DeduplicationRecord.js, storage/fileStorage.js and
    routes/aggregation.js) together with the properties of its specification.

    Conventions of the embedding.
    - A finite JavaScript number is the rational that the double is ([Q]);
      minus zero is not told apart from zero.  The arithmetic of the code
      rounds to the nearest double ([toDouble]) and overflows to an infinity
      ([Number]).  The numbers of a payload are finite; the NaN that
      [parseFloat] returns is [None].
    - An infinite amount is [Infinity] in the object in memory and [null]
      once it is written to events.json or to a response; the embedding
      keeps the one value for both, and the aggregation reads it as the
      [null] that the file holds.
    - A JavaScript string is the [string] of the bytes of its UTF-8
      encoding; [trim] removes the white space and the line terminators of
      ECMAScript.
    - A [Date] is its time value in milliseconds, or [InvalidDate].
    - The functions of the platform that the code calls (SHA-256, rendering of
      numbers and dates, [Date] parsing) are the fields of [Runtime]; the
      non-deterministic ones (clock, [Math.random], [crypto.randomUUID], I/O
      faults of the two data files) are the oracles of [Env], indexed by the
      number of oracle consultations made so far.
    - [async] functions are run to completion one after the other: a
      computation is a function from the state of the two data files to a
      completion (a value or a thrown error) and a new state.
    - An object is the list of its properties, each name once; an
      identifier made by [crypto.randomUUID] is a natural number (it is never
      falsy).
    - [processEvent] reads the clock once when it starts, for the
      [new Date()] of [extractTimestamp]. *)

From Stdlib Require Import ZArith QArith Qabs List String Ascii Bool Lia.
From Stdlib Require Import DecimalString DecimalZ DecimalPos.
From Stdlib Require Import Sorted Permutation.
Import ListNotations.

Set Warnings "-register-all".

Local Open Scope string_scope.
Local Open Scope list_scope.
Local Open Scope Z_scope.

(* ================================================================== *)
(** * JavaScript values *)

(** A value as [JSON.parse] (the body parser of the server) produces it. *)
Inductive JSON : Type :=
| JNull
| JBool (b : bool)
| JNum (q : Q)
| JStr (s : string)
| JArr (items : list JSON)
| JObj (fields : list (string * JSON)).

(** [f] applied to the value of the own property [k], if there is one. *)
Definition field_with {A : Type} (f : JSON -> A) (k : string)
  : list (string * JSON) -> option A :=
  fix go (l : list (string * JSON)) : option A :=
    match l with
    | [] => None
    | (k', v) :: tl => if String.eqb k' k then Some (f v) else go tl
    end.

(** [v[k]]: [None] is [undefined].  Primitive values and arrays have none of
    the property names this program asks for. *)
Definition get (v : JSON) (k : string) : option JSON :=
  match v with
  | JObj fs => field_with (fun x => x) k fs
  | _ => None
  end.

(** [v !== undefined && v !== null] *)
Definition present (v : option JSON) : option JSON :=
  match v with
  | Some JNull => None
  | other => other
  end.

Definition Qeqb0 (q : Q) : bool := Z.eqb (Qnum q) 0.

(** [a < b] on numbers *)
Definition Qltb (a b : Q) : bool := negb (Qle_bool b a).

(** ** Numbers *)

(** A number other than NaN: a finite double or an infinity. *)
Inductive Number : Type :=
| Finite (q : Q)
| Infinity (negative : bool).

(** [floor (log2 (n / d))] for positive [n] and [d]. *)
Definition floorLog2 (n d : Z) : Z :=
  let k := Z.log2 n - Z.log2 d in
  if (if 0 <=? k then 2 ^ k * d <=? n else d <=? 2 ^ (- k) * n)
  then k else k - 1.

(** The integer nearest to [n / d] for a positive [d], the even one of two
    that are as near. *)
Definition roundHalfEven (n d : Z) : Z :=
  let q := n / d in
  let r := n mod d in
  match 2 * r ?= d with
  | Lt => q
  | Gt => q + 1
  | Eq => if Z.even q then q else q + 1
  end.

(** The double nearest to [x] (IEEE 754 binary64, round to nearest, ties to
    even): a significand [m] of at most 53 bits and an exponent [e] of
    -1074 at least; from [2 ^ 1024] on the result is an infinity.  This is
    the number that an arithmetic operation of the code returns when [x] is
    its exact result, and the number that [parseFloat] returns for the
    decimal notation of [x]. *)
Definition toDouble (x : Q) : Number :=
  let n := Z.abs (Qnum x) in
  let d := Z.pos (Qden x) in
  if n =? 0 then Finite 0
  else
    let e := Z.max (floorLog2 n d - 52) (- 1074) in
    let m := if 0 <=? e then roundHalfEven n (d * 2 ^ e)
             else roundHalfEven (n * 2 ^ (- e)) d in
    let negative := Qnum x <? 0 in
    let signed := if negative then - m else m in
    if 0 <=? e
    then if 2 ^ 1024 <=? m * 2 ^ e then Infinity negative
         else Finite (inject_Z (signed * 2 ^ e))
    else Finite (Qred (Qmake signed (Z.to_pos (2 ^ (- e))))).

(** What an amount read from events.json is worth in a sum or a
    comparison: the file holds [null] for an infinite amount, and [null]
    counts as zero. *)
Definition storedValue (x : Number) : Q :=
  match x with
  | Finite q => q
  | Infinity _ => 0
  end.

(** [total + amount], for an amount read from events.json. *)
Definition addStored (total amount : Number) : Number :=
  match total with
  | Finite t => toDouble (t + storedValue amount)
  | Infinity negative => Infinity negative
  end.

(** [total / count] for a positive count. *)
Definition divideBy (total : Number) (count : Z) : Number :=
  match total with
  | Finite t => toDouble (t / inject_Z count)
  | Infinity negative => Infinity negative
  end.

(** [b - a > 0]: the difference of two numbers has the sign of the exact
    difference, and that of two equal infinities is NaN, which a comparator
    returns for zero. *)
Definition numberLtb (a b : Number) : bool :=
  match a, b with
  | Finite x, Finite y => Qltb x y
  | Finite _, Infinity negative => negb negative
  | Infinity negative, Finite _ => negative
  | Infinity n1, Infinity n2 => n1 && negb n2
  end.

(** JavaScript truthiness. *)
Definition truthy (v : JSON) : bool :=
  match v with
  | JNull => false
  | JBool b => b
  | JNum q => negb (Qeqb0 q)
  | JStr s => negb (String.eqb s "")
  | JArr _ | JObj _ => true
  end.

(** [v && typeof v === 'object'] *)
Definition isObject (v : JSON) : bool :=
  match v with
  | JArr _ | JObj _ => true
  | _ => false
  end.

(** The value of the first of [names] that is present in [v]. *)
Fixpoint firstPresent (names : list string) (v : JSON) : option JSON :=
  match names with
  | [] => None
  | k :: rest =>
      match present (get v k) with
      | Some x => Some x
      | None => firstPresent rest v
      end
  end.

(* ================================================================== *)
(** * Strings *)

Definition isDigit (c : ascii) : bool :=
  let n := N_of_ascii c in (48 <=? n)%N && (n <=? 57)%N.

(** The white space and the line terminators of one byte: U+0009 to U+000D
    and U+0020. *)
Definition isSpace (c : ascii) : bool :=
  let n := N_of_ascii c in ((9 <=? n)%N && (n <=? 13)%N) || (n =? 32)%N.

(** The white space of two bytes: U+00A0. *)
Definition isSpace2 (a b : ascii) : bool :=
  (N_of_ascii a =? 194)%N && (N_of_ascii b =? 160)%N.

(** The white space and the line terminators of three bytes: U+1680, U+2000
    to U+200A, U+2028, U+2029, U+202F, U+205F, U+3000 and U+FEFF. *)
Definition isSpace3 (a b c : ascii) : bool :=
  let x := N_of_ascii a in
  let y := N_of_ascii b in
  let z := N_of_ascii c in
  ((x =? 225) && (y =? 154) && (z =? 128)
   || (x =? 226) && (y =? 128)
      && ((128 <=? z) && (z <=? 138) || (z =? 168) || (z =? 169)
          || (z =? 175))
   || (x =? 226) && (y =? 129) && (z =? 159)
   || (x =? 227) && (y =? 128) && (z =? 128)
   || (x =? 239) && (y =? 187) && (z =? 191))%N.

(** [l] without the white space at its start. *)
Fixpoint dropSpaces (l : list ascii) : list ascii :=
  match l with
  | [] => []
  | a :: tl =>
      if isSpace a then dropSpaces tl
      else
        match tl with
        | [] => l
        | b :: tl2 =>
            if isSpace2 a b then dropSpaces tl2
            else
              match tl2 with
              | [] => l
              | c :: tl3 => if isSpace3 a b c then dropSpaces tl3 else l
              end
        end
  end.

(** The same for a list of bytes in reverse order. *)
Fixpoint dropSpacesReversed (l : list ascii) : list ascii :=
  match l with
  | [] => []
  | c :: tl =>
      if isSpace c then dropSpacesReversed tl
      else
        match tl with
        | [] => l
        | b :: tl2 =>
            if isSpace2 b c then dropSpacesReversed tl2
            else
              match tl2 with
              | [] => l
              | a :: tl3 =>
                  if isSpace3 a b c then dropSpacesReversed tl3 else l
              end
        end
  end.

Definition trimChars (l : list ascii) : list ascii :=
  rev (dropSpacesReversed (rev (dropSpaces l))).

(** [String.prototype.trim] *)
Definition trim (s : string) : string :=
  string_of_list_ascii (trimChars (list_ascii_of_string s)).

(** Decimal rendering of an integer, as [String(n)] gives it for an integer
    that needs no exponent. *)
Definition decimal (z : Z) : string := NilZero.string_of_int (Z.to_int z).

Fixpoint join (sep : string) (l : list string) : string :=
  match l with
  | [] => ""
  | [x] => x
  | x :: tl => (x ++ sep ++ join sep tl)%string
  end.

(** [s.padStart(2, '0')] *)
Definition padStart2 (l : list ascii) : list ascii :=
  match l with
  | [] => ["0"; "0"]%char
  | [c] => ["0"%char; c]
  | _ => l
  end.

(* ================================================================== *)
(** * Dates *)

Inductive JSDate : Type :=
| ValidDate (ms : Z)
| InvalidDate.

Definition maxTime : Z := 8640000000000000.

(** [new Date(x)] for a number [x]: a value outside of the representable
    range gives an invalid date, and the fraction is dropped (toward zero). *)
Definition newDate (x : Q) : JSDate :=
  if Qle_bool (Qabs x) (inject_Z maxTime)
  then ValidDate (Z.quot (Qnum x) (Z.pos (Qden x)))
  else InvalidDate.

(** [new Date(x)] for a number that may be infinite. *)
Definition newDateOf (x : Number) : JSDate :=
  match x with
  | Finite q => newDate q
  | Infinity _ => InvalidDate
  end.

(* ================================================================== *)
(** * The platform *)

(** The library functions the code relies on. *)
Class Runtime : Type := {
  (** [crypto.createHash('sha256').update(s).digest()], as a number of 256
      bits *)
  sha256 : string -> N;
  (** [String(x)] for a number that is not an integer below 10^21 *)
  numberToString : Q -> string;
  (** [String(d)] for a valid date: [Date.prototype.toString] *)
  dateToString : Z -> string;
  (** [new Date(s)] for a string *)
  dateParse : string -> JSDate
}.

(** The non-deterministic part of the platform; the argument is the number of
    consultations made before this one. *)
Class Env : Type := {
  clock : nat -> Z;               (* Date.now(), new Date() *)
  mathRandom : nat -> Q;          (* Math.random() *)
  randomUUID : nat -> nat;        (* crypto.randomUUID(): an opaque id *)
  eventsReadOk : nat -> bool;     (* reading and parsing events.json *)
  eventsWriteOk : nat -> bool;    (* writing events.json *)
  dedupReadOk : nat -> bool;      (* reading and parsing deduplication.json *)
  dedupWriteOk : nat -> bool      (* writing deduplication.json *)
}.

Definition hexDigits : list ascii :=
  ["0"; "1"; "2"; "3"; "4"; "5"; "6"; "7"; "8"; "9";
   "a"; "b"; "c"; "d"; "e"; "f"]%char.

Definition hexDigit (n : N) : ascii := nth (N.to_nat n) hexDigits "0"%char.

(** The [k] low hexadecimal digits of [n], in front of [acc]. *)
Fixpoint hexDigitsOf (k : nat) (n : N) (acc : string) : string :=
  match k with
  | O => acc
  | S k' => hexDigitsOf k' (n / 16)%N (String (hexDigit (n mod 16)%N) acc)
  end.

(** [digest('hex')] of a digest of 256 bits: 64 hexadecimal digits. *)
Definition hex (n : N) : string := hexDigitsOf 64 n "".

Definition isInteger (q : Q) : bool :=
  Z.eqb (Z.rem (Qnum q) (Z.pos (Qden q))) 0.

Definition toInteger (q : Q) : Z := Z.quot (Qnum q) (Z.pos (Qden q)).

(** What a [throw] or a [return] leaves behind. *)
Inductive Completion (A : Type) : Type :=
| Normal (value : A)
| Thrown (message : string).
Arguments Normal {A} value.
Arguments Thrown {A} message.

(** The message of the [TypeError] of a conversion to a primitive value. *)
Definition typeError : string := "Cannot convert object to primitive value".

Section Coercions.
Context {rt : Runtime}.

(** [String(x)] for a finite number *)
Definition showNumber (q : Q) : string :=
  if isInteger q && (Z.abs (toInteger q) <? 10 ^ 21)
  then decimal (toInteger q)
  else numberToString q.

(** [String(x)] for a number *)
Definition showAmount (x : Number) : string :=
  match x with
  | Finite q => showNumber q
  | Infinity false => "Infinity"
  | Infinity true => "-Infinity"
  end.

(** [String(v)].  The object of a payload has the [toString] of
    [Object.prototype], unless it has a property of this name of its own:
    this one is not a function, [valueOf] returns the object, and the
    conversion throws.  An array joins the strings of its elements, those of
    [null] being empty; the first element that throws makes it throw. *)
Fixpoint toString (v : JSON) : Completion string :=
  match v with
  | JNull => Normal "null"
  | JBool true => Normal "true"
  | JBool false => Normal "false"
  | JNum q => Normal (showNumber q)
  | JStr s => Normal s
  | JArr items =>
      match
        (fix elements (l : list JSON) : Completion (list string) :=
           match l with
           | [] => Normal []
           | x :: tl =>
               match (match x with
                      | JNull => Normal ""
                      | _ => toString x
                      end) with
               | Thrown e => Thrown e
               | Normal s =>
                   match elements tl with
                   | Thrown e => Thrown e
                   | Normal ss => Normal (s :: ss)
                   end
               end
           end) items
      with
      | Thrown e => Thrown e
      | Normal ss => Normal (join "," ss)
      end
  | JObj fields =>
      match field_with (fun _ => tt) "toString" fields with
      | Some _ => Thrown typeError
      | None => Normal "[object Object]"
      end
  end.
End Coercions.

(* ================================================================== *)
(** * services/normalizationService.js *)

(** The canonical fields of an event, with the hash computed from them. *)
Record Canonical : Type := mkCanonical {
  clientId : string;
  metric : string;
  amount : Number;
  timestamp : Z;
  eventHash : string
}.

(** The result object of [normalize]; [originalPayload] is its argument. *)
Inductive Normalization : Type :=
| NormSuccess (normalized : Canonical)
| NormFailure (error : string).

(** ** [parseFloat] on what the amount extraction passes to it *)

(** [value.replace(/[^\d.-]/g, '')] *)
Definition keepNumeric (l : list ascii) : list ascii :=
  filter (fun c => isDigit c || Ascii.eqb c "." || Ascii.eqb c "-") l.

Fixpoint span {A : Type} (p : A -> bool) (l : list A) : list A * list A :=
  match l with
  | [] => ([], [])
  | x :: tl =>
      if p x then let (a, b) := span p tl in (x :: a, b) else ([], l)
  end.

Definition digitValue (c : ascii) : Z := Z.of_N (N_of_ascii c) - 48.

Definition digitsValue (l : list ascii) : Z :=
  fold_left (fun acc c => 10 * acc + digitValue c) l 0.

(** [parseFloat] of a string made of digits, ['.'] and ['-'] only: the
    double nearest to the number that the longest prefix of the form
    [-? digits? (. digits?)?] with at least one digit denotes; [None] is
    NaN. *)
Definition parseFloat (l : list ascii) : option Number :=
  let (negative, body) :=
    match l with
    | "-"%char :: tl => (true, tl)
    | _ => (false, l)
    end in
  let (whole, rest) := span isDigit body in
  let frac :=
    match rest with
    | "."%char :: tl => fst (span isDigit tl)
    | _ => []
    end in
  match whole ++ frac with
  | [] => None
  | ds =>
      let n := digitsValue ds in
      let d := Z.to_pos (10 ^ Z.of_nat (List.length frac)) in
      Some (toDouble (Qmake (if negative then - n else n) d))
  end.

(** ** Date patterns *)

(** The three patterns of [parseDate] are sequences of these. *)
Inductive Atom : Type :=
| Digits (lo hi : nat)   (* a captured group (\d{lo,hi}) *)
| Lit (c : ascii).

Fixpoint allDigits (l : list ascii) : bool :=
  match l with
  | [] => true
  | c :: tl => isDigit c && allDigits tl
  end.

(** Greedy matching with backtracking, anchored at the start of [s]; the
    result is the list of the captured groups. *)
Fixpoint matchHere (pat : list Atom) (s : list ascii)
  : option (list (list ascii)) :=
  match pat with
  | [] => Some []
  | Lit c :: pat' =>
      match s with
      | x :: tl => if Ascii.eqb x c then matchHere pat' tl else None
      | [] => None
      end
  | Digits lo hi :: pat' =>
      (fix try (extra : nat) : option (list (list ascii)) :=
         let k := (lo + extra)%nat in
         let attempt :=
           if (k <=? List.length s)%nat && allDigits (firstn k s)
           then option_map (cons (firstn k s)) (matchHere pat' (skipn k s))
           else None in
         match attempt with
         | Some r => Some r
         | None => match extra with
                   | O => None
                   | S e => try e
                   end
         end) (hi - lo)%nat
  end.

(** [value.match(format)]: the leftmost match. *)
Fixpoint search (pat : list Atom) (s : list ascii)
  : option (list (list ascii)) :=
  match matchHere pat s with
  | Some r => Some r
  | None => match s with
            | [] => None
            | _ :: tl => search pat tl
            end
  end.

Definition formats : list (list Atom) :=
  [ [Digits 4 4; Lit "/"; Digits 1 2; Lit "/"; Digits 1 2];
    [Digits 4 4; Lit "-"; Digits 1 2; Lit "-"; Digits 1 2];
    [Digits 1 2; Lit "/"; Digits 1 2; Lit "/"; Digits 4 4] ].

Definition clientIdFields : list string :=
  ["source"; "client_id"; "clientId"; "client"; "origin"].
Definition metricFields : list string :=
  ["metric"; "event_type"; "type"; "eventType"; "name"].
Definition amountFields : list string :=
  ["amount"; "value"; "count"; "quantity"; "total"; "price"].
Definition timestampFields : list string :=
  ["timestamp"; "time"; "date"; "created_at"; "createdAt"; "ts"].

Definition clientIdError : string := "client_id not found in event".
Definition amountError : string := "amount not found or invalid in event".
Definition nullPayloadError : string :=
  "Cannot read properties of null (reading 'payload')".

(** [payload.payload], when it is an object, seen through [f]. *)
Definition nestedWith {A : Type} (f : JSON -> A) (payload : JSON) : option A :=
  match payload with
  | JObj fs =>
      match field_with (fun inner => if isObject inner then Some (f inner)
                                     else None) "payload" fs with
      | Some r => r
      | None => None
      end
  | _ => None
  end.

(** [payload.payload] when it is an object. *)
Definition nested (payload : JSON) : option JSON :=
  nestedWith (fun inner => inner) payload.

(** The object the fields other than the client are looked up in:
    [rawEvent.payload || rawEvent]. *)
Definition payloadOf (rawEvent : JSON) : JSON :=
  match get rawEvent "payload" with
  | Some p => if truthy p then p else rawEvent
  | None => rawEvent
  end.

(** What one amount field contributes: [Some q] makes the loop return [q],
    [None] lets it go on to the next field. *)
Definition amountOfValue (value : JSON) : option Number :=
  match value with
  | JStr s => parseFloat (keepNumeric (list_ascii_of_string s))
  | JNum q => Some (Finite q)
  | _ => None
  end.

(** What the loop of [extractAmount] gets from the field [k]. *)
Definition fieldAmount (payload : JSON) (k : string) : option Number :=
  match present (get payload k) with
  | Some value => amountOfValue value
  | None => None
  end.

(** The loop of [extractAmount] over [possibleFields]. *)
Fixpoint scanAmount (names : list string) (payload : JSON)
  : option Number :=
  match names with
  | [] => None
  | k :: rest =>
      match fieldAmount payload k with
      | Some q => Some q
      | None => scanAmount rest payload
      end
  end.

Section Normalization.
Context {rt : Runtime}.

(** [generateEventHash] (lines 12-15): the SHA-256 digest, in hexadecimal, of
    the four fields joined with ['|']. *)
Definition generateEventHash (clientId metric : string) (amount : Number)
  (timestamp : Z) : string :=
  let hashInput :=
    (clientId ++ "|" ++ metric ++ "|" ++ showAmount amount ++ "|"
     ++ dateToString timestamp)%string in
  hex (sha256 hashInput).

(** [extractClientId] (lines 20-35): the first field with a value other
    than [undefined] and [null], as a trimmed string; otherwise what the
    nested payload object gives, unless it is empty; otherwise an error. *)
Fixpoint extractClientId (payload : JSON) : Completion string :=
  match firstPresent clientIdFields payload with
  | Some value =>
      match toString value with
      | Normal s => Normal (trim s)
      | Thrown e => Thrown e
      end
  | None =>
      match payload with
      | JObj fs =>
          match field_with (fun inner => if isObject inner
                                         then Some (extractClientId inner)
                                         else None) "payload" fs with
          | Some (Some (Normal nestedResult)) =>
              if String.eqb nestedResult "" then Thrown clientIdError
              else Normal nestedResult
          | Some (Some (Thrown e)) => Thrown e
          | _ => Thrown clientIdError
          end
      | _ => Thrown clientIdError
      end
  end.

(** [extractMetric] (lines 40-55); it throws when [String] does. *)
Fixpoint extractMetric (payload : JSON) : Completion string :=
  match firstPresent metricFields payload with
  | Some value =>
      match toString value with
      | Normal s => Normal (trim s)
      | Thrown e => Thrown e
      end
  | None =>
      match payload with
      | JObj fs =>
          match field_with (fun inner => if isObject inner
                                         then Some (extractMetric inner)
                                         else None) "payload" fs with
          | Some (Some (Normal nestedResult)) =>
              if String.eqb nestedResult "" || String.eqb nestedResult "unknown"
              then Normal "unknown" else Normal nestedResult
          | Some (Some (Thrown e)) => Thrown e
          | _ => Normal "unknown"
          end
      | _ => Normal "unknown"
      end
  end.

(** [extractAmount] (lines 60-86): the loop, then the nested payload
    object, whose result or error is the result; otherwise an error. *)
Fixpoint extractAmount (payload : JSON) : Completion Number :=
  match scanAmount amountFields payload with
  | Some q => Normal q
  | None =>
      match payload with
      | JObj fs =>
          match field_with (fun inner => if isObject inner
                                         then Some (extractAmount inner)
                                         else None) "payload" fs with
          | Some (Some nestedAmount) => nestedAmount
          | _ => Thrown amountError
          end
      | _ => Thrown amountError
      end
  end.

(** The loop of [parseDate] over [formats], for a string that [new Date]
    did not parse. *)
Fixpoint parseFormats (fs : list (list Atom)) (value : list ascii)
  : option JSDate :=
  match fs with
  | [] => None
  | format :: rest =>
      match search format value with
      | Some [g1; g2; g3] =>
          let four := (List.length g1 =? 4)%nat in
          let year := if four then g1 else g3 in
          let month := if four then g2 else g1 in
          let day := if four then g3 else g2 in
          match dateParse (string_of_list_ascii
                             (year ++ "-"%char :: padStart2 month
                                   ++ "-"%char :: padStart2 day)) with
          | ValidDate t => Some (ValidDate t)
          | InvalidDate => parseFormats rest value
          end
      | _ => parseFormats rest value
      end
  end.

(** [parseDate]; [None] is [null].  A payload that comes from JSON holds no
    [Date] object. *)
Definition parseDate (value : JSON) : option JSDate :=
  match value with
  | JNum v =>
      if Qltb v 10000000000 then Some (newDateOf (toDouble (v * 1000)))
      else Some (newDate v)
  | JStr s =>
      match dateParse s with
      | ValidDate t => Some (ValidDate t)
      | InvalidDate => parseFormats formats (list_ascii_of_string s)
      end
  | _ => None
  end.

(** The loop of [extractTimestamp] over [possibleFields]. *)
Fixpoint scanTimestamp (names : list string) (payload : JSON) : option Z :=
  match names with
  | [] => None
  | k :: rest =>
      match present (get payload k) with
      | Some value =>
          match parseDate value with
          | Some (ValidDate t) => Some t
          | _ => scanTimestamp rest payload
          end
      | None => scanTimestamp rest payload
      end
  end.

(** [extractTimestamp] (lines 91-111): the first field that parses to a
    valid date, otherwise what the nested payload object gives, otherwise
    the current time [now]. *)
Fixpoint extractTimestamp (now : Z) (payload : JSON) : Z :=
  match scanTimestamp timestampFields payload with
  | Some t => t
  | None =>
      match payload with
      | JObj fs =>
          match field_with (fun inner => if isObject inner
                                         then Some (extractTimestamp now inner)
                                         else None) "payload" fs with
          | Some (Some nestedTs) => nestedTs
          | _ => now
          end
      | _ => now
      end
  end.

(** [normalize] (lines 158-185).  Reading [rawEvent.payload] of [null]
    throws a [TypeError], which the [catch] turns into a failure like the
    errors of the extraction. *)
Definition normalize (now : Z) (rawEvent : JSON) : Normalization :=
  match rawEvent with
  | JNull => NormFailure nullPayloadError
  | _ =>
      let payload := payloadOf rawEvent in
      match extractClientId rawEvent with
      | Thrown e => NormFailure e
      | Normal clientId =>
          match extractMetric payload with
          | Thrown e => NormFailure e
          | Normal metric =>
              match extractAmount payload with
              | Thrown e => NormFailure e
              | Normal amount =>
                  let timestamp := extractTimestamp now payload in
                  NormSuccess
                    (mkCanonical clientId metric amount timestamp
                       (generateEventHash clientId metric amount timestamp))
              end
          end
      end
  end.

End Normalization.

(* ================================================================== *)
(** * Stored data and computations *)

Inductive Status : Type := processed | rejected | failed.

Definition Status_eqb (a b : Status) : bool :=
  match a, b with
  | processed, processed | rejected, rejected | failed, failed => true
  | _, _ => false
  end.

(** An [Event] object before it is saved. *)
Record EventData : Type := mkEventData {
  canonical : Canonical;
  status : Status;
  rejectionReason : option string;
  originalPayload : JSON;
  processedAt : Z;
  retryCount : Z
}.

(** An element of events.json; also an [Event] object after [save]. *)
Record Event : Type := mkEvent {
  _id : nat;
  data : EventData;
  createdAt : Z;
  updatedAt : Z
}.

Module Dedup.
(** An element of deduplication.json. *)
Record t : Type := mk {
  eventHash : string;
  clientId : string;
  eventId : nat;
  processedAt : Z;
  createdAt : Z;
  updatedAt : Z
}.
End Dedup.

(** The contents of the two data files and the number of consultations of
    the oracles made so far. *)
Record World : Type := mkWorld {
  eventsFile : list Event;
  dedupFile : list Dedup.t;
  ticks : nat
}.

(** A computation: the body of an [async] function, run to completion. *)
Definition M (A : Type) : Type := World -> Completion A * World.

Definition ret {A : Type} (a : A) : M A := fun w => (Normal a, w).

Definition throw {A : Type} (message : string) : M A :=
  fun w => (Thrown message, w).

Definition bind {A B : Type} (m : M A) (k : A -> M B) : M B :=
  fun w =>
    match m w with
    | (Normal a, w') => k a w'
    | (Thrown e, w') => (Thrown e, w')
    end.

(** [try { m } catch (error) { handler(error.message) }] *)
Definition tryCatch {A : Type} (m : M A) (handler : string -> M A) : M A :=
  fun w =>
    match m w with
    | (Normal a, w') => (Normal a, w')
    | (Thrown e, w') => handler e w'
    end.

Declare Scope js_scope.
Delimit Scope js_scope with js.
Notation "x <- m ;; k" := (bind m (fun x => k))
  (at level 61, m at next level, right associativity) : js_scope.
Notation "m ;;; k" := (bind m (fun _ => k))
  (at level 61, right associativity) : js_scope.
Local Open Scope js_scope.

(** One consultation of an oracle. *)
Definition consult {A : Type} (oracle : nat -> A) : M A :=
  fun w => (Normal (oracle (ticks w)),
            mkWorld (eventsFile w) (dedupFile w) (S (ticks w))).

Definition getEventsFile : M (list Event) := fun w => (Normal (eventsFile w), w).
Definition getDedupFile : M (list Dedup.t) := fun w => (Normal (dedupFile w), w).
Definition putEventsFile (events : list Event) : M unit :=
  fun w => (Normal tt, mkWorld events (dedupFile w) (ticks w)).
Definition putDedupFile (records : list Dedup.t) : M unit :=
  fun w => (Normal tt, mkWorld (eventsFile w) records (ticks w)).

(** The message of the error of a failed write. *)
Definition writeError : string := "EIO: i/o error, write".

(** [records[i] = r] at the first index where [p] holds. *)
Fixpoint replaceFirst {A : Type} (p : A -> bool) (r : A) (l : list A) : list A :=
  match l with
  | [] => []
  | x :: tl => if p x then r :: tl else x :: replaceFirst p r tl
  end.


(** ** Queries and aggregation results *)

(** [{ $gte, $lte }] *)
Record TimeRange : Type := mkRange {
  gte : option JSDate;
  lte : option JSDate
}.

(** The query object of [countEvents] and [aggregateEvents]; [None] is an
    absent property. *)
Record MatchCriteria : Type := mkCriteria {
  mStatus : option Status;
  mClientId : option string;
  mMetric : option string;
  mTimestamp : option TimeRange
}.

(** The value of a group of the [Map] of [aggregateEvents]. *)
Record GroupData : Type := mkGroupData {
  gTotalAmount : Number;
  gTotalCount : Z;
  gAmounts : list Number
}.

Inductive Group : Type :=
| GroupKey (key : string)
| GroupBoth (clientId metric : string).

Record AggResult : Type := mkAggResult {
  totalAmount : Number;
  totalCount : Z;
  averageAmount : Number;
  minAmount : Number;
  maxAmount : Number;
  group : option Group
}.

(** What [aggregateEvents] returns: one object, [{}] when there is no group
    ([None]), or an array. *)
Inductive AggOutput : Type :=
| One (result : option AggResult)
| Many (results : list AggResult).

(** [query.field && value !== query.field] *)
Definition differsFrom (wanted : option string) (value : string) : bool :=
  match wanted with
  | Some s => negb (String.eqb s "") && negb (String.eqb value s)
  | None => false
  end.

Definition statusDiffers (wanted : option Status) (value : Status) : bool :=
  match wanted with
  | Some s => negb (Status_eqb value s)
  | None => false
  end.

(** The test on [timestamp]; a comparison with an invalid date is false. *)
Definition outsideRange (range : option TimeRange) (eventTs : Z) : bool :=
  match range with
  | None => false
  | Some r =>
      match gte r with
      | Some (ValidDate g) => eventTs <? g
      | _ => false
      end
      || match lte r with
         | Some (ValidDate l) => l <? eventTs
         | _ => false
         end
  end.

(** The filter of [countEvents] and of [aggregateEvents]. *)
Definition matches (q : MatchCriteria) (e : Event) : bool :=
  negb (statusDiffers (mStatus q) (status (data e)))
  && negb (differsFrom (mClientId q) (clientId (canonical (data e))))
  && negb (differsFrom (mMetric q) (metric (canonical (data e))))
  && negb (outsideRange (mTimestamp q) (timestamp (canonical (data e)))).

(** [groups.get(key)] updated with one more amount, the group being created
    at the end of the map when it is new. *)
Fixpoint addToGroup (key : string) (x : Number)
  (groups : list (string * GroupData)) : list (string * GroupData) :=
  match groups with
  | [] => [(key, mkGroupData (addStored (Finite 0) x) (0 + 1) [x])]
  | (k, g) :: tl =>
      if String.eqb k key
      then (k, mkGroupData (addStored (gTotalAmount g) x) (gTotalCount g + 1)
                 (gAmounts g ++ [x])) :: tl
      else (k, g) :: addToGroup key x tl
  end.

(** [amounts.sort((a, b) => a - b)]: the sort is stable, and the sign of
    the difference of two doubles is that of their exact difference. *)
Fixpoint insertAscending (x : Number) (l : list Number) : list Number :=
  match l with
  | [] => [x]
  | y :: tl =>
      if Qltb (storedValue y) (storedValue x)
      then y :: insertAscending x tl else x :: l
  end.

Definition sortAscending (l : list Number) : list Number :=
  fold_right insertAscending [] l.

(** [results.sort((a, b) => b.totalAmount - a.totalAmount)] *)
Fixpoint insertDescending (x : AggResult) (l : list AggResult)
  : list AggResult :=
  match l with
  | [] => [x]
  | y :: tl =>
      if numberLtb (totalAmount x) (totalAmount y)
      then y :: insertDescending x tl else x :: l
  end.

Definition sortDescending (l : list AggResult) : list AggResult :=
  fold_right insertDescending [] l.

(** [key.split('|')] *)
Fixpoint splitPipe (l : list ascii) : list (list ascii) :=
  match l with
  | [] => [[]]
  | c :: tl =>
      if Ascii.eqb c "|" then [] :: splitPipe tl
      else match splitPipe tl with
           | seg :: segs => (c :: seg) :: segs
           | [] => [[c]]
           end
  end.

Definition groupKey (groupBy : string) (e : Event) : string :=
  if String.eqb groupBy "clientId" then clientId (canonical (data e))
  else if String.eqb groupBy "metric" then metric (canonical (data e))
  else if String.eqb groupBy "both"
       then (clientId (canonical (data e)) ++ "|"
             ++ metric (canonical (data e)))%string
  else "all".

Definition toResult (groupBy : string) (entry : string * GroupData)
  : AggResult :=
  let (key, g) := entry in
  let amounts := sortAscending (gAmounts g) in
  mkAggResult (gTotalAmount g) (gTotalCount g)
    (divideBy (gTotalAmount g) (gTotalCount g))
    (hd (Finite 0) amounts) (last amounts (Finite 0))
    (if String.eqb groupBy "clientId" || String.eqb groupBy "metric"
     then Some (GroupKey key)
     else if String.eqb groupBy "both"
          then let parts := map string_of_list_ascii
                              (splitPipe (list_ascii_of_string key)) in
               Some (GroupBoth (nth 0 parts "") (nth 1 parts ""))
          else None).

(** [aggregateEvents] once the events are read. *)
Definition aggregate (events : list Event) (matchCriteria : MatchCriteria)
  (groupBy : string) : AggOutput :=
  let filtered := filter (matches matchCriteria) events in
  let groups :=
    fold_left (fun gs e => addToGroup (groupKey groupBy e)
                             (amount (canonical (data e))) gs) filtered [] in
  let results := sortDescending (map (toResult groupBy) groups) in
  if String.eqb groupBy "none" then One (hd_error results) else Many results.

(* ================================================================== *)
(** * storage/fileStorage.js *)

Module fileStorage.
Section FileStorage.
Context {env : Env}.

(** A failed read or parse is caught and gives the empty array. *)
Definition readEvents : M (list Event) :=
  ok <- consult eventsReadOk ;;
  if ok : bool then getEventsFile else ret [].

(** A failed write throws. *)
Definition writeEvents (events : list Event) : M unit :=
  ok <- consult eventsWriteOk ;;
  if ok : bool then putEventsFile events else throw writeError.

Definition readDedupRecords : M (list Dedup.t) :=
  ok <- consult dedupReadOk ;;
  if ok : bool then getDedupFile else ret [].

Definition writeDedupRecords (records : list Dedup.t) : M unit :=
  ok <- consult dedupWriteOk ;;
  if ok : bool then putDedupFile records else throw writeError.

(** [createEvent] (lines 127-138): read, append, write. *)
Definition createEvent (eventData : EventData) : M Event :=
  events <- readEvents ;;
  id <- consult randomUUID ;;
  created <- consult clock ;;
  updated <- consult clock ;;
  let event := mkEvent id eventData created updated in
  writeEvents (events ++ [event]) ;;;
  ret event.

(** [findEventById] (lines 143-146) *)
Definition findEventById (id : nat) : M (option Event) :=
  events <- readEvents ;;
  ret (find (fun e => Nat.eqb (_id e) id) events).

(** [deleteEventById] (lines 214-219) *)
Definition deleteEventById (id : nat) : M bool :=
  events <- readEvents ;;
  let filtered := filter (fun e => negb (Nat.eqb (_id e) id)) events in
  writeEvents filtered ;;;
  ret (negb (Nat.eqb (List.length events) (List.length filtered))).

(** [findDedupRecord] (lines 224-227) *)
Definition findDedupRecord (eventHash : string) : M (option Dedup.t) :=
  records <- readDedupRecords ;;
  ret (find (fun r => String.eqb (Dedup.eventHash r) eventHash) records).

(** [upsertDedupRecord] (lines 232-253) *)
Definition upsertDedupRecord (eventHash clientId : string) (eventId : nat)
  : M Dedup.t :=
  records <- readDedupRecords ;;
  let sameHash := fun r => String.eqb (Dedup.eventHash r) eventHash in
  let existing := find sameHash records in
  processedAt <- consult clock ;;
  createdAt <- match existing with
               | Some r => ret (Dedup.createdAt r)
               | None => consult clock
               end ;;
  updatedAt <- consult clock ;;
  let record :=
    Dedup.mk eventHash clientId eventId processedAt createdAt updatedAt in
  writeDedupRecords (match existing with
                     | Some _ => replaceFirst sameHash record records
                     | None => records ++ [record]
                     end) ;;;
  ret record.

(** [countEvents] (lines 194-209) *)
Definition countEvents (query : MatchCriteria) : M Z :=
  events <- readEvents ;;
  ret (Z.of_nat (List.length (filter (matches query) events))).

(** [aggregateEvents] (lines 258-330) *)
Definition aggregateEvents (matchCriteria : MatchCriteria) (groupBy : string)
  : M AggOutput :=
  events <- readEvents ;;
  ret (aggregate events matchCriteria groupBy).

End FileStorage.
End fileStorage.

(* ================================================================== *)
(** * models/Event.js and models/DeduplicationRecord.js *)

(** The [_id] of a [$group] stage. *)
Inductive GroupId : Type :=
| IdNull
| IdString (s : string)
| IdObject (clientId metric : string).

Inductive Stage : Type :=
| MatchStage (q : MatchCriteria)
| GroupStage (id : GroupId)
| ProjectStage
| SortStage.

Module EventModel.
Section EventModel.
Context {env : Env}.

(** [new Event(data)]: the fields of [data], [processedAt] set to the
    current time when [data] has none, [status] to processed when [data] has
    none, [retryCount] to 0. *)
Definition new (fields : Canonical) (status : option Status)
  (rejectionReason : option string) (originalPayload : JSON) : M EventData :=
  processedAt <- consult clock ;;
  ret (mkEventData fields
         (match status with Some s => s | None => processed end)
         rejectionReason originalPayload processedAt 0).

Definition save (this : EventData) : M Event := fileStorage.createEvent this.

Definition findById (id : nat) : M (option Event) :=
  fileStorage.findEventById id.

Definition findByIdAndDelete (id : nat) : M unit :=
  fileStorage.deleteEventById id ;;; ret tt.

Definition countDocuments (query : MatchCriteria) : M Z :=
  fileStorage.countEvents query.

(** The pipeline stages that [aggregate] looks at; a [$project] and a
    [$sort] stage are ignored. *)
Definition aggregate (pipeline : list Stage) : M (list (option AggResult)) :=
  let matchCriteria :=
    match find (fun s => match s with MatchStage _ => true | _ => false end)
               pipeline with
    | Some (MatchStage q) => q
    | _ => mkCriteria None None None None
    end in
  let groupBy :=
    match find (fun s => match s with GroupStage _ => true | _ => false end)
               pipeline with
    | Some (GroupStage (IdString id)) =>
        if String.eqb id "$clientId" then "clientId"
        else if String.eqb id "$metric" then "metric"
        else "none"
    | Some (GroupStage (IdObject c m)) =>
        if negb (String.eqb c "") && negb (String.eqb m "") then "both"
        else "none"
    | _ => "none"
    end in
  result <- fileStorage.aggregateEvents matchCriteria groupBy ;;
  ret (match result with
       | Many results => map Some results
       | One r => [r]
       end).

End EventModel.
End EventModel.

Module DeduplicationRecord.
Section DeduplicationRecord.
Context {env : Env}.

(** [findOne({ eventHash })]: [null] for a falsy hash. *)
Definition findOne (eventHash : string) : M (option Dedup.t) :=
  if String.eqb eventHash "" then ret None
  else fileStorage.findDedupRecord eventHash.

(** [findOneAndUpdate({ eventHash }, update, options)] *)
Definition findOneAndUpdate (queryHash updateHash clientId : string)
  (eventId : nat) : M (option Dedup.t) :=
  if String.eqb queryHash "" then ret None
  else
    r <- fileStorage.upsertDedupRecord
           (if String.eqb updateHash "" then queryHash else updateHash)
           clientId eventId ;;
    ret (Some r).

End DeduplicationRecord.
End DeduplicationRecord.

(* ================================================================== *)
(** * services/deduplicationService.js *)

Module deduplicationService.
Section DeduplicationService.
Context {env : Env}.

(** [isDuplicate] (lines 11-21) *)
Definition isDuplicate (eventHash : string) : M bool :=
  tryCatch
    (record <- DeduplicationRecord.findOne eventHash ;;
     ret (match record with Some _ => true | None => false end))
    (fun _ => ret false).

(** [recordProcessedEvent] (lines 27-52): [false] when a record exists and
    when an error is caught. *)
Definition recordProcessedEvent (eventHash clientId : string) (eventId : nat)
  : M bool :=
  tryCatch
    (existing <- DeduplicationRecord.findOne eventHash ;;
     match existing with
     | Some _ => ret false
     | None =>
         _processedAt <- consult clock ;;
         DeduplicationRecord.findOneAndUpdate eventHash eventHash clientId
           eventId ;;;
         ret true
     end)
    (fun _ => ret false).

(** [getExistingEventId] (lines 57-65) *)
Definition getExistingEventId (eventHash : string) : M (option nat) :=
  tryCatch
    (record <- DeduplicationRecord.findOne eventHash ;;
     ret (option_map Dedup.eventId record))
    (fun _ => ret None).

End DeduplicationService.
End deduplicationService.

(* ================================================================== *)
(** * services/eventProcessingService.js *)

(** [{ success, event, isDuplicate, error }] *)
Record ProcessResult : Type := mkResult {
  success : bool;
  event : option Event;
  isDuplicate : bool;
  error : option string
}.

Definition simulatedFailure : string := "Simulated database failure".

Module eventProcessingService.
Section EventProcessingService.
Context {rt : Runtime} {env : Env}.

(** [`rejected_${Date.now()}_${Math.random()}`] *)
Definition rejectedHash (dateNow : Z) (random : Q) : string :=
  ("rejected_" ++ decimal dateNow ++ "_" ++ showNumber random)%string.

(** Lines 17-45: the branch taken when normalization fails. *)
Definition reject (rawEvent : JSON) (normalizationError : string)
  : M ProcessResult :=
  tryCatch
    (now <- consult clock ;;
     dateNow <- consult clock ;;
     random <- consult mathRandom ;;
     rejectedEvent <-
       EventModel.new
         (mkCanonical "unknown" "rejected" (Finite 0) now
            (rejectedHash dateNow random))
         (Some rejected) (Some normalizationError) rawEvent ;;
     saved <- EventModel.save rejectedEvent ;;
     ret (mkResult false (Some saved) false (Some normalizationError)))
    (fun message =>
       ret (mkResult false None false
              (Some ("Failed to save rejected event: " ++ message)%string))).

(** Lines 113-151: the [catch] block of step 4. *)
Definition recover (normalized : Canonical) (originalPayload : JSON)
  (message : string) : M ProcessResult :=
  let markFailed :=
    tryCatch
      (failedEvent <- EventModel.new normalized (Some failed) (Some message)
                        originalPayload ;;
       saved <- EventModel.save failedEvent ;;
       ret (mkResult false (Some saved) false (Some message)))
      (fun _ =>
         ret (mkResult false None false
                (Some ("Failed to process event: " ++ message)%string))) in
  existingEventId <-
    deduplicationService.getExistingEventId (eventHash normalized) ;;
  match existingEventId with
  | Some id =>
      existingEvent <- EventModel.findById id ;;
      match existingEvent with
      | Some e => ret (mkResult true (Some e) true None)
      | None => markFailed
      end
  | None => markFailed
  end.

(** Lines 72-112: the [try] block of step 4, with its [catch]. *)
Definition store (normalized : Canonical) (originalPayload : JSON)
  : M ProcessResult :=
  tryCatch
    (newEvent <- EventModel.new normalized (Some processed) None
                   originalPayload ;;
     event <- EventModel.save newEvent ;;
     dedupResult <-
       deduplicationService.recordProcessedEvent (eventHash normalized)
         (clientId normalized) (_id event) ;;
     let created := mkResult true (Some event) false None in
     if negb dedupResult then
       EventModel.findByIdAndDelete (_id event) ;;;
       existingEventId <-
         deduplicationService.getExistingEventId (eventHash normalized) ;;
       match existingEventId with
       | Some id =>
           existingEvent <- EventModel.findById id ;;
           match existingEvent with
           | Some e => ret (mkResult true (Some e) true None)
           | None => ret created
           end
       | None => ret created
       end
     else ret created)
    (recover normalized originalPayload).

(** [processEvent] (lines 13-152): step 1, then [reject] or steps 2 to 4.  [now] is the
    current time, which [normalize] uses when the payload has no
    timestamp. *)
Definition processEvent (rawEvent : JSON) (simulateFailure : bool)
  : M ProcessResult :=
  now <- consult clock ;;
  match normalize now rawEvent with
  | NormFailure e => reject rawEvent e
  | NormSuccess normalized =>
      (* steps 3 and 4 *)
      let proceed :=
        if simulateFailure then throw simulatedFailure
        else store normalized rawEvent in
      (* step 2 *)
      isDuplicate <-
        deduplicationService.isDuplicate (eventHash normalized) ;;
      if isDuplicate : bool then
        existingEventId <-
          deduplicationService.getExistingEventId (eventHash normalized) ;;
        match existingEventId with
        | Some id =>
            existingEvent <- EventModel.findById id ;;
            ret (mkResult true existingEvent true None)
        | None => proceed
        end
      else proceed
  end.

(** [processEvents] (lines 157-164): a thrown error ends the loop. *)
Fixpoint processEvents (rawEvents : list JSON) (simulateFailure : bool)
  : M (list ProcessResult) :=
  match rawEvents with
  | [] => ret []
  | rawEvent :: rest =>
      result <- processEvent rawEvent simulateFailure ;;
      results <- processEvents rest simulateFailure ;;
      ret (result :: results)
  end.

End EventProcessingService.
End eventProcessingService.

(* ================================================================== *)
(** * routes/aggregation.js *)

(** [req.query]; [None] is an absent parameter. *)
Record AggregationQuery : Type := mkQuery {
  qClientId : option string;
  qStartDate : option string;
  qEndDate : option string;
  qMetric : option string;
  qGroupBy : option string
}.

Inductive AggregationJson : Type :=
| AggObject (result : option AggResult)
| AggArray (results : list (option AggResult)).

Record Statistics : Type := mkStatistics {
  totalProcessed : Z;
  statRejected : Z;
  statFailed : Z
}.

(** The [aggregation] and [statistics] properties of the response. *)
Record AggregationResponse : Type := mkResponse {
  aggregation : AggregationJson;
  statistics : Statistics
}.

Definition nonEmpty (s : option string) : option string :=
  match s with
  | Some x => if String.eqb x "" then None else Some x
  | None => None
  end.

Module aggregationRoute.
Section AggregationRoute.
Context {rt : Runtime} {env : Env}.

(** The handler of [GET /api/aggregation]. *)
Definition handler (query : AggregationQuery) : M AggregationResponse :=
  let groupBy := match qGroupBy query with Some g => g | None => "none" end in
  let matchCriteria :=
    mkCriteria (Some processed)
      (nonEmpty (qClientId query))
      (nonEmpty (qMetric query))
      (match nonEmpty (qStartDate query), nonEmpty (qEndDate query) with
       | None, None => None
       | startDate, endDate =>
           Some (mkRange (option_map dateParse startDate)
                   (option_map dateParse endDate))
       end) in
  let groupId :=
    if String.eqb groupBy "clientId" then IdString "$clientId"
    else if String.eqb groupBy "metric" then IdString "$metric"
    else if String.eqb groupBy "both" then IdObject "$clientId" "$metric"
    else IdNull in
  let pipeline :=
    [MatchStage matchCriteria; GroupStage groupId; ProjectStage]
    ++ (if String.eqb groupBy "none" then [] else [SortStage]) in
  results <- EventModel.aggregate pipeline ;;
  totalEvents <- EventModel.countDocuments matchCriteria ;;
  (* { status: 'rejected', ...matchCriteria }: the spread sets status again *)
  rejectedEvents <- EventModel.countDocuments matchCriteria ;;
  failedEvents <- EventModel.countDocuments matchCriteria ;;
  ret (mkResponse
         (if String.eqb groupBy "none"
          then AggObject (match results with r :: _ => r | [] => None end)
          else AggArray results)
         (mkStatistics totalEvents rejectedEvents failedEvents)).

End AggregationRoute.
End aggregationRoute.

(* ================================================================== *)
(** * routes/events.js *)

(** An element of [results] in the response of [POST /api/events]. *)
Record ResultJson : Type := mkResultJson {
  rSuccess : bool;
  rEventId : option nat;
  rIsDuplicate : bool;
  rError : option string
}.

(** The responses of [POST /api/events]: status 200 with the two counts and
    the results, status 400 and status 500 with an error. *)
Inductive IngestionResponse : Type :=
| Ingested (processed failed : nat) (results : list ResultJson)
| BadRequest (error : string)
| ServerError (error : string).

(** [Array.isArray(body) ? body : [body]] *)
Definition eventsOfBody (body : JSON) : list JSON :=
  match body with
  | JArr events => events
  | _ => [body]
  end.

(** [{ success, eventId, isDuplicate, error }] of a result. *)
Definition resultJson (r : ProcessResult) : ResultJson :=
  mkResultJson (success r) (option_map _id (event r)) (isDuplicate r)
    (nonEmpty (error r)).

Module eventsRoute.
Section EventsRoute.
Context {rt : Runtime} {env : Env}.

(** The handler of [POST /api/events] (lines 209-248); [simulateFailure] is
    the query parameter of this name, [None] when it is absent. *)
Definition post (body : JSON) (simulateFailure : option string)
  : M IngestionResponse :=
  tryCatch
    (let simulate :=
       match simulateFailure with
       | Some s => String.eqb s "true"
       | None => false
       end in
     let events := eventsOfBody body in
     if Nat.eqb (List.length events) 0
     then ret (BadRequest "No events provided")
     else
       results <- eventProcessingService.processEvents events simulate ;;
       let successful := filter success results in
       let failed := filter (fun r => negb (success r)) results in
       ret (Ingested (List.length successful) (List.length failed)
              (map resultJson results)))
    (fun message => ret (ServerError message)).

End EventsRoute.
End eventsRoute.

(* ================================================================== *)
(** * A concrete platform

    Node.js as far as this program uses it: SHA-256 (FIPS 180-4), the
    rendering of numbers, [Date.prototype.toString] and [Date] parsing for
    a process whose time zone is UTC. *)

Module Sha256.

Definition mask : Z := 4294967295.

Definition add32 (a b : Z) : Z := Z.land (a + b) mask.

Definition rotr (n x : Z) : Z :=
  Z.land (Z.lor (Z.shiftr x n) (Z.shiftl x (32 - n))) mask.

Definition Ch (x y z : Z) : Z :=
  Z.lxor (Z.land x y) (Z.land (Z.lxor x mask) z).
Definition Maj (x y z : Z) : Z :=
  Z.lxor (Z.lxor (Z.land x y) (Z.land x z)) (Z.land y z).
Definition Sigma0 (x : Z) : Z :=
  Z.lxor (Z.lxor (rotr 2 x) (rotr 13 x)) (rotr 22 x).
Definition Sigma1 (x : Z) : Z :=
  Z.lxor (Z.lxor (rotr 6 x) (rotr 11 x)) (rotr 25 x).
Definition sigma0 (x : Z) : Z :=
  Z.lxor (Z.lxor (rotr 7 x) (rotr 18 x)) (Z.shiftr x 3).
Definition sigma1 (x : Z) : Z :=
  Z.lxor (Z.lxor (rotr 17 x) (rotr 19 x)) (Z.shiftr x 10).

Definition K : list Z :=
  [
   1116352408; 1899447441; 3049323471; 3921009573; 961987163; 1508970993;
   2453635748; 2870763221; 3624381080; 310598401; 607225278; 1426881987;
   1925078388; 2162078206; 2614888103; 3248222580; 3835390401; 4022224774;
   264347078; 604807628; 770255983; 1249150122; 1555081692; 1996064986;
   2554220882; 2821834349; 2952996808; 3210313671; 3336571891; 3584528711;
   113926993; 338241895; 666307205; 773529912; 1294757372; 1396182291;
   1695183700; 1986661051; 2177026350; 2456956037; 2730485921; 2820302411;
   3259730800; 3345764771; 3516065817; 3600352804; 4094571909; 275423344;
   430227734; 506948616; 659060556; 883997877; 958139571; 1322822218;
   1537002063; 1747873779; 1955562222; 2024104815; 2227730452; 2361852424;
   2428436474; 2756734187; 3204031479; 3329325298 ].

Definition H0 : list Z :=
  [
   1779033703; 3144134277; 1013904242; 2773480762; 1359893119; 2600822924;
   528734635; 1541459225 ].

(** The message followed by the bit 1, zeros and its length in bits. *)
Definition pad (msg : list Z) : list Z :=
  let len := Z.of_nat (List.length msg) in
  let zeros := Z.to_nat ((55 - len) mod 64) in
  msg ++ [128] ++ repeat 0 zeros
      ++ map (fun i => Z.land (Z.shiftr (8 * len) (8 * (7 - Z.of_nat i))) 255)
           (seq 0 8).

Fixpoint words (bytes : list Z) : list Z :=
  match bytes with
  | a :: b :: c :: d :: tl =>
      (Z.shiftl a 24 + Z.shiftl b 16 + Z.shiftl c 8 + d) :: words tl
  | _ => []
  end.

(** The message schedule, the latest word first. *)
Fixpoint extend (n : nat) (ws : list Z) : list Z :=
  match n with
  | O => ws
  | S n' =>
      let w := add32 (add32 (sigma1 (nth 1 ws 0)) (nth 6 ws 0))
                     (add32 (sigma0 (nth 14 ws 0)) (nth 15 ws 0)) in
      extend n' (w :: ws)
  end.

Definition schedule (block : list Z) : list Z := rev (extend 48 (rev block)).

Definition round (s : list Z) (kw : Z * Z) : list Z :=
  match s with
  | [a; b; c; d; e; f; g; h] =>
      let t1 := add32 (add32 (add32 h (Sigma1 e)) (Ch e f g))
                      (add32 (fst kw) (snd kw)) in
      let t2 := add32 (Sigma0 a) (Maj a b c) in
      [add32 t1 t2; a; b; c; add32 d t1; e; f; g]
  | _ => s
  end.

Definition compress (h : list Z) (block : list Z) : list Z :=
  let s := fold_left round (combine K (schedule block)) h in
  map (fun p => add32 (fst p) (snd p)) (combine h s).

Fixpoint blocks (fuel : nat) (ws : list Z) (h : list Z) : list Z :=
  match fuel, ws with
  | S fuel', _ :: _ => blocks fuel' (skipn 16 ws) (compress h (firstn 16 ws))
  | _, _ => h
  end.

Definition digest (s : string) : N :=
  let bytes := map (fun c => Z.of_N (N_of_ascii c)) (list_ascii_of_string s) in
  let ws := words (pad bytes) in
  let h := blocks (List.length ws) ws H0 in
  Z.to_N (fold_left (fun acc w => acc * 4294967296 + w) h 0).

End Sha256.

Module Node.

Definition digitChar (d : Z) : ascii := ascii_of_N (Z.to_N (48 + d)).

(** The first [n] digits after the decimal point of [r / d], for
    [0 <= r < d], as long as some are left. *)
Fixpoint fraction (n : nat) (r d : Z) : list ascii :=
  match n with
  | O => []
  | S n' =>
      if r =? 0 then []
      else digitChar (10 * r / d) :: fraction n' ((10 * r) mod d) d
  end.

(** The rendering of a number; it is that of JavaScript for a number with
    a short decimal expansion. *)
Definition showFraction (q : Q) : string :=
  let n := Z.abs (Qnum q) in
  let d := Z.pos (Qden q) in
  let sign := if Qnum q <? 0 then "-" else "" in
  let whole := decimal (n / d) in
  let digits := fraction 17 (n mod d) d in
  (sign ++ whole
   ++ match digits with
      | [] => ""
      | _ => String "." (string_of_list_ascii digits)
      end)%string.

(** Days since 1970-01-01 of a date of the Gregorian calendar. *)
Definition daysFromCivil (y m d : Z) : Z :=
  let y' := if m <=? 2 then y - 1 else y in
  let era := y' / 400 in
  let yoe := y' - era * 400 in
  let doy := (153 * (if 2 <? m then m - 3 else m + 9) + 2) / 5 + d - 1 in
  let doe := yoe * 365 + yoe / 4 - yoe / 100 + doy in
  era * 146097 + doe - 719468.

(** Year, month and day of a number of days since 1970-01-01. *)
Definition civilFromDays (days : Z) : Z * Z * Z :=
  let z := days + 719468 in
  let era := z / 146097 in
  let doe := z - era * 146097 in
  let yoe := (doe - doe / 1460 + doe / 36524 - doe / 146096) / 365 in
  let doy := doe - (365 * yoe + yoe / 4 - yoe / 100) in
  let mp := (5 * doy + 2) / 153 in
  let d := doy - (153 * mp + 2) / 5 + 1 in
  let m := if mp <? 10 then mp + 3 else mp - 9 in
  (if m <=? 2 then yoe + era * 400 + 1 else yoe + era * 400, m, d).

Definition pad (width : nat) (z : Z) : string :=
  let s := decimal z in
  let zeros := repeat "0"%char (width - String.length s)%nat in
  (string_of_list_ascii zeros ++ s)%string.

Definition dayNames : list string :=
  ["Sun"; "Mon"; "Tue"; "Wed"; "Thu"; "Fri"; "Sat"].
Definition monthNames : list string :=
  ["Jan"; "Feb"; "Mar"; "Apr"; "May"; "Jun";
   "Jul"; "Aug"; "Sep"; "Oct"; "Nov"; "Dec"].

(** [Date.prototype.toString] in the time zone UTC. *)
Definition showDate (t : Z) : string :=
  let days := t / 86400000 in
  let secs := (t mod 86400000) / 1000 in
  let '(y, m, d) := civilFromDays days in
  let weekday := nth (Z.to_nat ((days + 4) mod 7)) dayNames "" in
  let month := nth (Z.to_nat (m - 1)) monthNames "" in
  let hh := pad 2 (secs / 3600) in
  let mm := pad 2 (secs / 60 mod 60) in
  let ss := pad 2 (secs mod 60) in
  (weekday ++ " " ++ month ++ " " ++ pad 2 d ++ " " ++ pad 4 y ++ " "
   ++ hh ++ ":" ++ mm ++ ":" ++ ss
   ++ " GMT+0000 (Coordinated Universal Time)")%string.

Definition D (n : nat) : Atom := Digits n n.

Definition isoDate : list Atom := [D 4; Lit "-"; D 2; Lit "-"; D 2].
Definition isoTime : list Atom :=
  [Lit "T"; D 2; Lit ":"; D 2; Lit ":"; D 2].
Definition slashDate : list Atom :=
  [D 4; Lit "/"; Digits 1 2; Lit "/"; Digits 1 2].

Definition exactly (pat : list Atom) (width : nat) (s : list ascii)
  : option (list Z) :=
  if (List.length s =? width)%nat
  then option_map (map digitsValue) (matchHere pat s)
  else None.

Definition civil (y m d : Z) (rest : Z) : JSDate :=
  if (1 <=? m) && (m <=? 12) && (1 <=? d) && (d <=? 31)
  then ValidDate (daysFromCivil y m d * 86400000 + rest)
  else InvalidDate.

(** [new Date(s)] for the date formats [YYYY-MM-DD],
    [YYYY-MM-DDTHH:MM:SSZ], [YYYY-MM-DDTHH:MM:SS.sssZ] and [YYYY/M/D];
    any other string gives an invalid date. *)
Definition parse (s : string) : JSDate :=
  let l := list_ascii_of_string s in
  match exactly isoDate 10 l with
  | Some [y; m; d] => civil y m d 0
  | _ =>
  match exactly (isoDate ++ isoTime ++ [Lit "Z"]) 20 l with
  | Some [y; m; d; hh; mm; ss] => civil y m d ((hh * 60 + mm) * 60000 + ss * 1000)
  | _ =>
  match exactly (isoDate ++ isoTime ++ [Lit "."; D 3; Lit "Z"]) 24 l with
  | Some [y; m; d; hh; mm; ss; ms] =>
      civil y m d ((hh * 60 + mm) * 60000 + ss * 1000 + ms)
  | _ =>
  match matchHere slashDate l with
  | Some [y; m; d] =>
      if (List.length l =? List.length (y ++ m ++ d) + 2)%nat
      then civil (digitsValue y) (digitsValue m) (digitsValue d) 0
      else InvalidDate
  | _ => InvalidDate
  end end end end.

Definition runtime : Runtime := {|
  sha256 := Sha256.digest;
  numberToString := showFraction;
  dateToString := showDate;
  dateParse := parse
|}.

(** An environment without faults: the clock advances by a second at each
    consultation from 2024-01-01T00:00:00Z on, identifiers are handed out in
    sequence. *)
Definition calm : Env := {|
  clock := fun n => 1704067200000 + 1000 * Z.of_nat n;
  mathRandom := fun n => Qmake (Z.of_nat (n mod 16)) 16;
  randomUUID := fun n => n;
  eventsReadOk := fun _ => true;
  eventsWriteOk := fun _ => true;
  dedupReadOk := fun _ => true;
  dedupWriteOk := fun _ => true
|}.

(** The same environment where no write to deduplication.json succeeds. *)
Definition dedupDiskFull : Env := {|
  clock := @clock calm;
  mathRandom := @mathRandom calm;
  randomUUID := @randomUUID calm;
  eventsReadOk := fun _ => true;
  eventsWriteOk := fun _ => true;
  dedupReadOk := fun _ => true;
  dedupWriteOk := fun _ => false
|}.

(** The environment [calm] where the read of deduplication.json for the
    duplicate check of the second submission below fails. *)
Definition blindCheck : Env := {|
  clock := @clock calm;
  mathRandom := @mathRandom calm;
  randomUUID := @randomUUID calm;
  eventsReadOk := fun _ => true;
  eventsWriteOk := fun _ => true;
  dedupReadOk := fun n => negb (Nat.eqb n 16);
  dedupWriteOk := fun _ => true
|}.

Definition emptyWorld : World := mkWorld [] [] 0.

(** The event of the end-to-end example of the specification. *)
Definition purchase : JSON :=
  JObj [("source", JStr "client_A");
        ("payload", JObj [("metric", JStr "purchase");
                          ("amount", JStr "1200");
                          ("timestamp", JStr "2024/01/01")])].

(** A valid event without timestamp. *)
Definition undated : JSON :=
  JObj [("source", JStr "client_A"); ("amount", JNum 5)].

(** Two events that fail normalization. *)
Definition anonymous : JSON := JObj [("amount", JNum 5)].
Definition priceless : JSON := JObj [("source", JStr "client_A")].

(** The state after [purchase] has been submitted once to the empty
    store. *)
Definition afterPurchase : World :=
  snd (@eventProcessingService.processEvent runtime calm purchase false
         emptyWorld).

(** A stored event that was rejected. *)
Definition rejectedSample : Event :=
  mkEvent 99
    (mkEventData (mkCanonical "unknown" "rejected" (Finite 0) 1704067200000
                    "rejected_1704067200000_0.5")
       rejected (Some amountError) priceless 1704067200000 0)
    1704067200000 1704067200000.

(** A second processed event of client_A and one of client_B. *)
Definition sampleEvent (id : nat) (client : string) (x : Q) : Event :=
  mkEvent id
    (mkEventData (mkCanonical client "purchase" (Finite x) 1704067200000 "")
       processed None JNull 1704067200000 0)
    1704067200000 1704067200000.

Definition sampleStore : list Event :=
  [sampleEvent 1 "client_A" 10; sampleEvent 2 "client_B" 40;
   rejectedSample; sampleEvent 3 "client_A" 20].

Definition onlyProcessed : MatchCriteria :=
  mkCriteria (Some processed) None None None.

(** Three processed events whose amounts are the doubles nearest to 0.3,
    0.1 and 0.2. *)
Definition roundedStore : list Event :=
  map (fun entry : nat * string * Q =>
         let '(id, client, x) := entry in
         mkEvent id
           (mkEventData
              (mkCanonical client "purchase" (toDouble x) 1704067200000 "")
              processed None JNull 1704067200000 0)
           1704067200000 1704067200000)
    [(1%nat, "client_B", 3 # 10); (2%nat, "client_A", 1 # 10);
     (3%nat, "client_A", 2 # 10)].

(** The environment [calm] where no read of events.json succeeds. *)
Definition blindReads : Env := {|
  clock := @clock calm;
  mathRandom := @mathRandom calm;
  randomUUID := @randomUUID calm;
  eventsReadOk := fun _ => false;
  eventsWriteOk := fun _ => true;
  dedupReadOk := fun _ => true;
  dedupWriteOk := fun _ => true
|}.

(** The environment [calm] where no write to events.json succeeds. *)
Definition eventsDiskFull : Env := {|
  clock := @clock calm;
  mathRandom := @mathRandom calm;
  randomUUID := @randomUUID calm;
  eventsReadOk := fun _ => true;
  eventsWriteOk := fun _ => false;
  dedupReadOk := fun _ => true;
  dedupWriteOk := fun _ => true
|}.

(** The environment [calm] where the eighth consultation, the write of the
    first event submitted to a fresh store, fails. *)
Definition oneBadWrite : Env := {|
  clock := @clock calm;
  mathRandom := @mathRandom calm;
  randomUUID := @randomUUID calm;
  eventsReadOk := fun _ => true;
  eventsWriteOk := fun n => negb (Nat.eqb n 7);
  dedupReadOk := fun _ => true;
  dedupWriteOk := fun _ => true
|}.

End Node.

(* ================================================================== *)
(** * Vocabulary of the statements *)

(** [c] does not occur in [s]. *)
Fixpoint lacks (c : ascii) (s : string) : Prop :=
  match s with
  | EmptyString => True
  | String x rest => x <> c /\ lacks c rest
  end.

(** The number of nodes of a value, on which the recursion of the extraction
    functions into [payload.payload] decreases. *)
Fixpoint jsize (v : JSON) : nat :=
  match v with
  | JArr items => S (list_sum (map jsize items))
  | JObj fs => S (list_sum (map (fun kv => jsize (snd kv)) fs))
  | _ => 1
  end.

(** None of the amount fields of [payload] gives a number, nor does any of
    the nested payload object, if there is one, and so on. *)
Inductive NoAmount : JSON -> Prop :=
| no_amount (payload : JSON) :
    (forall k, In k amountFields -> fieldAmount payload k = None) ->
    (forall inner, nested payload = Some inner -> NoAmount inner) ->
    NoAmount payload.

(** No oracle of the data files reports a fault. *)
Definition faultFree (env : Env) : Prop :=
  forall n, eventsReadOk n = true /\ eventsWriteOk n = true
            /\ dedupReadOk n = true /\ dedupWriteOk n = true.

(** Reading never fails. *)
Definition readsOk (env : Env) : Prop :=
  forall n, eventsReadOk n = true /\ dedupReadOk n = true.

(** Writing events.json never fails. *)
Definition eventWritesOk (env : Env) : Prop :=
  forall n, eventsWriteOk n = true.

(** Writing deduplication.json never fails. *)
Definition dedupWritesOk (env : Env) : Prop :=
  forall n, dedupWriteOk n = true.

(** Writing deduplication.json always fails. *)
Definition dedupWritesFail (env : Env) : Prop :=
  forall n, dedupWriteOk n = false.

(** [w] after [k] more consultations of the oracles. *)
Definition later (k : nat) (w : World) : World :=
  mkWorld (eventsFile w) (dedupFile w) (k + ticks w).

(** The test of [findDedupRecord]. *)
Definition sameHash (h : string) (r : Dedup.t) : bool :=
  String.eqb (Dedup.eventHash r) h.

(** The test of [findEventById]. *)
Definition hasId (id : nat) (e : Event) : bool := Nat.eqb (_id e) id.

(** The stored events that are processed and carry the hash [h]. *)
Definition processedWith (h : string) (events : list Event) : list Event :=
  filter (fun e => Status_eqb (status (data e)) processed
                   && String.eqb (eventHash (canonical (data e))) h) events.

(** The stored events whose status is processed. *)
Definition processedOnly (events : list Event) : list Event :=
  filter (fun e => Status_eqb (status (data e)) processed) events.

(** Two states that the oracles cannot tell apart and that hold the same
    processed events, in the same order. *)
Definition sameProcessed (w1 w2 : World) : Prop :=
  processedOnly (eventsFile w1) = processedOnly (eventsFile w2)
  /\ ticks w1 = ticks w2.

(** A computation that returns the same value in any two such states, and
    leaves them such. *)
Definition processedOnlyReader {A : Type} (m : M A) : Prop :=
  forall w1 w2, sameProcessed w1 w2 ->
    fst (m w1) = fst (m w2) /\ sameProcessed (snd (m w1)) (snd (m w2)).

(** The event that [save] stores in the state [w]. *)
Definition saved {env : Env} (w : World) (d : EventData) : Event :=
  mkEvent (randomUUID (1 + ticks w)) d (clock (2 + ticks w))
    (clock (3 + ticks w)).

(** The record that [recordProcessedEvent] stores in the state [w]. *)
Definition recorded {env : Env} (w : World) (h c : string) (id : nat)
  : Dedup.t :=
  Dedup.mk h c id (clock (3 + ticks w)) (clock (4 + ticks w))
    (clock (5 + ticks w)).

(** The event that a first submission stores in the state [w]. *)
Definition firstEvent {env : Env} (w : World) (n : Canonical) (raw : JSON)
  : Event :=
  saved (later 3 w) (mkEventData n processed None raw (clock (2 + ticks w)) 0).

(** The event that a rejected submission stores in the state [w]. *)
Definition rejectedEvent {rt : Runtime} {env : Env} (w : World) (raw : JSON)
  (reason : string) : Event :=
  saved (later 5 w)
    (mkEventData
       (mkCanonical "unknown" "rejected" (Finite 0) (clock (1 + ticks w))
          (eventProcessingService.rejectedHash (clock (2 + ticks w))
             (mathRandom (3 + ticks w))))
       rejected (Some reason) raw (clock (4 + ticks w)) 0).

(** A computation that returns, whatever the state and the oracles. *)
Definition returns {A : Type} (m : M A) : Prop :=
  forall w, exists a w', m w = (Normal a, w').

(** ** Vocabulary of the further properties *)

(** What the loop of [extractTimestamp] gets from the field [k]. *)
Definition fieldTimestamp {rt : Runtime} (payload : JSON) (k : string)
  : option Z :=
  match present (get payload k) with
  | Some value =>
      match parseDate value with
      | Some (ValidDate t) => Some t
      | _ => None
      end
  | None => None
  end.

(** One step of [digitsValue]. *)
Definition digitStep (acc : Z) (c : ascii) : Z := 10 * acc + digitValue c.

(** The amounts of a list of events. *)
Definition amountsOf (events : list Event) : list Number :=
  map (fun e => amount (canonical (data e))) events.

(** The events of [events] whose group key is [k]. *)
Definition members (groupBy k : string) (events : list Event) : list Event :=
  filter (fun e => String.eqb (groupKey groupBy e) k) events.

(** The elements of [l] without repetition, in the order in which they
    first occur. *)
Definition firstOccurrences (l : list string) : list string :=
  fold_left (fun seen k => if existsb (String.eqb k) seen then seen
                           else seen ++ [k]) l [].

(** The sum of the amounts [xs] as the code computes it: from zero on,
    one addition of doubles for each amount, in the order of the list. *)
Definition runningSum (xs : list Number) : Number :=
  fold_left addStored xs (Finite 0).

(** Sum, count and list of some amounts. *)
Definition summarize (xs : list Number) : GroupData :=
  mkGroupData (runningSum xs) (Z.of_nat (List.length xs)) xs.

(** The [Map] that [aggregateEvents] builds from the events it has
    filtered. *)
Definition groupsOf (groupBy : string) (filtered : list Event)
  : list (string * GroupData) :=
  fold_left (fun gs e => addToGroup (groupKey groupBy e)
                           (amount (canonical (data e))) gs) filtered [].

(** The order that the comparator [b.totalAmount - a.totalAmount] asks
    for: the total of [a] is not less than that of [b]. *)
Definition descending (a b : AggResult) : Prop :=
  numberLtb (totalAmount a) (totalAmount b) = false.

(** The order that the comparator [a - b] asks for on the amounts read from
    events.json, where [null] counts for zero. *)
Definition ascending (a b : Number) : Prop :=
  (storedValue a <= storedValue b)%Q.

(** The sum of the absolute values of some integers. *)
Definition sumAbs (zs : list Z) : Z :=
  fold_right (fun z s => Z.abs z + s) 0 zs.

(** The result object of the group of key [k] among the events
    [filtered]. *)
Definition summaryOf (groupBy : string) (filtered : list Event) (k : string)
  : AggResult :=
  toResult groupBy (k, summarize (amountsOf (members groupBy k filtered))).

(** The match criteria that the aggregation route builds from the query:
    the status is always processed. *)
Definition routeCriteria {rt : Runtime} (query : AggregationQuery)
  : MatchCriteria :=
  mkCriteria (Some processed)
    (nonEmpty (qClientId query))
    (nonEmpty (qMetric query))
    (match nonEmpty (qStartDate query), nonEmpty (qEndDate query) with
     | None, None => None
     | startDate, endDate =>
         Some (mkRange (option_map dateParse startDate)
                 (option_map dateParse endDate))
     end).

(** The grouping that reaches [aggregateEvents] for the [groupBy] parameter
    of the query. *)
Definition effectiveGroupBy (query : AggregationQuery) : string :=
  match qGroupBy query with
  | Some g =>
      if String.eqb g "clientId" || String.eqb g "metric"
         || String.eqb g "both"
      then g else "none"
  | None => "none"
  end.

(** [triple P m Q E]: run in a world where [P] holds, [m] returns a value
    and leaves a world for which [Q] holds, or throws a message and leaves a
    world for which [E] holds. *)
Definition triple {A : Type} (P : World -> Prop) (m : M A)
  (Q : A -> World -> Prop) (E : string -> World -> Prop) : Prop :=
  forall w, P w ->
    match m w with
    | (Normal a, w') => Q a w'
    | (Thrown e, w') => E e w'
    end.

(** [m] keeps the invariant [I], however it ends. *)
Definition keeps {A : Type} (I : World -> Prop) (m : M A) : Prop :=
  triple I m (fun _ => I) (fun _ => I).

(** No two records of deduplication.json have the same hash. *)
Definition uniqueHashes (w : World) : Prop :=
  NoDup (map Dedup.eventHash (dedupFile w)).

(** What a result of [processEvent] for [rawEvent] tells, where
    [normalizes] says whether the event passed normalization. *)
Definition accounted (rawEvent : JSON) (normalizes : bool)
  (r : ProcessResult) : Prop :=
  (error r = None <-> success r = true)
  /\ (isDuplicate r = true -> success r = true)
  /\ (success r = true -> normalizes = true)
  /\ (isDuplicate r = false ->
      match event r with
      | Some e =>
          originalPayload (data e) = rawEvent
          /\ rejectionReason (data e) = error r
          /\ (status (data e) = processed <-> success r = true)
          /\ (status (data e) = rejected <-> normalizes = false)
      | None => success r = false
      end).

(** The precondition that asks nothing. *)
Definition anyWorld (w : World) : Prop := True.

(** No hash has more than one processed event, and the hash of every
    processed event has a record in deduplication.json. *)
Definition exactlyOnce (w : World) : Prop :=
  (forall h, (List.length (processedWith h (eventsFile w)) <= 1)%nat)
  /\ (forall e, In e (processedOnly (eventsFile w)) ->
        find (sameHash (eventHash (canonical (data e)))) (dedupFile w)
        <> None).

(** Writing events.json always fails. *)
Definition eventWritesFail (env : Env) : Prop :=
  forall n, eventsWriteOk n = false.

(* ================================================================== *)
(** * Properties *)

(** ** Values and strings *)

Lemma field_with_map {A : Type} (f : JSON -> A) (k : string)
  (l : list (string * JSON)) :
  field_with f k l = option_map f (field_with (fun x => x) k l).
Proof.
  induction l as [|[k' v] tl IH]; simpl; [reflexivity|].
  destruct (String.eqb k' k); [reflexivity | exact IH].
Qed.

Lemma nestedWith_nested {A : Type} (f : JSON -> A) (payload : JSON) :
  nestedWith f payload = option_map f (nested payload).
Proof.
  unfold nested, nestedWith.
  destruct payload as [| b | q | s | items | fields]; try reflexivity.
  rewrite (field_with_map (fun inner => if isObject inner then Some (f inner) else None)).
  rewrite (field_with_map (fun inner => if isObject inner then Some inner else None)).
  destruct (field_with (fun x => x) "payload" fields) as [v|]; simpl; [|reflexivity].
  destruct (isObject v); reflexivity.
Qed.

Lemma field_with_size (k : string) (fs : list (string * JSON)) (v : JSON) :
  field_with (fun x => x) k fs = Some v ->
  (jsize v <= list_sum (map (fun kv => jsize (snd kv)) fs))%nat.
Proof.
  induction fs as [|[k' x] fs IH]; simpl; [discriminate|].
  destruct (String.eqb k' k).
  - intros [= ->]. lia.
  - intros H. specialize (IH H). lia.
Qed.

Lemma nested_smaller (payload inner : JSON) :
  nested payload = Some inner -> (jsize inner < jsize payload)%nat.
Proof.
  unfold nested, nestedWith.
  destruct payload as [| b | q | s | items | fields]; try discriminate.
  rewrite (field_with_map (fun inner => if isObject inner then Some inner
                                        else None)).
  destruct (field_with (fun x => x) "payload" fields) as [v|] eqn:E;
    simpl; [|discriminate].
  destruct (isObject v); [|discriminate].
  intros [= ->]. apply field_with_size in E. simpl. lia.
Qed.

(** Induction along the chain of the nested payloads. *)
Lemma nested_ind (P : JSON -> Prop) :
  (forall payload,
     (forall inner, nested payload = Some inner -> P inner) -> P payload) ->
  forall payload, P payload.
Proof.
  intros step payload.
  remember (jsize payload) as n eqn:Hn.
  revert payload Hn.
  induction n as [n IH] using lt_wf_ind. intros payload ->.
  apply step. intros inner Hinner.
  apply (IH (jsize inner)); [apply nested_smaller; exact Hinner | reflexivity].
Qed.

Lemma hexDigit_in (n : N) : In (hexDigit n) hexDigits.
Proof.
  unfold hexDigit.
  destruct (nth_in_or_default (N.to_nat n) hexDigits "0"%char) as [H|H].
  - exact H.
  - rewrite H. simpl. auto.
Qed.

Lemma hexDigitsOf_head (k : nat) (n : N) (acc : string) :
  exists c rest, hexDigitsOf (S k) n acc = String c rest /\ In c hexDigits.
Proof.
  revert n acc. induction k as [|k IH]; intros n acc.
  - simpl. exists (hexDigit (n mod 16)), acc. split; [reflexivity|].
    apply hexDigit_in.
  - change (hexDigitsOf (S (S k)) n acc)
      with (hexDigitsOf (S k) (n / 16)%N (String (hexDigit (n mod 16)%N) acc)).
    apply IH.
Qed.

(** A hexadecimal digest starts with a hexadecimal digit. *)
Lemma hex_head (n : N) :
  exists c rest, hex n = String c rest /\ In c hexDigits.
Proof. apply hexDigitsOf_head. Qed.

Lemma hex_nonempty (n : N) : String.eqb (hex n) "" = false.
Proof.
  destruct (hex_head n) as (c & rest & -> & _). reflexivity.
Qed.





(** Two strings cut at their first occurrence of [c] are equal part by
    part. *)
Lemma append_split (c : ascii) (a b x y : string) :
  lacks c a -> lacks c b ->
  (a ++ String c x)%string = (b ++ String c y)%string -> a = b /\ x = y.
Proof.
  revert b. induction a as [|p a IH]; intros [|q b] Ha Hb H; simpl in *.
  - injection H as H. auto.
  - injection H as H1 H2. destruct Hb as [Hb _]. congruence.
  - injection H as H1 H2. destruct Ha as [Ha _]. congruence.
  - injection H as H1 H2. destruct Ha as [_ Ha], Hb as [_ Hb].
    destruct (IH b Ha Hb H2) as [-> ->]. subst. auto.
Qed.

(* ------------------------------------------------------------------ *)
(** ** Rounding to the nearest double *)

Lemma roundHalfEven_exact (n d : Z) :
  0 < d -> roundHalfEven (n * d) d = n.
Proof.
  intros Hd. unfold roundHalfEven.
  rewrite Z.div_mul by lia. rewrite Z.mod_mul by lia.
  change (2 * 0) with 0.
  destruct (0 ?= d) eqn:E;
    [apply Z.compare_eq_iff in E; lia | reflexivity
    | apply Z.compare_gt_iff in E; lia].
Qed.

Lemma roundHalfEven_1 (n : Z) : roundHalfEven n 1 = n.
Proof.
  rewrite <- (Z.mul_1_r n) at 1. apply roundHalfEven_exact. lia.
Qed.

Lemma roundHalfEven_near (n d : Z) :
  0 < d -> - d <= 2 * (roundHalfEven n d * d - n) <= d.
Proof.
  intros Hd. unfold roundHalfEven.
  pose proof (Z.div_mod n d ltac:(lia)) as Hdm.
  pose proof (Z.mod_pos_bound n d Hd) as Hr.
  set (q := n / d) in *. set (r := n mod d) in *.
  assert (H1 : q * d - n = - r) by (rewrite Hdm; ring).
  assert (H2 : (q + 1) * d - n = d - r) by (rewrite Hdm; ring).
  destruct (Z.compare_spec (2 * r) d) as [E|E|E]; [destruct (Z.even q)| |];
    rewrite ?H1, ?H2; clear H1 H2 Hdm; clearbody q r; lia.
Qed.

Lemma floorLog2_spec (n d : Z) :
  0 < n -> 0 < d ->
  if 0 <=? floorLog2 n d then 2 ^ floorLog2 n d * d <= n
  else d <= 2 ^ (- floorLog2 n d) * n.
Proof.
  intros Hn Hd. unfold floorLog2.
  set (i := Z.log2 n). set (j := Z.log2 d).
  pose proof (Z.log2_spec n Hn) as [Hi1 Hi2]. fold i in Hi1, Hi2.
  pose proof (Z.log2_spec d Hd) as [Hj1 Hj2]. fold j in Hj1, Hj2.
  pose proof (Z.log2_nonneg n) as Hi0. fold i in Hi0.
  pose proof (Z.log2_nonneg d) as Hj0. fold j in Hj0.
  rewrite Z.pow_succ_r in Hi2, Hj2 by assumption.
  destruct (0 <=? i - j) eqn:Ek.
  - apply Z.leb_le in Ek.
    destruct (2 ^ (i - j) * d <=? n) eqn:Et.
    + rewrite (proj2 (Z.leb_le 0 (i - j)) Ek). apply Z.leb_le. exact Et.
    + destruct (0 <=? i - j - 1) eqn:Ek1.
      * apply Z.leb_le in Ek1.
        assert (Hp : 2 ^ i = 2 ^ (i - j - 1) * (2 * 2 ^ j)).
        { rewrite <- Z.pow_succ_r, <- Z.pow_add_r by lia. f_equal. lia. }
        assert (0 < 2 ^ (i - j - 1)) by (apply Z.pow_pos_nonneg; lia).
        nia.
      * apply Z.leb_gt in Ek1. assert (i = j) as -> by lia.
        replace (- (j - j - 1)) with 1 by lia. change (2 ^ 1) with 2. lia.
  - apply Z.leb_gt in Ek.
    destruct (d <=? 2 ^ (- (i - j)) * n) eqn:Et.
    + rewrite (proj2 (Z.leb_gt 0 (i - j)) Ek). apply Z.leb_le. exact Et.
    + replace (0 <=? i - j - 1) with false
        by (symmetry; apply Z.leb_gt; lia).
      assert (Hp : 2 * 2 ^ j = 2 ^ (- (i - j - 1)) * 2 ^ i).
      { rewrite <- Z.pow_succ_r, <- Z.pow_add_r by lia. f_equal. lia. }
      assert (0 < 2 ^ (- (i - j - 1))) by (apply Z.pow_pos_nonneg; lia).
      nia.
Qed.

Lemma floorLog2_integer (n : Z) : 0 < n -> floorLog2 n 1 = Z.log2 n.
Proof.
  intros Hn. unfold floorLog2. change (Z.log2 1) with 0. rewrite Z.sub_0_r.
  pose proof (Z.log2_nonneg n) as H0. pose proof (Z.log2_spec n Hn) as [H1 _].
  rewrite (proj2 (Z.leb_le 0 (Z.log2 n)) H0), Z.mul_1_r.
  rewrite (proj2 (Z.leb_le _ _) H1). reflexivity.
Qed.

Lemma Qred_integer (n : Z) : Qred (n # 1) = n # 1.
Proof.
  unfold Qred.
  pose proof (Z.ggcd_gcd n 1) as Hg.
  pose proof (Z.ggcd_correct_divisors n 1) as Hd.
  destruct (Z.ggcd n 1) as [g [aa bb]]. simpl in *.
  rewrite Z.gcd_1_r in Hg. subst g. destruct Hd as [Ha Hb].
  rewrite Z.mul_1_l in Ha, Hb. rewrite <- Ha, <- Hb. reflexivity.
Qed.

Lemma Qred_scaled (z p : Z) :
  0 < p -> Qred (Qmake (z * p) (Z.to_pos p)) = inject_Z z.
Proof.
  intros Hp.
  rewrite (Qred_complete (Qmake (z * p) (Z.to_pos p)) (inject_Z z)).
  - apply Qred_integer.
  - unfold Qeq. cbn. rewrite Z2Pos.id by exact Hp. lia.
Qed.

(** An integer of at most 53 bits is a double. *)
Lemma toDouble_integer (z : Z) :
  Z.abs z <= 2 ^ 53 -> toDouble (inject_Z z) = Finite (inject_Z z).
Proof.
  intros Hz. unfold toDouble. cbn [inject_Z Qnum Qden].
  destruct (Z.abs z =? 0) eqn:E0.
  - apply Z.eqb_eq in E0. replace z with 0 by lia. reflexivity.
  - apply Z.eqb_neq in E0.
    assert (Hn : 0 < Z.abs z) by lia.
    rewrite (floorLog2_integer _ Hn).
    pose proof (Z.log2_nonneg (Z.abs z)) as Hk0.
    pose proof (Z.log2_spec _ Hn) as [Hk1 Hk2].
    assert (Hk : Z.log2 (Z.abs z) <= 53).
    { rewrite <- (Z.log2_pow2 53) by lia. apply Z.log2_le_mono. exact Hz. }
    set (k := Z.log2 (Z.abs z)) in *.
    rewrite Z.max_l by lia.
    assert (Hsign : (if z <? 0 then - Z.abs z else Z.abs z) = z).
    { destruct (z <? 0) eqn:Es;
        [apply Z.ltb_lt in Es | apply Z.ltb_ge in Es]; lia. }
    destruct (0 <=? k - 52) eqn:Ee.
    + apply Z.leb_le in Ee. rewrite Z.mul_1_l.
      assert (Hcases : k = 52 \/ k = 53) by lia.
      destruct Hcases as [Hk52|Hk53].
      * rewrite Hk52. change (2 ^ (52 - 52)) with 1.
        rewrite roundHalfEven_1.
        rewrite Z.mul_1_r.
        replace (2 ^ 1024 <=? Z.abs z) with false
          by (symmetry; apply Z.leb_gt; lia).
        rewrite Z.mul_1_r, Hsign. reflexivity.
      * rewrite Hk53 in *. change (2 ^ (53 - 52)) with 2.
        assert (Habs : Z.abs z = 2 ^ 52 * 2).
        { change (2 ^ 52 * 2) with (2 ^ 53). lia. }
        rewrite Habs, roundHalfEven_exact by lia.
        rewrite <- Habs.
        replace (2 ^ 1024 <=? Z.abs z) with false
          by (symmetry; apply Z.leb_gt; lia).
        f_equal. f_equal.
        destruct (z <? 0) eqn:Es;
          [apply Z.ltb_lt in Es | apply Z.ltb_ge in Es]; lia.
    + apply Z.leb_gt in Ee.
      assert (Hp : 0 < 2 ^ (- (k - 52))) by (apply Z.pow_pos_nonneg; lia).
      rewrite roundHalfEven_1.
      replace (if z <? 0 then - (Z.abs z * 2 ^ (- (k - 52)))
               else Z.abs z * 2 ^ (- (k - 52)))
        with (z * 2 ^ (- (k - 52)))
        by (destruct (z <? 0) eqn:Es;
              [apply Z.ltb_lt in Es | apply Z.ltb_ge in Es]; lia).
      rewrite Qred_scaled by exact Hp. reflexivity.
Qed.

Lemma floorLog2_upper (n d : Z) :
  0 < n -> 0 < d ->
  if 0 <=? floorLog2 n d + 1 then n < 2 ^ (floorLog2 n d + 1) * d
  else 2 ^ (- (floorLog2 n d + 1)) * n < d.
Proof.
  intros Hn Hd. unfold floorLog2.
  set (i := Z.log2 n). set (j := Z.log2 d).
  pose proof (Z.log2_spec n Hn) as [Hi1 Hi2]. fold i in Hi1, Hi2.
  pose proof (Z.log2_spec d Hd) as [Hj1 Hj2]. fold j in Hj1, Hj2.
  pose proof (Z.log2_nonneg n) as Hi0. fold i in Hi0.
  pose proof (Z.log2_nonneg d) as Hj0. fold j in Hj0.
  rewrite Z.pow_succ_r in Hi2, Hj2 by assumption.
  destruct (0 <=? i - j) eqn:Ek.
  - apply Z.leb_le in Ek.
    destruct (2 ^ (i - j) * d <=? n) eqn:Et.
    + replace (0 <=? i - j + 1) with true by (symmetry; apply Z.leb_le; lia).
      assert (Hp : 2 * 2 ^ i = 2 ^ (i - j + 1) * 2 ^ j).
      { rewrite <- Z.pow_succ_r, <- Z.pow_add_r by lia. f_equal. lia. }
      assert (0 < 2 ^ (i - j + 1)) by (apply Z.pow_pos_nonneg; lia).
      nia.
    + replace (i - j - 1 + 1) with (i - j) by lia.
      rewrite (proj2 (Z.leb_le 0 (i - j)) Ek). apply Z.leb_gt in Et. exact Et.
  - apply Z.leb_gt in Ek.
    destruct (d <=? 2 ^ (- (i - j)) * n) eqn:Et.
    + destruct (0 <=? i - j + 1) eqn:Ek1.
      * apply Z.leb_le in Ek1. assert (i - j + 1 = 0) as -> by lia.
        change (2 ^ 0) with 1.
        assert (Hp : 2 ^ j = 2 * 2 ^ i).
        { replace j with (Z.succ i) by lia. apply Z.pow_succ_r. lia. }
        lia.
      * apply Z.leb_gt in Ek1.
        assert (Hp : 2 ^ j = 2 ^ (- (i - j + 1)) * (2 * 2 ^ i)).
        { rewrite <- Z.pow_succ_r, <- Z.pow_add_r by lia. f_equal. lia. }
        assert (0 < 2 ^ (- (i - j + 1))) by (apply Z.pow_pos_nonneg; lia).
        nia.
    + replace (i - j - 1 + 1) with (i - j) by lia.
      rewrite (proj2 (Z.leb_gt 0 (i - j)) Ek). apply Z.leb_gt in Et. exact Et.
Qed.

Lemma floorLog2_small (n d : Z) :
  0 < n -> 0 < d -> n < 2 ^ 53 * d -> floorLog2 n d <= 52.
Proof.
  intros Hn Hd Hlt. pose proof (floorLog2_spec n d Hn Hd) as H.
  destruct (Z.le_gt_cases (floorLog2 n d) 52) as [Hle|Hgt]; [exact Hle|].
  exfalso.
  replace (0 <=? floorLog2 n d) with true in H
    by (symmetry; apply Z.leb_le; lia).
  assert (Hp : 2 ^ 53 <= 2 ^ floorLog2 n d) by (apply Z.pow_le_mono_r; lia).
  nia.
Qed.

Lemma floorLog2_large (n d : Z) :
  0 < n -> 0 < d -> 2 ^ 53 * d <= n -> 53 <= floorLog2 n d.
Proof.
  intros Hn Hd Hge. pose proof (floorLog2_upper n d Hn Hd) as H.
  destruct (Z.le_gt_cases 53 (floorLog2 n d)) as [Hle|Hgt]; [exact Hle|].
  exfalso.
  destruct (0 <=? floorLog2 n d + 1) eqn:E.
  - apply Z.leb_le in E.
    assert (Hp : 2 ^ (floorLog2 n d + 1) <= 2 ^ 53)
      by (apply Z.pow_le_mono_r; lia).
    nia.
  - apply Z.leb_gt in E.
    assert (0 < 2 ^ (- (floorLog2 n d + 1))) by (apply Z.pow_pos_nonneg; lia).
    assert (0 < 2 ^ 53) by (apply Z.pow_pos_nonneg; lia).
    nia.
Qed.

Section Rounding.
Local Open Scope Q_scope.

(** Below [2 ^ 53] rounding moves a number by a half at most. *)
Lemma toDouble_near (x : Q) :
  (Qabs x < inject_Z (2 ^ 53))%Q ->
  exists y, toDouble x = Finite y /\ (Qabs (y - x) <= 1 # 2)%Q.
Proof.
  destruct x as [a dp]. intros Hlt. unfold Qlt, Qabs in Hlt.
  cbn [Qnum Qden inject_Z] in Hlt. rewrite Z.mul_1_r in Hlt.
  unfold toDouble. cbn [Qnum Qden].
  destruct (Z.abs a =? 0)%Z eqn:E0.
  - apply Z.eqb_eq in E0. exists 0. split; [reflexivity|].
    assert (a = 0%Z) as -> by lia. unfold Qle, Qabs, Qminus, Qplus, Qopp.
    cbn. lia.
  - apply Z.eqb_neq in E0.
    assert (Hn : (0 < Z.abs a)%Z) by lia.
    assert (Hd : (0 < Z.pos dp)%Z) by lia.
    pose proof (floorLog2_small _ _ Hn Hd Hlt) as Hf.
    set (f := floorLog2 (Z.abs a) (Z.pos dp)) in *. clearbody f.
    set (e := Z.max (f - 52) (-1074)).
    assert (He : (e <= 0)%Z) by (unfold e; lia).
    assert (He' : (-1074 <= e)%Z) by (unfold e; lia).
    clearbody e.
    destruct (0 <=? e)%Z eqn:Ee.
    + apply Z.leb_le in Ee. assert (e = 0%Z) as -> by lia.
      change (2 ^ 0)%Z with 1%Z. rewrite !Z.mul_1_r.
      pose proof (roundHalfEven_near (Z.abs a) (Z.pos dp) Hd) as Hm.
      set (m := roundHalfEven (Z.abs a) (Z.pos dp)) in *. clearbody m.
      replace (2 ^ 1024 <=? m)%Z with false.
      2:{ symmetry. apply Z.leb_gt.
          assert (m * Z.pos dp < (2 ^ 53 + 1) * Z.pos dp)%Z by lia.
          assert (m < 2 ^ 53 + 1)%Z by nia.
          assert (2 ^ 53 + 1 < 2 ^ 1024)%Z by reflexivity. lia. }
      eexists. split; [reflexivity|].
      unfold Qle, Qabs, Qminus, Qplus, Qopp. cbn [Qnum Qden inject_Z].
      destruct (a <? 0)%Z eqn:Es;
        [apply Z.ltb_lt in Es | apply Z.ltb_ge in Es];
        rewrite ?Pos.mul_1_l, ?Z.mul_1_l, ?Z.mul_1_r; lia.
    + apply Z.leb_gt in Ee.
      assert (HP : (0 < 2 ^ (- e))%Z) by (apply Z.pow_pos_nonneg; lia).
      pose proof (roundHalfEven_near (Z.abs a * 2 ^ (- e)) (Z.pos dp) Hd)
        as Hm.
      set (m := roundHalfEven (Z.abs a * 2 ^ (- e)) (Z.pos dp)) in *.
      clearbody m.
      set (P := (2 ^ (- e))%Z) in *. clearbody P.
      eexists. split; [reflexivity|].
      rewrite Qred_correct.
      unfold Qle, Qabs, Qminus, Qplus, Qopp. cbn [Qnum Qden].
      rewrite Pos2Z.inj_mul, Z2Pos.id by exact HP.
      destruct (a <? 0)%Z eqn:Es;
        [apply Z.ltb_lt in Es | apply Z.ltb_ge in Es];
        rewrite ?Z.mul_1_l; nia.
Qed.

(** From [2 ^ 53] on the rounded number is not below [2 ^ 53]. *)
Lemma toDouble_large (x : Q) :
  (inject_Z (2 ^ 53) <= Qabs x)%Q ->
  match toDouble x with
  | Finite y => (inject_Z (2 ^ 53) <= Qabs y)%Q
  | Infinity _ => True
  end.
Proof.
  destruct x as [a dp]. intros Hge. unfold Qle, Qabs in Hge.
  cbn [Qnum Qden inject_Z] in Hge. rewrite Z.mul_1_r in Hge.
  unfold toDouble. cbn [Qnum Qden].
  assert (H53 : (0 < 2 ^ 53)%Z) by reflexivity.
  assert (Hd : (0 < Z.pos dp)%Z) by lia.
  assert (Hn : (0 < Z.abs a)%Z) by nia.
  replace (Z.abs a =? 0)%Z with false by (symmetry; apply Z.eqb_neq; lia).
  pose proof (floorLog2_large _ _ Hn Hd Hge) as Hf.
  pose proof (floorLog2_spec _ _ Hn Hd) as Hspec.
  set (f := floorLog2 (Z.abs a) (Z.pos dp)) in *. clearbody f.
  replace (0 <=? f)%Z with true in Hspec by (symmetry; apply Z.leb_le; lia).
  rewrite Z.max_l by lia.
  replace (0 <=? f - 52)%Z with true by (symmetry; apply Z.leb_le; lia).
  assert (Hpow : (2 ^ f = 2 ^ 52 * 2 ^ (f - 52))%Z).
  { rewrite <- Z.pow_add_r by lia. f_equal. lia. }
  assert (HE : (2 <= 2 ^ (f - 52))%Z).
  { change 2%Z with (2 ^ 1)%Z at 1. apply Z.pow_le_mono_r; lia. }
  set (E := (2 ^ (f - 52))%Z) in *. clearbody E.
  pose proof (roundHalfEven_near (Z.abs a) (Z.pos dp * E) ltac:(nia)) as Hm.
  set (m := roundHalfEven (Z.abs a) (Z.pos dp * E)) in *. clearbody m.
  destruct (2 ^ 1024 <=? m * E)%Z; [exact I|].
  assert (Hm52 : (2 ^ 52 <= m)%Z).
  { assert (0 < Z.pos dp * E)%Z by nia.
    assert ((2 * 2 ^ 52 - 1) * (Z.pos dp * E) <= 2 * m * (Z.pos dp * E))%Z
      by nia.
    assert (2 * 2 ^ 52 - 1 <= 2 * m)%Z by nia. lia. }
  unfold Qle, Qabs. cbn [Qnum Qden inject_Z]. rewrite !Z.mul_1_r.
  change (2 ^ 53)%Z with (2 ^ 52 * 2)%Z.
  destruct (a <? 0)%Z; nia.
Qed.

End Rounding.

(* ------------------------------------------------------------------ *)
(** ** Timestamps *)

Lemma Qltb_inject_Z (a b : Z) : Qltb (inject_Z a) (inject_Z b) = (a <? b).
Proof.
  unfold Qltb, Qle_bool. simpl. rewrite !Z.mul_1_r.
  rewrite Z.ltb_antisym. reflexivity.
Qed.

Lemma newDate_integer (n : Z) :
  Z.abs n <= maxTime -> newDate (inject_Z n) = ValidDate n.
Proof.
  intros H. unfold newDate, Qle_bool. cbn [Qabs inject_Z Qnum Qden].
  rewrite !Z.mul_1_r, Z.quot_1_r.
  apply Z.leb_le in H. rewrite H. reflexivity.
Qed.

Lemma newDate_valid (x : Q) (t : Z) :
  newDate x = ValidDate t ->
  (Qabs x <= inject_Z maxTime)%Q /\ (Qabs (inject_Z t - x) < 1)%Q.
Proof.
  unfold newDate. destruct (Qle_bool (Qabs x) (inject_Z maxTime)) eqn:E;
    [|discriminate].
  intros [= <-]. split; [apply Qle_bool_iff; exact E|].
  destruct x as [a d]. cbn [Qnum Qden].
  pose proof (Z.quot_rem' a (Z.pos d)) as Hqr.
  pose proof (Z.rem_bound_abs a (Z.pos d) ltac:(lia)) as Hr.
  unfold Qlt, Qabs, Qminus, Qplus, Qopp. cbn [Qnum Qden inject_Z].
  rewrite Z.mul_1_r, Pos.mul_1_l, Z.mul_1_l.
  replace (Z.quot a (Z.pos d) * Z.pos d + - a) with (- Z.rem a (Z.pos d))
    by lia.
  lia.
Qed.

Lemma quot_in_range (x : Q) :
  (Qabs x <= inject_Z maxTime)%Q ->
  Z.abs (Z.quot (Qnum x) (Z.pos (Qden x))) <= maxTime.
Proof.
  destruct x as [a d]. unfold Qle, Qabs. cbn [Qnum Qden inject_Z].
  rewrite Z.mul_1_r. intros H.
  rewrite <- Z.quot_abs by lia. cbn [Z.abs].
  rewrite Z.quot_div_nonneg by lia.
  apply Z.div_le_upper_bound; lia.
Qed.

Lemma newDate_out_of_range (x : Q) :
  (inject_Z maxTime < Qabs x)%Q -> newDate x = InvalidDate.
Proof.
  intros H. unfold newDate.
  destruct (Qle_bool (Qabs x) (inject_Z maxTime)) eqn:E; [|reflexivity].
  apply Qle_bool_iff in E. exfalso. exact (Qlt_not_le _ _ H E).
Qed.

(** C8. A number [v] below [10^10] is taken for seconds: the date is built
    from the product [v * 1000], as the doubles give it.  When the date is
    valid, its instant is a whole number of milliseconds less than 3/2 ms
    away from [v * 1000], and it is [v * 1000] when [v] is an integer; the
    date is invalid when [v * 1000] is out of the range of a [Date] by a
    millisecond or more.  A number from [10^10] on is taken for
    milliseconds: the instant is [v] without its fraction, and the date is
    invalid when [v] is out of range.  1704067200 and 1704067200000 give
    the same instant. *)
Theorem parseDate_seconds_or_milliseconds (rt : Runtime) (v : Q) :
  (Qltb v 10000000000 = true ->
   parseDate (JNum v) = Some (newDateOf (toDouble (v * 1000)))
   /\ (forall t, parseDate (JNum v) = Some (ValidDate t) ->
       Z.abs t <= maxTime /\ (Qabs (inject_Z t - v * 1000) < 3 # 2)%Q)
   /\ (forall n : Z, v = inject_Z n -> - maxTime <= n * 1000 ->
       parseDate (JNum v) = Some (ValidDate (n * 1000)))
   /\ ((inject_Z (maxTime + 1) <= Qabs (v * 1000))%Q ->
       parseDate (JNum v) = Some InvalidDate))
  /\ (Qltb v 10000000000 = false ->
      parseDate (JNum v) = Some (newDate v)
      /\ (forall t, parseDate (JNum v) = Some (ValidDate t) ->
          Z.abs t <= maxTime /\ (Qabs (inject_Z t - v) < 1)%Q)
      /\ (forall n : Z, v = inject_Z n -> n <= maxTime ->
          parseDate (JNum v) = Some (ValidDate n))
      /\ ((inject_Z maxTime < v)%Q -> parseDate (JNum v) = Some InvalidDate))
  /\ parseDate (JNum 1704067200) = Some (ValidDate 1704067200000)
  /\ parseDate (JNum 1704067200000) = Some (ValidDate 1704067200000).
Proof.
  split; [|split; [|split]].
  - intros Hlt. unfold parseDate. rewrite Hlt.
    split; [reflexivity|]. split; [|split].
    + intros t [= Ht].
      destruct (toDouble (v * 1000)) as [y|b] eqn:Ey; [|discriminate Ht].
      cbn [newDateOf] in Ht.
      destruct (newDate_valid y t Ht) as [Hrange Hcut].
      assert (Hsmall : (Qabs (v * 1000) < inject_Z (2 ^ 53))%Q).
      { destruct (Qlt_le_dec (Qabs (v * 1000)) (inject_Z (2 ^ 53)))
          as [H|H]; [exact H|].
        exfalso. pose proof (toDouble_large _ H) as Hl. rewrite Ey in Hl.
        assert (Hc : (inject_Z (2 ^ 53) <= inject_Z maxTime)%Q)
          by (apply (Qle_trans _ _ _ Hl Hrange)).
        unfold Qle, maxTime in Hc. cbn in Hc. lia. }
      destruct (toDouble_near _ Hsmall) as (y' & Ey' & Hnear).
      rewrite Ey in Ey'. injection Ey' as <-.
      split.
      * unfold newDate in Ht.
        destruct (Qle_bool (Qabs y) (inject_Z maxTime)); [|discriminate].
        injection Ht as <-. exact (quot_in_range y Hrange).
      * setoid_replace (inject_Z t - v * 1000)%Q
          with ((inject_Z t - y) + (y - v * 1000))%Q by ring.
        apply (Qle_lt_trans _ _ _ (Qabs_triangle _ _)).
        setoid_replace (3 # 2)%Q with (1 + (1 # 2))%Q by reflexivity.
        apply Qplus_lt_le_compat; assumption.
    + intros n -> Hlow.
      change 10000000000%Q with (inject_Z (10 ^ 10)) in Hlt.
      rewrite Qltb_inject_Z in Hlt. apply Z.ltb_lt in Hlt.
      change (inject_Z n * 1000)%Q with (inject_Z (n * 1000)).
      rewrite toDouble_integer by (unfold maxTime in Hlow; lia).
      cbn [newDateOf].
      rewrite newDate_integer; [reflexivity | unfold maxTime in *; lia].
    + intros Hout. f_equal.
      destruct (Qlt_le_dec (Qabs (v * 1000)) (inject_Z (2 ^ 53))) as [H|H].
      * destruct (toDouble_near _ H) as (y & -> & Hnear). cbn [newDateOf].
        apply newDate_out_of_range.
        assert (Hy : (Qabs (v * 1000) <= Qabs y + (1 # 2))%Q).
        { setoid_replace (v * 1000)%Q with (y + - (y - v * 1000))%Q at 1
            by ring.
          apply (Qle_trans _ _ _ (Qabs_triangle _ _)).
          rewrite Qabs_opp. apply Qplus_le_r. exact Hnear. }
        apply (Qlt_le_trans _ (inject_Z (maxTime + 1) - (1 # 2))%Q).
        -- unfold Qlt, maxTime. cbn. lia.
        -- apply (Qplus_le_l _ _ (1 # 2)%Q).
           setoid_replace (inject_Z (maxTime + 1) - (1 # 2) + (1 # 2))%Q
             with (inject_Z (maxTime + 1)) by ring.
           exact (Qle_trans _ _ _ Hout Hy).
      * pose proof (toDouble_large _ H) as Hl.
        destruct (toDouble (v * 1000)) as [y|b]; [|reflexivity].
        cbn [newDateOf]. apply newDate_out_of_range.
        apply (Qlt_le_trans _ (inject_Z (2 ^ 53))); [|exact Hl].
        unfold Qlt, maxTime. cbn. lia.
  - intros Hge. unfold parseDate. rewrite Hge.
    split; [reflexivity|]. split; [|split].
    + intros t [= Ht]. destruct (newDate_valid v t Ht) as [Hrange Hcut].
      split; [|exact Hcut].
      unfold newDate in Ht.
      destruct (Qle_bool (Qabs v) (inject_Z maxTime)); [|discriminate].
      injection Ht as <-. exact (quot_in_range v Hrange).
    + intros n -> Hmax.
      change 10000000000%Q with (inject_Z (10 ^ 10)) in Hge.
      rewrite Qltb_inject_Z in Hge. apply Z.ltb_ge in Hge.
      rewrite newDate_integer; [reflexivity | unfold maxTime in *; lia].
    + intros Hout. f_equal. apply newDate_out_of_range.
      apply (Qlt_le_trans _ _ _ Hout). apply Qle_Qabs.
  - reflexivity.
  - reflexivity.
Qed.

Lemma parseDate_seconds_or_milliseconds_witness :
  @parseDate Node.runtime (JNum (inject_Z 1704067200))
  = Some (ValidDate (1704067200 * 1000)).
Proof.
  apply (proj1 (proj2 (proj2 (proj1
           (parseDate_seconds_or_milliseconds Node.runtime
              (inject_Z 1704067200)) eq_refl))) 1704067200).
  - reflexivity.
  - unfold maxTime. lia.
Defined.

(* ------------------------------------------------------------------ *)
(** ** Amounts *)


Lemma scanAmount_none (payload : JSON) (names : list string) :
  (forall k, In k names -> fieldAmount payload k = None) ->
  scanAmount names payload = None.
Proof.
  induction names as [|k names IH]; intros H; simpl; [reflexivity|].
  rewrite (H k) by (left; reflexivity).
  apply IH. intros k' Hin. apply H. right. exact Hin.
Qed.

(** The body of [extractAmount]. *)
Lemma extractAmount_eq (payload : JSON) :
  extractAmount payload
  = match scanAmount amountFields payload with
    | Some q => Normal q
    | None => match nested payload with
              | Some inner => extractAmount inner
              | None => Thrown amountError
              end
    end.
Proof.
  destruct payload as [| b | q | s | items | fields]; try reflexivity.
  cbn [extractAmount].
  destruct (scanAmount amountFields (JObj fields)); [reflexivity|].
  unfold nested, nestedWith.
  rewrite (field_with_map (fun inner => if isObject inner
                                        then Some (extractAmount inner)
                                        else None)).
  rewrite (field_with_map (fun inner => if isObject inner then Some inner
                                        else None)).
  destruct (field_with (fun x => x) "payload" fields) as [v|]; simpl;
    [|reflexivity].
  destruct (isObject v); reflexivity.
Qed.

Lemma scanAmount_none_inv (payload : JSON) (names : list string) :
  scanAmount names payload = None ->
  forall k, In k names -> fieldAmount payload k = None.
Proof.
  induction names as [|k' names IH]; simpl; intros H k Hin; [contradiction|].
  destruct (fieldAmount payload k') eqn:E; [discriminate|].
  destruct Hin as [<-|Hin]; [exact E | exact (IH H k Hin)].
Qed.

Lemma extractAmount_throws_iff (payload : JSON) :
  NoAmount payload <-> extractAmount payload = Thrown amountError.
Proof.
  split.
  - intros H. induction H as [payload Hfields _ IH].
    rewrite extractAmount_eq, (scanAmount_none payload amountFields Hfields).
    destruct (nested payload) as [inner|]; [apply IH|]; reflexivity.
  - induction payload as [payload IH] using nested_ind.
    rewrite extractAmount_eq.
    destruct (scanAmount amountFields payload) eqn:Escan; [discriminate|].
    intros H. constructor.
    + apply scanAmount_none_inv. exact Escan.
    + intros inner Hinner. apply (IH inner Hinner).
      rewrite Hinner in H. exact H.
Qed.

(** *** Amounts written in decimal *)

Lemma digits_of_uint_acc (d : Decimal.uint) (acc : positive) :
  fold_left digitStep (list_ascii_of_string (NilEmpty.string_of_uint d))
    (Z.pos acc)
  = Z.pos (Pos.of_uint_acc d acc).
Proof.
  revert acc.
  induction d; intros acc;
    cbn [Pos.of_uint_acc NilEmpty.string_of_uint list_ascii_of_string
         fold_left];
    try reflexivity; rewrite <- IHd; f_equal; unfold digitStep;
    match goal with
    | |- context [digitValue ?c] =>
        let v := eval vm_compute in (digitValue c) in
        change (digitValue c) with v
    end; lia.
Qed.

Lemma digits_of_uint (d : Decimal.uint) :
  fold_left digitStep (list_ascii_of_string (NilEmpty.string_of_uint d)) 0
  = Z.of_N (Pos.of_uint d).
Proof.
  induction d; simpl; try reflexivity; try exact IHd;
    apply (digits_of_uint_acc d).
Qed.

Lemma uint_all_digits (d : Decimal.uint) :
  Forall (fun c => isDigit c = true)
    (list_ascii_of_string (NilEmpty.string_of_uint d)).
Proof.
  induction d; simpl; constructor; try reflexivity; assumption.
Qed.

Lemma span_all {A : Type} (p : A -> bool) (l : list A) :
  Forall (fun x => p x = true) l -> span p l = (l, []).
Proof.
  induction 1 as [|x l Hx _ IH]; simpl; [reflexivity|].
  rewrite Hx, IH. reflexivity.
Qed.

(** [parseFloat] of a string of digits. *)
Lemma parseFloat_digits (c : ascii) (l : list ascii) :
  Forall (fun x => isDigit x = true) (c :: l) ->
  parseFloat (c :: l) = Some (toDouble (digitsValue (c :: l) # 1)).
Proof.
  intros Hall. assert (Hc : isDigit c = true) by (inversion Hall; assumption).
  unfold parseFloat.
  assert (Hsign : (match c :: l with
                   | "-"%char :: tl => (true, tl)
                   | _ => (false, c :: l)
                   end) = (false, c :: l)).
  { destruct c as [[] [] [] [] [] [] [] []]; try reflexivity;
      discriminate Hc. }
  rewrite Hsign, (span_all isDigit (c :: l) Hall).
  rewrite app_nil_r. reflexivity.
Qed.

Lemma parseFloat_minus_digits (c : ascii) (l : list ascii) :
  Forall (fun x => isDigit x = true) (c :: l) ->
  parseFloat ("-"%char :: c :: l)
  = Some (toDouble (- digitsValue (c :: l) # 1)).
Proof.
  intros Hall. unfold parseFloat.
  rewrite (span_all isDigit (c :: l) Hall).
  rewrite app_nil_r. reflexivity.
Qed.

Lemma parseFloat_decimal (z : Z) :
  parseFloat (list_ascii_of_string (decimal z))
  = Some (toDouble (inject_Z z)).
Proof.
  unfold decimal, inject_Z. destruct z as [|p|p]; simpl Z.to_int.
  - reflexivity.
  - unfold NilZero.string_of_int, NilZero.string_of_uint.
    pose proof (DecimalPos.Unsigned.to_uint_nonnil p) as Hnil.
    pose proof (uint_all_digits (Pos.to_uint p)) as Hall.
    pose proof (digits_of_uint (Pos.to_uint p)) as Hval.
    rewrite DecimalPos.Unsigned.of_to in Hval.
    destruct (Pos.to_uint p) eqn:E; try congruence;
      rewrite <- E in *;
      (destruct (list_ascii_of_string (NilEmpty.string_of_uint (Pos.to_uint p)))
         as [|c l] eqn:El; [rewrite E in El; discriminate El|]);
      rewrite (parseFloat_digits c l Hall); unfold digitsValue;
      fold digitStep; rewrite Hval; reflexivity.
  - unfold NilZero.string_of_int, NilZero.string_of_uint.
    pose proof (DecimalPos.Unsigned.to_uint_nonnil p) as Hnil.
    pose proof (uint_all_digits (Pos.to_uint p)) as Hall.
    pose proof (digits_of_uint (Pos.to_uint p)) as Hval.
    rewrite DecimalPos.Unsigned.of_to in Hval.
    destruct (Pos.to_uint p) eqn:E; try congruence;
      rewrite <- E in *; cbn [list_ascii_of_string];
      (destruct (list_ascii_of_string (NilEmpty.string_of_uint (Pos.to_uint p)))
         as [|c l] eqn:El; [rewrite E in El; discriminate El|]);
      rewrite (parseFloat_minus_digits c l Hall); unfold digitsValue;
      fold digitStep; rewrite Hval; reflexivity.
Qed.



(* ------------------------------------------------------------------ *)
(** ** Client identifiers *)

(** The body of [extractClientId]. *)
Lemma extractClientId_eq (rt : Runtime) (payload : JSON) :
  extractClientId payload
  = match firstPresent clientIdFields payload with
    | Some value =>
        match toString value with
        | Normal s => Normal (trim s)
        | Thrown e => Thrown e
        end
    | None =>
        match nested payload with
        | Some inner =>
            match extractClientId inner with
            | Normal nestedResult =>
                if String.eqb nestedResult "" then Thrown clientIdError
                else Normal nestedResult
            | Thrown e => Thrown e
            end
        | None => Thrown clientIdError
        end
    end.
Proof.
  destruct payload as [| b | q | s | items | fields]; try reflexivity.
  cbn [extractClientId].
  destruct (firstPresent clientIdFields (JObj fields)); [reflexivity|].
  unfold nested, nestedWith.
  rewrite (field_with_map (fun inner => if isObject inner
                                        then Some (extractClientId inner)
                                        else None)).
  rewrite (field_with_map (fun inner => if isObject inner then Some inner
                                        else None)).
  destruct (field_with (fun x => x) "payload" fields) as [v|]; simpl;
    [|reflexivity].
  destruct (isObject v); reflexivity.
Qed.

Lemma extractAmount_throws_amountError (payload : JSON) (e : string) :
  extractAmount payload = Thrown e -> e = amountError.
Proof.
  revert e. induction payload as [payload IH] using nested_ind. intros e.
  rewrite extractAmount_eq.
  destruct (scanAmount amountFields payload); [discriminate|].
  destruct (nested payload) as [inner|] eqn:E.
  - apply IH. reflexivity.
  - intros [= <-]. reflexivity.
Qed.

(** C6, where the code departs from it.  A client field at the top level
    whose value is blank (a string of white space, the empty string, or any
    other value that [String] and [trim] turn into the empty string) is
    taken: when the metric and the amount are extracted, normalization
    succeeds with the empty string as client identifier.  The same field
    in the nested payload object is refused by the test of [nestedResult],
    and normalization fails with the client error. *)
Theorem normalize_blank_clientId (rt : Runtime) (now : Z) (rawEvent v : JSON)
  (s : string) :
  toString v = Normal s -> trim s = "" ->
  (firstPresent clientIdFields rawEvent = Some v ->
   forall m a,
     extractMetric (payloadOf rawEvent) = Normal m ->
     extractAmount (payloadOf rawEvent) = Normal a ->
     exists n, normalize now rawEvent = NormSuccess n /\ clientId n = "")
  /\ (firstPresent clientIdFields rawEvent = None ->
      forall inner,
        nested rawEvent = Some inner ->
        firstPresent clientIdFields inner = Some v ->
        normalize now rawEvent = NormFailure clientIdError).
Proof.
  intros Hv Hs. split.
  - intros Hfirst m a Hm Ha.
    assert (Hc : extractClientId rawEvent = Normal "").
    { rewrite extractClientId_eq, Hfirst, Hv, Hs. reflexivity. }
    eexists. split.
    + unfold normalize. rewrite Hc, Hm, Ha.
      destruct rawEvent; try reflexivity. discriminate Hfirst.
    + reflexivity.
  - intros Hfirst inner Hnested Hinner.
    assert (Hc : extractClientId rawEvent = Thrown clientIdError).
    { rewrite extractClientId_eq, Hfirst, Hnested.
      rewrite extractClientId_eq, Hinner, Hv, Hs. reflexivity. }
    unfold normalize. rewrite Hc.
    destruct rawEvent; try reflexivity. discriminate Hnested.
Qed.

Lemma normalize_blank_clientId_witness :
  (exists n,
     @normalize Node.runtime 0
       (JObj [("source", JStr "  "); ("amount", JNum 5)])
     = NormSuccess n
     /\ clientId n = "")
  /\ @normalize Node.runtime 0
       (JObj [("payload", JObj [("source", JStr "  "); ("amount", JNum 5)])])
     = NormFailure clientIdError.
Proof.
  split.
  - apply (proj1 (normalize_blank_clientId Node.runtime 0
                    (JObj [("source", JStr "  "); ("amount", JNum 5)])
                    (JStr "  ") "  " eq_refl eq_refl)
             eq_refl "unknown" (Finite 5)); reflexivity.
  - apply (proj2 (normalize_blank_clientId Node.runtime 0
                    (JObj [("payload",
                            JObj [("source", JStr "  "); ("amount", JNum 5)])])
                    (JStr "  ") "  " eq_refl eq_refl)
             eq_refl (JObj [("source", JStr "  "); ("amount", JNum 5)]));
      reflexivity.
Defined.

(* ------------------------------------------------------------------ *)
(** ** Aggregation *)

Lemma filter_matches_processedOnly (q : MatchCriteria) (events : list Event) :
  mStatus q = Some processed ->
  filter (matches q) events = filter (matches q) (processedOnly events).
Proof.
  intros Hq. unfold processedOnly.
  induction events as [|e events IH]; simpl; [reflexivity|].
  destruct (Status_eqb (status (data e)) processed) eqn:Es; simpl.
  - rewrite IH. reflexivity.
  - assert (Hm : matches q e = false).
    { unfold matches, statusDiffers. rewrite Hq, Es. reflexivity. }
    rewrite Hm. exact IH.
Qed.

Lemma processedOnly_unprocessed (before after : list Event) (e : Event) :
  status (data e) <> processed ->
  processedOnly (before ++ e :: after) = processedOnly (before ++ after).
Proof.
  intros He. unfold processedOnly. rewrite !filter_app. simpl.
  destruct (status (data e)); simpl; try reflexivity. congruence.
Qed.

Lemma reader_ret {A : Type} (a : A) : processedOnlyReader (ret a).
Proof. intros w1 w2 H. split; [reflexivity | exact H]. Qed.

Lemma reader_bind {A B : Type} (m : M A) (k : A -> M B) :
  processedOnlyReader m -> (forall a, processedOnlyReader (k a)) ->
  processedOnlyReader (bind m k).
Proof.
  intros Hm Hk w1 w2 H. unfold bind.
  destruct (Hm w1 w2 H) as [Hv Hw].
  destruct (m w1) as [[a1|e1] w1'], (m w2) as [[a2|e2] w2'];
    simpl in Hv, Hw; try discriminate.
  - injection Hv as <-. apply Hk. exact Hw.
  - injection Hv as <-. split; [reflexivity | exact Hw].
Qed.

(** What [readEvents] returns is used only through a filter on processed
    events. *)
Lemma reader_readEvents {env : Env} {A : Type} (q : MatchCriteria)
  (f : list Event -> A) :
  mStatus q = Some processed ->
  processedOnlyReader
    (bind fileStorage.readEvents
       (fun events => ret (f (filter (matches q) events)))).
Proof.
  intros Hq w1 w2 [Hp Ht].
  cbv beta iota delta [bind fileStorage.readEvents consult getEventsFile ret].
  rewrite Ht. destruct (eventsReadOk (ticks w2)); simpl.
  - rewrite (filter_matches_processedOnly q (eventsFile w1) Hq).
    rewrite (filter_matches_processedOnly q (eventsFile w2) Hq).
    rewrite Hp. split; [reflexivity|]. split; simpl; [exact Hp | reflexivity].
  - split; [reflexivity|]. split; simpl; [exact Hp | reflexivity].
Qed.

Lemma reader_countDocuments {env : Env} (q : MatchCriteria) :
  mStatus q = Some processed ->
  processedOnlyReader (EventModel.countDocuments q).
Proof.
  intros Hq.
  exact (reader_readEvents q (fun l => Z.of_nat (List.length l)) Hq).
Qed.

Lemma reader_aggregateEvents {env : Env} (q : MatchCriteria) (groupBy : string) :
  mStatus q = Some processed ->
  processedOnlyReader (fileStorage.aggregateEvents q groupBy).
Proof.
  intros Hq.
  exact (reader_readEvents q
           (fun filtered =>
              let groups :=
                fold_left (fun gs e => addToGroup (groupKey groupBy e)
                                         (amount (canonical (data e))) gs)
                  filtered [] in
              let results := sortDescending (map (toResult groupBy) groups) in
              if String.eqb groupBy "none" then One (hd_error results)
              else Many results) Hq).
Qed.

Lemma reader_handler {rt : Runtime} {env : Env} (query : AggregationQuery) :
  processedOnlyReader (aggregationRoute.handler query).
Proof.
  unfold aggregationRoute.handler, EventModel.aggregate.
  cbn [find app].
  apply reader_bind.
  - apply reader_bind; [|intros a; apply reader_ret].
    apply reader_aggregateEvents. reflexivity.
  - intros results.
    repeat (apply reader_bind;
            [apply reader_countDocuments; reflexivity | intros ?]).
    apply reader_ret.
Qed.

(** C9. Whatever the filters and the grouping, the response of the
    aggregation endpoint (totals, counts, averages, minima, maxima and the
    statistics) is the same with and without a stored event whose status is
    rejected or failed: only processed events are aggregated. *)
Theorem aggregation_excludes_unprocessed (rt : Runtime) (env : Env)
  (query : AggregationQuery) (before after : list Event) (e : Event)
  (records : list Dedup.t) (t : nat) :
  status (data e) = rejected \/ status (data e) = failed ->
  fst (aggregationRoute.handler query (mkWorld (before ++ e :: after) records t))
  = fst (aggregationRoute.handler query (mkWorld (before ++ after) records t)).
Proof.
  intros He. apply reader_handler. split; simpl; [|reflexivity].
  apply processedOnly_unprocessed. destruct He as [He|He]; congruence.
Qed.

(* ------------------------------------------------------------------ *)
(** ** The ingestion pipeline *)

(** ** Running a computation *)

Lemma run_bind {A B : Type} (m : M A) (k : A -> M B) (w w' : World) (a : A) :
  m w = (Normal a, w') -> bind m k w = k a w'.
Proof. intros H. unfold bind. rewrite H. reflexivity. Qed.

Lemma run_bind_thrown {A B : Type} (m : M A) (k : A -> M B) (w w' : World)
  (e : string) :
  m w = (Thrown e, w') -> bind m k w = (Thrown e, w').
Proof. intros H. unfold bind. rewrite H. reflexivity. Qed.

Lemma run_try {A : Type} (m : M A) (h : string -> M A) (w w' : World) (a : A) :
  m w = (Normal a, w') -> tryCatch m h w = (Normal a, w').
Proof. intros H. unfold tryCatch. rewrite H. reflexivity. Qed.

Lemma run_catch {A : Type} (m : M A) (h : string -> M A) (w w' : World)
  (e : string) :
  m w = (Thrown e, w') -> tryCatch m h w = h e w'.
Proof. intros H. unfold tryCatch. rewrite H. reflexivity. Qed.

(** Runs the first operation of a sequence with the equation [lemma]. *)
Ltac step lemma :=
  erewrite run_bind; [| solve [eapply lemma; eassumption]];
  cbv beta; unfold later; cbn [eventsFile dedupFile ticks Nat.add].

Section Storage.
Context {env : Env}.
Variable w : World.

Lemma consult_run {A : Type} (oracle : nat -> A) :
  consult oracle w = (Normal (oracle (ticks w)), later 1 w).
Proof. reflexivity. Qed.

Lemma readEvents_run :
  readsOk env -> fileStorage.readEvents w = (Normal (eventsFile w), later 1 w).
Proof.
  intros Hr. unfold fileStorage.readEvents. step @consult_run.
  rewrite (proj1 (Hr _)). reflexivity.
Qed.

Lemma readDedupRecords_run :
  readsOk env ->
  fileStorage.readDedupRecords w = (Normal (dedupFile w), later 1 w).
Proof.
  intros Hr. unfold fileStorage.readDedupRecords. step @consult_run.
  rewrite (proj2 (Hr _)). reflexivity.
Qed.

Lemma writeEvents_run (events : list Event) :
  eventWritesOk env ->
  fileStorage.writeEvents events w
  = (Normal tt, mkWorld events (dedupFile w) (1 + ticks w)).
Proof.
  intros Hw. unfold fileStorage.writeEvents. step @consult_run.
  rewrite Hw. reflexivity.
Qed.

Lemma writeDedupRecords_run (records : list Dedup.t) :
  dedupWritesOk env ->
  fileStorage.writeDedupRecords records w
  = (Normal tt, mkWorld (eventsFile w) records (1 + ticks w)).
Proof.
  intros Hw. unfold fileStorage.writeDedupRecords. step @consult_run.
  rewrite Hw. reflexivity.
Qed.

Lemma writeDedupRecords_fails (records : list Dedup.t) :
  dedupWritesFail env ->
  fileStorage.writeDedupRecords records w = (Thrown writeError, later 1 w).
Proof.
  intros Hw. unfold fileStorage.writeDedupRecords. step @consult_run.
  rewrite Hw. reflexivity.
Qed.

Lemma new_run (fields : Canonical) (st : Status) (reason : option string)
  (payload : JSON) :
  EventModel.new fields (Some st) reason payload w
  = (Normal (mkEventData fields st reason payload (clock (ticks w)) 0),
     later 1 w).
Proof. reflexivity. Qed.

Lemma findById_run (id : nat) :
  readsOk env ->
  EventModel.findById id w
  = (Normal (find (hasId id) (eventsFile w)), later 1 w).
Proof.
  intros Hr. unfold EventModel.findById, fileStorage.findEventById.
  step readEvents_run. reflexivity.
Qed.

Lemma findOne_run (h : string) :
  readsOk env -> String.eqb h "" = false ->
  DeduplicationRecord.findOne h w
  = (Normal (find (sameHash h) (dedupFile w)), later 1 w).
Proof.
  intros Hr Hh.
  unfold DeduplicationRecord.findOne, fileStorage.findDedupRecord.
  rewrite Hh. step readDedupRecords_run. reflexivity.
Qed.

Lemma isDuplicate_run (h : string) :
  readsOk env -> String.eqb h "" = false ->
  deduplicationService.isDuplicate h w
  = (Normal (match find (sameHash h) (dedupFile w) with
             | Some _ => true
             | None => false
             end), later 1 w).
Proof.
  intros Hr Hh. unfold deduplicationService.isDuplicate.
  apply run_try. step findOne_run. reflexivity.
Qed.

Lemma getExistingEventId_run (h : string) :
  readsOk env -> String.eqb h "" = false ->
  deduplicationService.getExistingEventId h w
  = (Normal (option_map Dedup.eventId (find (sameHash h) (dedupFile w))),
     later 1 w).
Proof.
  intros Hr Hh. unfold deduplicationService.getExistingEventId.
  apply run_try. step findOne_run. reflexivity.
Qed.

End Storage.

Section Writes.
Context {env : Env}.
Variable w : World.
Hypothesis reads : readsOk env.

Lemma save_run (d : EventData) :
  eventWritesOk env ->
  EventModel.save d w
  = (Normal (saved w d),
     mkWorld (eventsFile w ++ [saved w d]) (dedupFile w) (5 + ticks w)).
Proof.
  intros Hw. unfold EventModel.save, fileStorage.createEvent.
  step @readEvents_run. do 3 step @consult_run.
  step @writeEvents_run. reflexivity.
Qed.

Lemma findByIdAndDelete_run (id : nat) :
  eventWritesOk env ->
  EventModel.findByIdAndDelete id w
  = (Normal tt,
     mkWorld (filter (fun e => negb (hasId id e)) (eventsFile w))
       (dedupFile w) (2 + ticks w)).
Proof.
  intros Hw.
  unfold EventModel.findByIdAndDelete, fileStorage.deleteEventById.
  erewrite run_bind; [reflexivity|].
  step @readEvents_run. step @writeEvents_run. reflexivity.
Qed.

Variables (h c : string) (id : nat).
Hypothesis nonempty : String.eqb h "" = false.

Lemma recordProcessedEvent_existing (r : Dedup.t) :
  find (sameHash h) (dedupFile w) = Some r ->
  deduplicationService.recordProcessedEvent h c id w
  = (Normal false, later 1 w).
Proof.
  intros Hsome. unfold deduplicationService.recordProcessedEvent.
  apply run_try. step @findOne_run. rewrite Hsome. reflexivity.
Qed.

Lemma upsertDedupRecord_fresh :
  dedupWritesOk env ->
  find (sameHash h) (dedupFile w) = None ->
  fileStorage.upsertDedupRecord h c id (later 2 w)
  = (Normal (recorded w h c id),
     mkWorld (eventsFile w) (dedupFile w ++ [recorded w h c id])
       (7 + ticks w)).
Proof.
  intros Hw Hnone. unfold fileStorage.upsertDedupRecord.
  step @readDedupRecords_run. fold (sameHash h). rewrite Hnone.
  do 3 step @consult_run. step @writeDedupRecords_run. reflexivity.
Qed.

Lemma recordProcessedEvent_fresh :
  dedupWritesOk env ->
  find (sameHash h) (dedupFile w) = None ->
  deduplicationService.recordProcessedEvent h c id w
  = (Normal true,
     mkWorld (eventsFile w) (dedupFile w ++ [recorded w h c id])
       (7 + ticks w)).
Proof.
  intros Hw Hnone. unfold deduplicationService.recordProcessedEvent.
  apply run_try. step @findOne_run. rewrite Hnone.
  step @consult_run. unfold DeduplicationRecord.findOneAndUpdate.
  rewrite nonempty.
  erewrite run_bind; [reflexivity|].
  erewrite run_bind; [reflexivity|].
  exact (upsertDedupRecord_fresh Hw Hnone).
Qed.

Lemma recordProcessedEvent_write_fails :
  dedupWritesFail env ->
  find (sameHash h) (dedupFile w) = None ->
  deduplicationService.recordProcessedEvent h c id w
  = (Normal false, later 7 w).
Proof.
  intros Hw Hnone. unfold deduplicationService.recordProcessedEvent.
  erewrite run_catch; [reflexivity|].
  step @findOne_run. rewrite Hnone.
  step @consult_run. unfold DeduplicationRecord.findOneAndUpdate.
  rewrite nonempty.
  apply run_bind_thrown. apply run_bind_thrown.
  unfold fileStorage.upsertDedupRecord.
  step @readDedupRecords_run. fold (sameHash h). rewrite Hnone.
  do 3 step @consult_run.
  apply run_bind_thrown. exact (writeDedupRecords_fails _ _ Hw).
Qed.

End Writes.

Lemma normalize_hash_nonempty (rt : Runtime) (now : Z) (rawEvent : JSON)
  (n : Canonical) :
  normalize now rawEvent = NormSuccess n ->
  String.eqb (eventHash n) "" = false.
Proof.
  unfold normalize. intros H.
  destruct rawEvent; try discriminate;
    destruct (extractClientId _); try discriminate;
    destruct (extractMetric _); try discriminate;
    destruct (extractAmount _); try discriminate;
    injection H as <-; apply hex_nonempty.
Qed.

Section Pipeline.
Context {rt : Runtime} {env : Env}.
Variables (rawEvent : JSON) (w : World).
Hypothesis reads : readsOk env.

Section Accepted.
Variable n : Canonical.
Hypothesis normalized : normalize (clock (ticks w)) rawEvent = NormSuccess n.

(** Step 2 finds the hash: the event the record points to is returned,
    nothing is written. *)
Lemma processEvent_duplicate (simulateFailure : bool) (r : Dedup.t) :
  find (sameHash (eventHash n)) (dedupFile w) = Some r ->
  eventProcessingService.processEvent rawEvent simulateFailure w
  = (Normal (mkResult true (find (hasId (Dedup.eventId r)) (eventsFile w))
               true None),
     later 4 w).
Proof.
  intros Hfound.
  pose proof (normalize_hash_nonempty rt _ _ _ normalized) as Hne.
  unfold eventProcessingService.processEvent.
  step @consult_run. rewrite normalized.
  step @isDuplicate_run. rewrite Hfound.
  step @getExistingEventId_run. rewrite Hfound. cbn [option_map].
  step @findById_run. reflexivity.
Qed.

(** Step 3 throws when the hash is not registered. *)
Lemma processEvent_simulated_failure :
  find (sameHash (eventHash n)) (dedupFile w) = None ->
  eventProcessingService.processEvent rawEvent true w
  = (Thrown simulatedFailure, later 2 w).
Proof.
  intros Hnone.
  pose proof (normalize_hash_nonempty rt _ _ _ normalized) as Hne.
  unfold eventProcessingService.processEvent.
  step @consult_run. rewrite normalized.
  step @isDuplicate_run. rewrite Hnone. reflexivity.
Qed.

(** Step 4 without fault: the event and its record are appended. *)
Lemma processEvent_fresh :
  eventWritesOk env -> dedupWritesOk env ->
  find (sameHash (eventHash n)) (dedupFile w) = None ->
  eventProcessingService.processEvent rawEvent false w
  = (Normal (mkResult true (Some (firstEvent w n rawEvent)) false None),
     mkWorld (eventsFile w ++ [firstEvent w n rawEvent])
       (dedupFile w
        ++ [recorded (later 8 w) (eventHash n) (clientId n)
              (_id (firstEvent w n rawEvent))])
       (15 + ticks w)).
Proof.
  intros Hew Hdw Hnone.
  pose proof (normalize_hash_nonempty rt _ _ _ normalized) as Hne.
  unfold eventProcessingService.processEvent.
  step @consult_run. rewrite normalized.
  step @isDuplicate_run. rewrite Hnone.
  unfold eventProcessingService.store. apply run_try.
  step @new_run. step @save_run.
  erewrite run_bind;
    [| apply recordProcessedEvent_fresh; [exact reads | exact Hne
                                          | exact Hdw | exact Hnone]].
  reflexivity.
Qed.

(** Step 4 when the record cannot be written: the event is written, then
    deleted, and returned as a success. *)
Lemma processEvent_lost_registration :
  eventWritesOk env -> dedupWritesFail env ->
  find (sameHash (eventHash n)) (dedupFile w) = None ->
  eventProcessingService.processEvent rawEvent false w
  = (Normal (mkResult true (Some (firstEvent w n rawEvent)) false None),
     mkWorld (filter (fun e => negb (hasId (_id (firstEvent w n rawEvent)) e))
                (eventsFile w ++ [firstEvent w n rawEvent]))
       (dedupFile w) (18 + ticks w)).
Proof.
  intros Hew Hdw Hnone.
  pose proof (normalize_hash_nonempty rt _ _ _ normalized) as Hne.
  unfold eventProcessingService.processEvent.
  step @consult_run. rewrite normalized.
  step @isDuplicate_run. rewrite Hnone.
  unfold eventProcessingService.store. apply run_try.
  step @new_run. step @save_run.
  erewrite run_bind;
    [| apply recordProcessedEvent_write_fails; [exact reads | exact Hne
                                                | exact Hdw | exact Hnone]].
  cbv beta iota delta [negb].
  erewrite run_bind; [| apply findByIdAndDelete_run; assumption].
  erewrite run_bind; [| apply getExistingEventId_run; assumption].
  cbn [dedupFile later]. rewrite Hnone. reflexivity.
Qed.

End Accepted.

(** Normalization fails: a rejected event with a synthetic hash is
    appended. *)
Lemma processEvent_rejected (simulateFailure : bool) (reason : string) :
  normalize (clock (ticks w)) rawEvent = NormFailure reason ->
  eventWritesOk env ->
  eventProcessingService.processEvent rawEvent simulateFailure w
  = (Normal (mkResult false (Some (rejectedEvent w rawEvent reason)) false
               (Some reason)),
     mkWorld (eventsFile w ++ [rejectedEvent w rawEvent reason]) (dedupFile w)
       (10 + ticks w)).
Proof.
  intros Hfail Hew.
  unfold eventProcessingService.processEvent.
  step @consult_run. rewrite Hfail.
  unfold eventProcessingService.reject. apply run_try.
  do 3 step @consult_run. step @new_run. step @save_run.
  reflexivity.
Qed.

End Pipeline.

Lemma faultFree_split (env : Env) :
  faultFree env -> readsOk env /\ eventWritesOk env /\ dedupWritesOk env.
Proof.
  intros H. split; [|split].
  - intros k. destruct (H k) as (?&?&?&?). split; assumption.
  - intros k. destruct (H k) as (?&?&?&?). assumption.
  - intros k. destruct (H k) as (?&?&?&?). assumption.
Qed.

Lemma find_after_delete (id : nat) (events : list Event) :
  find (hasId id) (filter (fun e => negb (hasId id e)) events) = None.
Proof.
  induction events as [|e events IH]; simpl; [reflexivity|].
  destruct (hasId id e) eqn:E; simpl; [exact IH|].
  rewrite E. exact IH.
Qed.

Lemma find_hasId (id : nat) (events : list Event) (e : Event) :
  find (hasId id) events = Some e -> _id e = id /\ In e events.
Proof.
  intros H. apply find_some in H. destruct H as [Hin H].
  split; [apply Nat.eqb_eq; exact H | exact Hin].
Qed.

(** C4. When the hash of the payload is registered, [processEvent] with the
    failure simulation on returns the event the record points to with
    [isDuplicate = true] and writes nothing; the simulated failure is thrown
    only when the duplicate check finds no record. *)
Theorem processEvent_idempotent_under_simulated_failure (rt : Runtime)
  (env : Env) (rawEvent : JSON) (w : World) (n : Canonical) :
  readsOk env ->
  normalize (clock (ticks w)) rawEvent = NormSuccess n ->
  (forall r, find (sameHash (eventHash n)) (dedupFile w) = Some r ->
     exists w',
       eventProcessingService.processEvent rawEvent true w
       = (Normal (mkResult true (find (hasId (Dedup.eventId r)) (eventsFile w))
                    true None), w')
       /\ eventsFile w' = eventsFile w /\ dedupFile w' = dedupFile w
       /\ (forall e, In e (eventsFile w) -> _id e = Dedup.eventId r ->
           exists e', find (hasId (Dedup.eventId r)) (eventsFile w) = Some e'
                      /\ _id e' = Dedup.eventId r))
  /\ (find (sameHash (eventHash n)) (dedupFile w) = None ->
      fst (eventProcessingService.processEvent rawEvent true w)
      = Thrown simulatedFailure).
Proof.
  intros Hr Hn. split.
  - intros r Hfound. exists (later 4 w).
    rewrite (processEvent_duplicate rawEvent w Hr n Hn true r Hfound).
    repeat split; try reflexivity.
    intros e Hin Hid.
    destruct (find (hasId (Dedup.eventId r)) (eventsFile w)) as [e'|] eqn:E.
    + exists e'. split; [reflexivity|]. apply (find_hasId _ _ _ E).
    + exfalso. apply (find_none _ _ E) in Hin. unfold hasId in Hin.
      apply Nat.eqb_neq in Hin. contradiction.
  - intros Hnone.
    rewrite (processEvent_simulated_failure rawEvent w Hr n Hn Hnone).
    reflexivity.
Qed.

(** C3, where the code departs from it.  With the failure simulation on, a
    payload that normalizes and whose hash is not registered makes
    [processEvents] throw: no result is returned, for this item or for any
    other, and the items after it are not processed. *)
Theorem processEvents_simulated_failure_aborts (rt : Runtime) (env : Env)
  (rawEvent : JSON) (rest : list JSON) (w : World) (n : Canonical) :
  readsOk env ->
  normalize (clock (ticks w)) rawEvent = NormSuccess n ->
  find (sameHash (eventHash n)) (dedupFile w) = None ->
  eventProcessingService.processEvents (rawEvent :: rest) true w
  = (Thrown simulatedFailure, later 2 w).
Proof.
  intros Hr Hn Hnone. cbn [eventProcessingService.processEvents].
  apply run_bind_thrown.
  exact (processEvent_simulated_failure rawEvent w Hr n Hn Hnone).
Qed.

(** C2, where the code departs from it.  When the registration reports
    [false] because the record could not be written and the lookup that
    follows finds no record, [processEvent] deletes the event it has just
    written and returns it with [success = true] and [isDuplicate = false]:
    the caller is told of a success for an event that is neither stored nor
    registered. *)
Theorem processEvent_lost_registration_reported_as_success (rt : Runtime)
  (env : Env) (rawEvent : JSON) (w : World) (n : Canonical) :
  readsOk env -> eventWritesOk env -> dedupWritesFail env ->
  normalize (clock (ticks w)) rawEvent = NormSuccess n ->
  find (sameHash (eventHash n)) (dedupFile w) = None ->
  exists e w',
    eventProcessingService.processEvent rawEvent false w
    = (Normal (mkResult true (Some e) false None), w')
    /\ find (hasId (_id e)) (eventsFile w') = None
    /\ find (sameHash (eventHash n)) (dedupFile w') = None.
Proof.
  intros Hr Hew Hdw Hn Hnone.
  eexists. eexists. split.
  - exact (processEvent_lost_registration rawEvent w Hr n Hn Hew Hdw Hnone).
  - split; [apply find_after_delete | exact Hnone].
Qed.

(* ------------------------------------------------------------------ *)
(** ** Idempotence *)

Lemma find_app_last {A : Type} (p : A -> bool) (l : list A) (x : A) :
  find p l = None -> p x = true -> find p (l ++ [x]) = Some x.
Proof.
  intros Hnone Hx. induction l as [|y l IH]; simpl in *.
  - rewrite Hx. reflexivity.
  - destruct (p y); [discriminate | apply IH; exact Hnone].
Qed.

Lemma find_app_hit {A : Type} (p : A -> bool) (l : list A) (x : A) :
  p x = true -> exists y, find p (l ++ [x]) = Some y /\ p y = true.
Proof.
  intros Hx. induction l as [|z l IH]; simpl.
  - rewrite Hx. exists x. auto.
  - destruct (p z) eqn:E; [exists z; auto | exact IH].
Qed.

Lemma processEvents_cons {rt : Runtime} {env : Env} (rawEvent : JSON)
  (rest : list JSON) (simulateFailure : bool) (w w1 w2 : World)
  (r : ProcessResult) (rs : list ProcessResult) :
  eventProcessingService.processEvent rawEvent simulateFailure w
  = (Normal r, w1) ->
  eventProcessingService.processEvents rest simulateFailure w1
  = (Normal rs, w2) ->
  eventProcessingService.processEvents (rawEvent :: rest) simulateFailure w
  = (Normal (r :: rs), w2).
Proof.
  intros H1 H2. cbn [eventProcessingService.processEvents].
  erewrite run_bind; [|exact H1]. erewrite run_bind; [|exact H2].
  reflexivity.
Qed.

Section Resubmission.
Context {rt : Runtime} {env : Env}.
Variables (rawEvent : JSON) (h : string).
Hypothesis reads : readsOk env.
Hypothesis pinned :
  forall now, exists n, normalize now rawEvent = NormSuccess n
                        /\ eventHash n = h.

(** Any number of submissions of a payload whose hash is registered are
    answered from the record; the two files stay as they are. *)
Lemma processEvents_duplicates (count : nat) :
  forall (events : list Event) (records : list Dedup.t) (t : nat) (r : Dedup.t),
    find (sameHash h) records = Some r ->
    eventProcessingService.processEvents (repeat rawEvent count) false
      (mkWorld events records t)
    = (Normal (repeat (mkResult true (find (hasId (Dedup.eventId r)) events)
                         true None) count),
       mkWorld events records (4 * count + t)).
Proof.
  induction count as [|count IH]; intros events records t r Hfound.
  - reflexivity.
  - cbn [repeat eventProcessingService.processEvents].
    destruct (pinned (clock t)) as (n & Hn & Hh).
    erewrite run_bind;
      [| apply (processEvent_duplicate rawEvent (mkWorld events records t)
                  reads n Hn false r); rewrite Hh; exact Hfound].
    unfold later. cbn [eventsFile dedupFile ticks].
    erewrite run_bind; [| apply (IH events records _ r Hfound)].
    replace (4 * S count + t)%nat with (4 * count + (4 + t))%nat by lia.
    reflexivity.
Qed.

End Resubmission.

(** C1, as the code has it.  Without storage fault and without failure
    simulation, for a payload that normalizes to one and the same hash
    whenever it is submitted, a hash that no record and no processed event
    carries yet: submitting the payload N+1 times in a row stores one
    processed event with this hash, the first submission returns it with
    [isDuplicate = false], each of the N others returns success with
    [isDuplicate = true] and an event of the same id, and nothing is written
    after the first submission. *)
Theorem processEvents_idempotent (rt : Runtime) (env : Env) (rawEvent : JSON)
  (h : string) (w : World) (count : nat) :
  faultFree env ->
  (forall now, exists n, normalize now rawEvent = NormSuccess n
                         /\ eventHash n = h) ->
  find (sameHash h) (dedupFile w) = None ->
  processedWith h (eventsFile w) = [] ->
  exists e rest w',
    eventProcessingService.processEvents (repeat rawEvent (S count)) false w
    = (Normal (mkResult true (Some e) false None :: rest), w')
    /\ status (data e) = processed
    /\ eventHash (canonical (data e)) = h
    /\ List.length rest = count
    /\ Forall (fun r => success r = true /\ isDuplicate r = true
                        /\ error r = None
                        /\ exists e', event r = Some e' /\ _id e' = _id e) rest
    /\ eventsFile w' = eventsFile w ++ [e]
    /\ processedWith h (eventsFile w') = [e].
Proof.
  intros Hff Hpinned Hnone Hfresh.
  destruct (faultFree_split env Hff) as (Hr & Hew & Hdw).
  destruct (Hpinned (clock (ticks w))) as (n & Hn & Hh).
  set (e := firstEvent w n rawEvent).
  set (rec := recorded (later 8 w) (eventHash n) (clientId n) (_id e)).
  assert (Hrec : find (sameHash h) (dedupFile w ++ [rec]) = Some rec).
  { apply find_app_last; [exact Hnone|]. unfold sameHash, rec, recorded.
    cbn [Dedup.eventHash]. rewrite Hh. apply String.eqb_refl. }
  destruct (find_app_hit (hasId (_id e)) (eventsFile w) e) as (e' & He' & Hid).
  { unfold hasId. apply Nat.eqb_refl. }
  exists e, (repeat (mkResult true (Some e') true None) count).
  eexists. split.
  - cbn [repeat eventProcessingService.processEvents].
    erewrite run_bind;
      [| apply (processEvent_fresh rawEvent w Hr n Hn Hew Hdw);
         rewrite Hh; exact Hnone].
    fold e. fold rec.
    erewrite run_bind;
      [| apply (processEvents_duplicates rawEvent h Hr Hpinned count _ _ _ rec
                  Hrec)].
    cbn [Dedup.eventId rec recorded]. rewrite He'. reflexivity.
  - cbn [eventsFile].
    assert (Hproc : processedWith h (eventsFile w ++ [e]) = [e]).
    { unfold processedWith in *. rewrite filter_app, Hfresh. simpl.
      rewrite Hh, String.eqb_refl. reflexivity. }
    repeat split; try reflexivity; try exact Hproc.
    + exact Hh.
    + apply repeat_length.
    + apply Forall_forall. intros r Hin. apply repeat_spec in Hin. subst r.
      repeat split. exists e'. split; [reflexivity|].
      apply Nat.eqb_eq. exact Hid.
Qed.

(** A payload with a timestamp that parses normalizes to the same fields
    whenever it is submitted. *)
Lemma normalize_pinned (rt : Runtime) (rawEvent : JSON) (t : Z) :
  scanTimestamp timestampFields (payloadOf rawEvent) = Some t ->
  forall now now', normalize now rawEvent = normalize now' rawEvent.
Proof.
  intros Hscan now now'. unfold normalize.
  assert (Hts : forall x, extractTimestamp x (payloadOf rawEvent) = t).
  { intros x. destruct (payloadOf rawEvent); cbn [extractTimestamp];
      rewrite Hscan; reflexivity. }
  rewrite (Hts now), (Hts now'). reflexivity.
Qed.

(* ------------------------------------------------------------------ *)
(** ** Rejected events *)





(* ------------------------------------------------------------------ *)
(** ** Collisions of the hash input *)

(** C10.  [generateEventHash] joins the four fields with ['|'] and does not
    escape it: the client ["a|b"] with the metric ["c"] and the client ["a"]
    with the metric ["b|c"] get the same hash for any amount and timestamp,
    and the pipeline answers the second event with the first one, as a
    duplicate. *)
Theorem generateEventHash_not_injective (rt : Runtime) (env : Env) (t : nat) :
  (forall amount timestamp,
     generateEventHash "a|b" "c" amount timestamp
     = generateEventHash "a" "b|c" amount timestamp)
  /\ ("a|b", "c") <> ("a", "b|c")
  /\ (faultFree env ->
      let first := JObj [("source", JStr "a|b"); ("metric", JStr "c");
                         ("amount", JNum 5); ("timestamp", JNum 1704067200)] in
      let second := JObj [("source", JStr "a"); ("metric", JStr "b|c");
                          ("amount", JNum 5); ("timestamp", JNum 1704067200)] in
      exists e w',
        eventProcessingService.processEvents [first; second] false
          (mkWorld [] [] t)
        = (Normal [mkResult true (Some e) false None;
                   mkResult true (Some e) true None], w')
        /\ clientId (canonical (data e)) = "a|b"
        /\ metric (canonical (data e)) = "c"
        /\ eventsFile w' = [e]).
Proof.
  split; [reflexivity|]. split; [discriminate|].
  intros Hff first second.
  destruct (faultFree_split env Hff) as (Hr & Hew & Hdw).
  set (w := mkWorld [] [] t).
  set (n1 := mkCanonical "a|b" "c" (Finite 5) 1704067200000
               (generateEventHash "a|b" "c" (Finite 5) 1704067200000)).
  set (n2 := mkCanonical "a" "b|c" (Finite 5) 1704067200000
               (generateEventHash "a" "b|c" (Finite 5) 1704067200000)).
  assert (H1 : forall now, normalize now first = NormSuccess n1)
    by (intros now; vm_compute; reflexivity).
  assert (H2 : forall now, normalize now second = NormSuccess n2)
    by (intros now; vm_compute; reflexivity).
  set (e := firstEvent w n1 first).
  exists e. eexists. split.
  - eapply processEvents_cons.
    + apply (processEvent_fresh first w Hr n1 (H1 _) Hew Hdw). reflexivity.
    + eapply processEvents_cons; [|reflexivity].
      rewrite (processEvent_duplicate second _ Hr n2 (H2 _) false
                 (recorded (later 8 w) (eventHash n1) (clientId n1) (_id e))).
      * cbn [eventsFile w app recorded Dedup.eventId find].
        fold e. unfold hasId. rewrite Nat.eqb_refl. reflexivity.
      * cbn [dedupFile w app find].
        change (eventHash n2) with (eventHash n1).
        unfold sameHash, recorded. cbn [Dedup.eventHash].
        rewrite String.eqb_refl. reflexivity.
  - repeat split.
Qed.

(* ------------------------------------------------------------------ *)
(** ** Batches *)

Lemma returns_ret {A : Type} (a : A) : returns (ret a).
Proof. intros w. exists a, w. reflexivity. Qed.

Lemma returns_bind {A B : Type} (m : M A) (k : A -> M B) :
  returns m -> (forall a, returns (k a)) -> returns (bind m k).
Proof.
  intros Hm Hk w. destruct (Hm w) as (a & w' & E).
  destruct (Hk a w') as (b & w'' & E'). exists b, w''.
  rewrite (run_bind m k w w' a E). exact E'.
Qed.

Lemma returns_try {A : Type} (m : M A) (h : string -> M A) :
  (forall e, returns (h e)) -> returns (tryCatch m h).
Proof.
  intros Hh w. unfold tryCatch. destruct (m w) as [[a|e] w'].
  - exists a, w'. reflexivity.
  - apply Hh.
Qed.

Lemma returns_consult {A : Type} (oracle : nat -> A) : returns (consult oracle).
Proof. intros w. eexists. eexists. reflexivity. Qed.

Section Returns.
Context {rt : Runtime} {env : Env}.

Lemma returns_readEvents : returns fileStorage.readEvents.
Proof.
  apply returns_bind; [apply returns_consult|]. intros [|].
  - intros w. eexists. eexists. reflexivity.
  - apply returns_ret.
Qed.

Lemma returns_findById (id : nat) : returns (EventModel.findById id).
Proof.
  apply returns_bind; [apply returns_readEvents|].
  intros a. apply returns_ret.
Qed.

Lemma returns_getExistingEventId (h : string) :
  returns (deduplicationService.getExistingEventId h).
Proof. apply returns_try. intros e. apply returns_ret. Qed.

Lemma returns_isDuplicate (h : string) :
  returns (deduplicationService.isDuplicate h).
Proof. apply returns_try. intros e. apply returns_ret. Qed.

Lemma returns_recover (n : Canonical) (payload : JSON) (message : string) :
  returns (eventProcessingService.recover n payload message).
Proof.
  unfold eventProcessingService.recover.
  apply returns_bind; [apply returns_getExistingEventId|].
  intros [id|].
  - apply returns_bind; [apply returns_findById|]. intros [e|].
    + apply returns_ret.
    + apply returns_try. intros e. apply returns_ret.
  - apply returns_try. intros e. apply returns_ret.
Qed.

(** Without failure simulation [processEvent] always returns a result. *)
Lemma returns_processEvent (rawEvent : JSON) :
  returns (eventProcessingService.processEvent rawEvent false).
Proof.
  unfold eventProcessingService.processEvent.
  apply returns_bind; [apply returns_consult|]. intros now.
  destruct (normalize now rawEvent) as [n|e].
  - assert (Hstore : returns (eventProcessingService.store n rawEvent)).
    { apply returns_try. apply returns_recover. }
    apply returns_bind; [apply returns_isDuplicate|]. intros [|].
    + apply returns_bind; [apply returns_getExistingEventId|]. intros [id|].
      * apply returns_bind; [apply returns_findById|].
        intros a. apply returns_ret.
      * exact Hstore.
    + exact Hstore.
  - apply returns_try. intros m. apply returns_ret.
Qed.

(** Without failure simulation a batch gives one result for each input,
    whatever faults the storage has. *)
Lemma processEvents_one_result_each (rawEvents : list JSON) (w : World) :
  exists results w',
    eventProcessingService.processEvents rawEvents false w
    = (Normal results, w')
    /\ List.length results = List.length rawEvents.
Proof.
  revert w. induction rawEvents as [|rawEvent rest IH]; intros w.
  - exists [], w. split; reflexivity.
  - destruct (returns_processEvent rawEvent w) as (r & w1 & E1).
    destruct (IH w1) as (rs & w2 & E2 & Hlen).
    exists (r :: rs), w2. split.
    + exact (processEvents_cons rawEvent rest false w w1 w2 r rs E1 E2).
    + simpl. rewrite Hlen. reflexivity.
Qed.

End Returns.

(* ------------------------------------------------------------------ *)
(** ** The properties on concrete inputs *)

Lemma calm_faultFree : faultFree Node.calm.
Proof. intros k. repeat split. Qed.

Lemma purchase_pinned :
  forall now, @normalize Node.runtime now Node.purchase
              = @normalize Node.runtime 0 Node.purchase.
Proof.
  intros now.
  apply (normalize_pinned Node.runtime Node.purchase 1704067200000).
  reflexivity.
Qed.

Lemma processEvents_idempotent_witness :
  exists e rest w',
    @eventProcessingService.processEvents Node.runtime Node.calm
      (repeat Node.purchase 3) false Node.emptyWorld
    = (Normal (mkResult true (Some e) false None :: rest), w')
    /\ List.length rest = 2%nat
    /\ processedWith
         "d78a2d9110eb7aeea2360146840d55a09b76afe6b524ad6405bd3760e5f6df24"
         (eventsFile w') = [e].
Proof.
  destruct (processEvents_idempotent Node.runtime Node.calm Node.purchase
              "d78a2d9110eb7aeea2360146840d55a09b76afe6b524ad6405bd3760e5f6df24"
              Node.emptyWorld 2)
    as (e & rest & w' & Hrun & _ & _ & Hlen & _ & _ & Hone).
  - exact calm_faultFree.
  - intros now. rewrite purchase_pinned. eexists.
    split; [vm_compute; reflexivity | reflexivity].
  - reflexivity.
  - reflexivity.
  - exists e, rest, w'. split; [exact Hrun|]. split; [exact Hlen | exact Hone].
Defined.

(** C1 as it is stated fails: a payload without timestamp normalizes
    successfully, to the time of each submission; submitted twice, a few
    seconds apart, it is stored twice as a processed event and the second
    submission is not reported as a duplicate. *)
Lemma processEvents_idempotent_counterexample :
  (exists n, @normalize Node.runtime 0 Node.undated = NormSuccess n)
  /\ exists r1 r2 w',
       @eventProcessingService.processEvents Node.runtime Node.calm
         [Node.undated; Node.undated] false Node.emptyWorld
       = (Normal [r1; r2], w')
       /\ success r2 = true /\ isDuplicate r2 = false
       /\ List.length (processedOnly (eventsFile w')) = 2%nat.
Proof.
  split; [eexists; reflexivity|].
  eexists. eexists. eexists.
  split; [vm_compute; reflexivity|]. repeat split.
Qed.

Lemma calm_readsOk : readsOk Node.calm.
Proof. intros k. split; reflexivity. Qed.

Lemma dedupDiskFull_readsOk : readsOk Node.dedupDiskFull.
Proof. intros k. split; reflexivity. Qed.

Lemma processEvent_lost_registration_reported_as_success_witness :
  exists e w',
    @eventProcessingService.processEvent Node.runtime Node.dedupDiskFull
      Node.purchase false Node.emptyWorld
    = (Normal (mkResult true (Some e) false None), w')
    /\ eventsFile w' = [] /\ dedupFile w' = [].
Proof.
  destruct (processEvent_lost_registration_reported_as_success Node.runtime
              Node.dedupDiskFull Node.purchase Node.emptyWorld
              (mkCanonical "client_A" "purchase" (Finite 1200) 1704067200000
                 "d78a2d9110eb7aeea2360146840d55a09b76afe6b524ad6405bd3760e5f6df24"))
    as (e & w' & Hrun & _ & _).
  - exact dedupDiskFull_readsOk.
  - intros k. reflexivity.
  - intros k. reflexivity.
  - vm_compute. reflexivity.
  - reflexivity.
  - exists e, w'. split; [exact Hrun|].
    assert (Hw : w' = snd (@eventProcessingService.processEvent Node.runtime
                             Node.dedupDiskFull Node.purchase false
                             Node.emptyWorld)) by (rewrite Hrun; reflexivity).
    rewrite Hw. split; vm_compute; reflexivity.
Defined.

(** The repair of a lost race, when the winner is found: the duplicate check
    of the second submission cannot read the records and lets it through; the
    registration then finds the record of the first, the event just written
    is deleted and the first event is returned as a duplicate. *)
Example processEvent_race_lost_repaired :
  exists e w',
    @eventProcessingService.processEvents Node.runtime Node.blindCheck
      [Node.purchase; Node.purchase] false Node.emptyWorld
    = (Normal [mkResult true (Some e) false None;
               mkResult true (Some e) true None], w')
    /\ eventsFile w' = [e].
Proof.
  eexists. eexists. split; vm_compute; reflexivity.
Qed.

Lemma processEvents_simulated_failure_aborts_witness :
  @eventProcessingService.processEvents Node.runtime Node.calm
    [Node.purchase; Node.undated] true Node.emptyWorld
  = (Thrown simulatedFailure, later 2 Node.emptyWorld).
Proof.
  apply (processEvents_simulated_failure_aborts Node.runtime Node.calm
           Node.purchase [Node.undated] Node.emptyWorld
           (mkCanonical "client_A" "purchase" (Finite 1200) 1704067200000
              "d78a2d9110eb7aeea2360146840d55a09b76afe6b524ad6405bd3760e5f6df24")).
  - exact calm_readsOk.
  - vm_compute. reflexivity.
  - reflexivity.
Defined.

Lemma processEvent_idempotent_under_simulated_failure_witness :
  exists e w',
    @eventProcessingService.processEvent Node.runtime Node.calm
      Node.purchase true Node.afterPurchase
    = (Normal (mkResult true (Some e) true None), w')
    /\ eventsFile Node.afterPurchase = [e]
    /\ eventsFile w' = eventsFile Node.afterPurchase.
Proof.
  destruct (proj1 (processEvent_idempotent_under_simulated_failure
                     Node.runtime Node.calm Node.purchase Node.afterPurchase
                     (mkCanonical "client_A" "purchase" (Finite 1200) 1704067200000
                        "d78a2d9110eb7aeea2360146840d55a09b76afe6b524ad6405bd3760e5f6df24")
                     calm_readsOk ltac:(vm_compute; reflexivity))
              (Dedup.mk
                 "d78a2d9110eb7aeea2360146840d55a09b76afe6b524ad6405bd3760e5f6df24"
                 "client_A" 4 1704067211000 1704067212000 1704067213000)
              ltac:(vm_compute; reflexivity))
    as (w' & Hrun & Hev & _).
  eexists. exists w'. split; [rewrite Hrun; vm_compute; reflexivity|].
  split; [vm_compute; reflexivity | exact Hev].
Defined.



Lemma aggregation_excludes_unprocessed_witness :
  fst (@aggregationRoute.handler Node.runtime Node.calm
         (mkQuery None None None None (Some "clientId"))
         (mkWorld (eventsFile Node.afterPurchase ++ Node.rejectedSample :: [])
            [] 0))
  = fst (@aggregationRoute.handler Node.runtime Node.calm
           (mkQuery None None None None (Some "clientId"))
           (mkWorld (eventsFile Node.afterPurchase ++ []) [] 0)).
Proof.
  apply (aggregation_excludes_unprocessed Node.runtime Node.calm).
  left. reflexivity.
Defined.

Lemma generateEventHash_not_injective_witness :
  exists e w',
    @eventProcessingService.processEvents Node.runtime Node.calm
      [JObj [("source", JStr "a|b"); ("metric", JStr "c");
             ("amount", JNum 5); ("timestamp", JNum 1704067200)];
       JObj [("source", JStr "a"); ("metric", JStr "b|c");
             ("amount", JNum 5); ("timestamp", JNum 1704067200)]]
      false (mkWorld [] [] 0)
    = (Normal [mkResult true (Some e) false None;
               mkResult true (Some e) true None], w')
    /\ clientId (canonical (data e)) = "a|b".
Proof.
  destruct (proj2 (proj2 (generateEventHash_not_injective Node.runtime
                            Node.calm 0)) calm_faultFree)
    as (e & w' & Hrun & Hc & _).
  exists e, w'. split; [exact Hrun | exact Hc].
Defined.

(* ================================================================== *)
(** * Further properties *)

(* ------------------------------------------------------------------ *)
(** ** Normalization: causes of rejection and field fallbacks *)

Lemma jsize_member (x : JSON) (items : list JSON) :
  In x items -> (jsize x <= list_sum (map jsize items))%nat.
Proof.
  induction items as [|y items IH]; simpl; [intros []|].
  intros [->|Hin]; [lia|]. specialize (IH Hin). lia.
Qed.

(** [String] throws nothing but the [TypeError] of an object that cannot be
    converted. *)
Lemma toString_throws (rt : Runtime) (v : JSON) (e : string) :
  toString v = Thrown e -> e = typeError.
Proof.
  remember (jsize v) as n eqn:Hn. revert v e Hn.
  induction n as [n IH] using lt_wf_ind. intros v e ->.
  destruct v as [| [|] | q | s | items | fields]; try discriminate.
  - assert (Hitems : forall x e', In x items ->
                       toString x = Thrown e' -> e' = typeError).
    { intros x e' Hin Hx.
      apply (IH (jsize x)) with (v := x); [|reflexivity|exact Hx].
      apply jsize_member in Hin. simpl. lia. }
    clear IH. cbn [toString].
    match goal with
    | |- match ?elements items with _ => _ end = _ -> _ =>
        assert (Hel : forall e', elements items = Thrown e' -> e' = typeError)
    end.
    { induction items as [|x tl IHl]; [discriminate|].
      intros e'.
      assert (Hx : forall e'', toString x = Thrown e'' -> e'' = typeError)
        by (intros e'' Hx; apply (Hitems x); [left; reflexivity|exact Hx]).
      assert (Htl := IHl (fun y e'' Hin => Hitems y e'' (or_intror Hin))).
      cbv beta iota.
      destruct x as [| b | q | s | items' | fields']; cbv beta iota;
        match goal with
        | |- context [toString ?y] =>
            destruct (toString y) as [sy|ey] eqn:Ey;
            [|intros [= <-]; exact (Hx ey eq_refl)]
        | _ => idtac
        end;
        match goal with
        | |- match ?t with _ => _ end = _ -> _ =>
            destruct t as [ss|et] eqn:Et;
            [discriminate|intros [= <-]; exact (Htl et eq_refl)]
        end. }
    match goal with
    | |- match ?t with _ => _ end = _ -> _ =>
        destruct t as [ss|et]; [discriminate|]
    end.
    intros [= <-]. exact (Hel et eq_refl).
  - cbn [toString]. destruct (field_with _ _ _); [|discriminate].
    intros [= <-]. reflexivity.
Qed.

(** The body of [extractMetric]. *)
Lemma extractMetric_eq (rt : Runtime) (payload : JSON) :
  extractMetric payload
  = match firstPresent metricFields payload with
    | Some value =>
        match toString value with
        | Normal s => Normal (trim s)
        | Thrown e => Thrown e
        end
    | None =>
        match nested payload with
        | Some inner =>
            match extractMetric inner with
            | Normal nestedResult =>
                if String.eqb nestedResult ""
                   || String.eqb nestedResult "unknown"
                then Normal "unknown" else Normal nestedResult
            | Thrown e => Thrown e
            end
        | None => Normal "unknown"
        end
    end.
Proof.
  destruct payload as [| b | q | s | items | fields]; try reflexivity.
  cbn [extractMetric].
  destruct (firstPresent metricFields (JObj fields)); [reflexivity|].
  unfold nested, nestedWith.
  rewrite (field_with_map (fun inner => if isObject inner
                                        then Some (extractMetric inner)
                                        else None)).
  rewrite (field_with_map (fun inner => if isObject inner then Some inner
                                        else None)).
  destruct (field_with (fun x => x) "payload" fields) as [v|]; simpl;
    [|reflexivity].
  destruct (isObject v); reflexivity.
Qed.

Lemma extractClientId_throws (rt : Runtime) (payload : JSON) (e : string) :
  extractClientId payload = Thrown e -> e = clientIdError \/ e = typeError.
Proof.
  revert e. induction payload as [payload IH] using nested_ind. intros e.
  rewrite extractClientId_eq.
  destruct (firstPresent clientIdFields payload) as [v|].
  - destruct (toString v) as [s|e'] eqn:Ev; [discriminate|].
    intros [= <-]. right. exact (toString_throws rt v e' Ev).
  - destruct (nested payload) as [inner|] eqn:E.
    + destruct (extractClientId inner) as [r|e'] eqn:Er.
      * destruct (String.eqb r ""); [|discriminate].
        intros [= <-]. left. reflexivity.
      * intros [= <-]. exact (IH inner eq_refl e' Er).
    + intros [= <-]. left. reflexivity.
Qed.

Lemma extractMetric_throws (rt : Runtime) (payload : JSON) (e : string) :
  extractMetric payload = Thrown e -> e = typeError.
Proof.
  revert e. induction payload as [payload IH] using nested_ind. intros e.
  rewrite extractMetric_eq.
  destruct (firstPresent metricFields payload) as [v|].
  - destruct (toString v) as [s|e'] eqn:Ev; [discriminate|].
    intros [= <-]. exact (toString_throws rt v e' Ev).
  - destruct (nested payload) as [inner|] eqn:E; [|discriminate].
    destruct (extractMetric inner) as [r|e'] eqn:Er.
    + destruct (String.eqb r "" || String.eqb r "unknown"); discriminate.
    + intros [= <-]. exact (IH inner eq_refl e' Er).
Qed.

(** X1. [normalize] rejects an event for four causes only, tried in this
    order: the event is [null]; no client identifier is found, or the
    conversion of its value to a string throws a [TypeError]; the conversion
    of the value of the metric throws a [TypeError]; no amount is found (in
    the payload object or the objects nested in it).  The error is the one
    of the first cause that applies, and the timestamp never causes a
    rejection. *)
Theorem normalize_rejection_causes (rt : Runtime) (now : Z) (rawEvent : JSON)
  (e : string) :
  normalize now rawEvent = NormFailure e ->
  (rawEvent = JNull /\ e = nullPayloadError)
  \/ (rawEvent <> JNull /\ extractClientId rawEvent = Thrown e
      /\ (e = clientIdError \/ e = typeError))
  \/ (rawEvent <> JNull /\ (exists c, extractClientId rawEvent = Normal c)
      /\ extractMetric (payloadOf rawEvent) = Thrown e /\ e = typeError)
  \/ (rawEvent <> JNull /\ (exists c, extractClientId rawEvent = Normal c)
      /\ (exists m, extractMetric (payloadOf rawEvent) = Normal m)
      /\ NoAmount (payloadOf rawEvent) /\ e = amountError).
Proof.
  intros H.
  destruct rawEvent as [| b | q | s | items | fields];
    [left; injection H as <-; split; reflexivity | | | | |];
    right; unfold normalize in H;
    (destruct (extractClientId _) as [c|e'] eqn:Ec;
     [ right;
       destruct (extractMetric _) as [m|e'] eqn:Em;
       [ right; destruct (extractAmount _) as [a|e'] eqn:Ea; [discriminate|];
         injection H as <-;
         pose proof (extractAmount_throws_amountError _ _ Ea) as ->;
         split; [discriminate|]; split; [exists c; reflexivity|];
         split; [exists m; reflexivity|];
         split; [apply extractAmount_throws_iff; exact Ea | reflexivity]
       | left; injection H as <-;
         split; [discriminate|]; split; [exists c; reflexivity|];
         split; [reflexivity | exact (extractMetric_throws rt _ _ Em)] ]
     | left; injection H as <-;
       split; [discriminate|]; split; [reflexivity|];
       exact (extractClientId_throws rt _ _ Ec) ]).
Qed.

Lemma normalize_rejection_causes_witness :
  @extractMetric Node.runtime
    (payloadOf (JObj [("source", JStr "a");
                      ("metric", JObj [("toString", JNum 1)]);
                      ("amount", JNum 5)]))
  = Thrown typeError.
Proof.
  destruct (normalize_rejection_causes Node.runtime 0
              (JObj [("source", JStr "a");
                     ("metric", JObj [("toString", JNum 1)]);
                     ("amount", JNum 5)])
              typeError eq_refl)
    as [[H _]|[(_ & H & _)|[(_ & _ & H & _)|(_ & _ & [m H] & _)]]].
  - discriminate H.
  - discriminate H.
  - exact H.
  - discriminate H.
Defined.

Lemma firstPresent_first (payload : JSON) (before : list string) (k : string)
  (after : list string) (v : JSON) :
  (forall k', In k' before -> present (get payload k') = None) ->
  present (get payload k) = Some v ->
  firstPresent (before ++ k :: after) payload = Some v.
Proof.
  intros Hbefore Hk. induction before as [|b before IH]; simpl.
  - rewrite Hk. reflexivity.
  - rewrite (Hbefore b) by (left; reflexivity).
    apply IH. intros k' Hin. apply Hbefore. right. exact Hin.
Qed.

(** X2. Each alternate name of the client identifier and of the metric is
    recognized when the names listed before it are absent (or [null]): when
    [String] converts its value to [s] the result is [s] trimmed, and when
    [String] throws (the value is an object with a [toString] property of
    its own, or an array that holds one) the extraction throws the same
    [TypeError]; when no name is present at the top level the nested payload
    object is used, an empty nested result counting as none and an error of
    the nested metric being passed on; a metric found nowhere is
    ["unknown"]. *)
Theorem client_and_metric_fallbacks (rt : Runtime) (payload : JSON) :
  (forall before k after v,
     clientIdFields = before ++ k :: after ->
     (forall k', In k' before -> present (get payload k') = None) ->
     present (get payload k) = Some v ->
     (forall s, toString v = Normal s ->
                extractClientId payload = Normal (trim s))
     /\ (forall e, toString v = Thrown e ->
                   e = typeError /\ extractClientId payload = Thrown e))
  /\ (forall before k after v,
        metricFields = before ++ k :: after ->
        (forall k', In k' before -> present (get payload k') = None) ->
        present (get payload k) = Some v ->
        (forall s, toString v = Normal s ->
                   extractMetric payload = Normal (trim s))
        /\ (forall e, toString v = Thrown e ->
                      e = typeError /\ extractMetric payload = Thrown e))
  /\ (forall inner c,
        firstPresent clientIdFields payload = None ->
        nested payload = Some inner ->
        extractClientId inner = Normal c -> c <> "" ->
        extractClientId payload = Normal c)
  /\ (forall inner,
        firstPresent metricFields payload = None ->
        nested payload = Some inner ->
        (forall m, extractMetric inner = Normal m ->
                   extractMetric payload
                   = Normal (if String.eqb m "" then "unknown" else m))
        /\ (forall e, extractMetric inner = Thrown e ->
                      extractMetric payload = Thrown e))
  /\ (firstPresent metricFields payload = None -> nested payload = None ->
      extractMetric payload = Normal "unknown").
Proof.
  split; [|split; [|split; [|split]]].
  - intros before k after v Hfields Hbefore Hk.
    rewrite extractClientId_eq, Hfields.
    rewrite (firstPresent_first payload before k after v Hbefore Hk).
    split.
    + intros s ->. reflexivity.
    + intros e He. split; [exact (toString_throws rt v e He)|].
      rewrite He. reflexivity.
  - intros before k after v Hfields Hbefore Hk.
    rewrite extractMetric_eq, Hfields.
    rewrite (firstPresent_first payload before k after v Hbefore Hk).
    split.
    + intros s ->. reflexivity.
    + intros e He. split; [exact (toString_throws rt v e He)|].
      rewrite He. reflexivity.
  - intros inner c Hnone Hnested Hc Hne.
    rewrite extractClientId_eq, Hnone, Hnested, Hc.
    apply String.eqb_neq in Hne. rewrite Hne. reflexivity.
  - intros inner Hnone Hnested.
    rewrite (extractMetric_eq rt payload), Hnone, Hnested. split.
    + intros m ->.
      destruct (String.eqb m "") eqn:E1; [reflexivity|].
      destruct (String.eqb m "unknown") eqn:E2; [|reflexivity].
      apply String.eqb_eq in E2. rewrite E2. reflexivity.
    + intros e ->. reflexivity.
  - intros Hnone Hnested. rewrite extractMetric_eq, Hnone, Hnested.
    reflexivity.
Qed.

Lemma client_and_metric_fallbacks_witness :
  @extractMetric Node.runtime
    (JObj [("metric", JNull); ("eventType", JStr " signup ")])
  = Normal "signup"
  /\ @extractMetric Node.runtime
       (JObj [("metric", JNull);
              ("eventType", JArr [JNum 1; JObj [("toString", JNull)]])])
     = Thrown typeError.
Proof.
  split.
  - refine (proj1 (proj1 (proj2 (client_and_metric_fallbacks Node.runtime
              (JObj [("metric", JNull); ("eventType", JStr " signup ")])))
              ["metric"; "event_type"; "type"] "eventType" ["name"]
              (JStr " signup ") eq_refl _ eq_refl) " signup " eq_refl).
    intros k' [<-|[<-|[<-|[]]]]; reflexivity.
  - refine (proj2 (proj2 (proj1 (proj2 (client_and_metric_fallbacks
              Node.runtime
              (JObj [("metric", JNull);
                     ("eventType",
                      JArr [JNum 1; JObj [("toString", JNull)]])])))
              ["metric"; "event_type"; "type"] "eventType" ["name"]
              (JArr [JNum 1; JObj [("toString", JNull)]]) eq_refl _ eq_refl)
              typeError eq_refl)).
    intros k' [<-|[<-|[<-|[]]]]; reflexivity.
Defined.

(* ------------------------------------------------------------------ *)
(** ** Normalization: timestamps *)

Lemma scanTimestamp_first (rt : Runtime) (payload : JSON)
  (before : list string) (k : string) (after : list string) (t : Z) :
  (forall k', In k' before -> fieldTimestamp payload k' = None) ->
  fieldTimestamp payload k = Some t ->
  scanTimestamp (before ++ k :: after) payload = Some t.
Proof.
  unfold fieldTimestamp. intros Hbefore Hk.
  induction before as [|b before IH]; simpl.
  - destruct (present (get payload k)) as [v|]; [|discriminate].
    destruct (parseDate v) as [[t'|]|]; try discriminate.
    exact Hk.
  - assert (Hb := Hbefore b (or_introl eq_refl)).
    assert (IH' := IH (fun k' Hin => Hbefore k' (or_intror Hin))).
    destruct (present (get payload b)) as [v|]; [|exact IH'].
    destruct (parseDate v) as [[t'|]|]; try discriminate; exact IH'.
Qed.

(** The body of [extractTimestamp]. *)
Lemma extractTimestamp_eq (rt : Runtime) (now : Z) (payload : JSON) :
  extractTimestamp now payload
  = match scanTimestamp timestampFields payload with
    | Some t => t
    | None => match nested payload with
              | Some inner => extractTimestamp now inner
              | None => now
              end
    end.
Proof.
  destruct payload as [| b | q | s | items | fields]; try reflexivity.
  cbn [extractTimestamp].
  destruct (scanTimestamp timestampFields (JObj fields)); [reflexivity|].
  unfold nested, nestedWith.
  rewrite (field_with_map (fun inner => if isObject inner
                                        then Some (extractTimestamp now inner)
                                        else None)).
  rewrite (field_with_map (fun inner => if isObject inner then Some inner
                                        else None)).
  destruct (field_with (fun x => x) "payload" fields) as [v|]; simpl;
    [|reflexivity].
  destruct (isObject v); reflexivity.
Qed.

(** X3. The timestamp is that of the first field, in the order timestamp,
    time, date, created_at, createdAt, ts, whose value parses to a valid
    date: fields that are absent, [null] or unparsable are passed over.  For
    every payload the timestamp either does not depend on the time of the
    call at all, or is the time of the call. *)
Theorem timestamp_resolution (rt : Runtime) (payload : JSON) :
  (forall now before k after t,
     timestampFields = before ++ k :: after ->
     (forall k', In k' before -> fieldTimestamp payload k' = None) ->
     fieldTimestamp payload k = Some t ->
     extractTimestamp now payload = t)
  /\ ((exists t, forall now, extractTimestamp now payload = t)
      \/ (forall now, extractTimestamp now payload = now)).
Proof.
  split.
  - intros now before k after t Hfields Hbefore Hk.
    rewrite extractTimestamp_eq, Hfields.
    rewrite (scanTimestamp_first rt payload before k after t Hbefore Hk).
    reflexivity.
  - induction payload as [payload IH] using nested_ind.
    destruct (scanTimestamp timestampFields payload) as [t|] eqn:Escan.
    + left. exists t. intros now. rewrite extractTimestamp_eq, Escan.
      reflexivity.
    + destruct (nested payload) as [inner|] eqn:Enested.
      * destruct (IH inner eq_refl) as [[t Ht]|Hnow].
        -- left. exists t. intros now.
           rewrite extractTimestamp_eq, Escan, Enested. apply Ht.
        -- right. intros now.
           rewrite extractTimestamp_eq, Escan, Enested. apply Hnow.
      * right. intros now. rewrite extractTimestamp_eq, Escan, Enested.
        reflexivity.
Qed.

Lemma timestamp_resolution_witness :
  @extractTimestamp Node.runtime 0
    (JObj [("timestamp", JStr "soon"); ("ts", JNum 1704067200)])
  = 1704067200000.
Proof.
  apply (proj1 (timestamp_resolution Node.runtime
           (JObj [("timestamp", JStr "soon"); ("ts", JNum 1704067200)]))
           0 ["timestamp"; "time"; "date"; "created_at"; "createdAt"] "ts" []).
  - reflexivity.
  - intros k' [<-|[<-|[<-|[<-|[<-|[]]]]]]; reflexivity.
  - reflexivity.
Defined.

(* ------------------------------------------------------------------ *)
(** ** Normalization: amounts written in decimal *)

(** X4. An amount given as a string in which the characters that are
    digits, ['.'] or ['-'] spell the decimal notation of an integer (the
    string may hold currency symbols, separators and spaces as well) is the
    double nearest to that integer, negative ones included: the integer
    itself up to 2^53 in absolute value, a neighbour beyond
    (["9007199254740993"] is 9007199254740992), and an infinity when the
    integer exceeds the range of the doubles. *)
Theorem amount_of_decimal_string (s : string) (z : Z) :
  keepNumeric (list_ascii_of_string s) = list_ascii_of_string (decimal z) ->
  amountOfValue (JStr s) = Some (toDouble (inject_Z z))
  /\ (Z.abs z <= 2 ^ 53 ->
      amountOfValue (JStr s) = Some (Finite (inject_Z z))).
Proof.
  intros H.
  assert (Hs : amountOfValue (JStr s) = Some (toDouble (inject_Z z))).
  { cbn [amountOfValue]. rewrite H. apply parseFloat_decimal. }
  split; [exact Hs|].
  intros Hz. rewrite Hs, (toDouble_integer z Hz). reflexivity.
Qed.

Lemma amount_of_decimal_string_witness :
  amountOfValue (JStr "USD -1,200 ") = Some (Finite (inject_Z (-1200)))
  /\ amountOfValue (JStr "9007199254740993")
     = Some (Finite (inject_Z 9007199254740992))
  /\ amountOfValue (JStr (String.concat "" (repeat "9" 400)))
     = Some (Infinity false).
Proof.
  split; [|split].
  - apply (proj2 (amount_of_decimal_string "USD -1,200 " (-1200) eq_refl)).
    vm_compute. discriminate.
  - rewrite (proj1 (amount_of_decimal_string "9007199254740993"
                      9007199254740993 eq_refl)).
    vm_compute. reflexivity.
  - rewrite (proj1 (amount_of_decimal_string
                      (String.concat "" (repeat "9" 400)) (10 ^ 400 - 1)
                      ltac:(vm_compute; reflexivity))).
    vm_compute. reflexivity.
Defined.

(* ------------------------------------------------------------------ *)
(** ** Normalization: shapes of the raw event *)

Lemma extractMetric_skip_source (rt : Runtime) (c : JSON)
  (fs : list (string * JSON)) :
  extractMetric (JObj (("source", c) :: fs)) = extractMetric (JObj fs).
Proof. rewrite !extractMetric_eq. reflexivity. Qed.

Lemma extractAmount_skip_source (c : JSON) (fs : list (string * JSON)) :
  extractAmount (JObj (("source", c) :: fs)) = extractAmount (JObj fs).
Proof. rewrite !extractAmount_eq. reflexivity. Qed.

Lemma extractTimestamp_skip_source (rt : Runtime) (now : Z) (c : JSON)
  (fs : list (string * JSON)) :
  extractTimestamp now (JObj (("source", c) :: fs))
  = extractTimestamp now (JObj fs).
Proof. rewrite !extractTimestamp_eq. reflexivity. Qed.

(** X5. An event given flat, with its source beside the other fields, and
    the same event given with these fields under [payload] normalize to the
    same result, hence to the same hash: the two shapes are one logical
    event.  (The flat shape must have no [payload] property of its own.) *)
Theorem flat_and_nested_shapes_agree (rt : Runtime) (now : Z) (c : JSON)
  (fs : list (string * JSON)) :
  c <> JNull ->
  get (JObj fs) "payload" = None ->
  normalize now (JObj (("source", c) :: fs))
  = normalize now (JObj [("source", c); ("payload", JObj fs)]).
Proof.
  intros Hc Hpayload. unfold normalize.
  assert (Hflat : payloadOf (JObj (("source", c) :: fs))
                  = JObj (("source", c) :: fs)).
  { unfold payloadOf.
    change (get (JObj (("source", c) :: fs)) "payload")
      with (get (JObj fs) "payload").
    rewrite Hpayload. reflexivity. }
  assert (Hnested : payloadOf (JObj [("source", c); ("payload", JObj fs)])
                    = JObj fs) by reflexivity.
  rewrite Hflat, Hnested.
  rewrite extractMetric_skip_source, extractAmount_skip_source,
    extractTimestamp_skip_source.
  assert (Hclient : forall rest,
            extractClientId (JObj (("source", c) :: rest))
            = match toString c with
              | Normal s => Normal (trim s)
              | Thrown e => Thrown e
              end).
  { intros rest. rewrite extractClientId_eq.
    destruct c; try reflexivity. congruence. }
  rewrite !Hclient. reflexivity.
Qed.

Lemma flat_and_nested_shapes_agree_witness :
  @normalize Node.runtime 0
    (JObj [("source", JStr "client_A"); ("metric", JStr "purchase");
           ("amount", JStr "1200"); ("timestamp", JStr "2024/01/01")])
  = @normalize Node.runtime 0 Node.purchase.
Proof.
  apply (flat_and_nested_shapes_agree Node.runtime 0 (JStr "client_A")
           [("metric", JStr "purchase"); ("amount", JStr "1200");
            ("timestamp", JStr "2024/01/01")]).
  - discriminate.
  - reflexivity.
Defined.

Lemma NoAmount_primitive (p : JSON) : isObject p = false -> NoAmount p.
Proof.
  intros H. constructor.
  - intros k _. destruct p; try reflexivity; discriminate H.
  - intros inner Hinner. destruct p; try discriminate Hinner; discriminate H.
Qed.

(** X6. When the raw event has a truthy [payload] property, the metric, the
    amount and the timestamp are looked for in it alone: amount fields at
    the top level are not consulted, and the event is rejected when the
    payload holds no amount.  The error is the one of the amount when the
    client identifier and the metric are extracted without error; when the
    conversion of the metric of the payload to a string throws, the error is
    that [TypeError].  In particular a payload that is a string, a number or
    [true] makes every event be rejected. *)
Theorem truthy_payload_shadows_top_level (rt : Runtime) (now : Z)
  (rawEvent p : JSON) :
  get rawEvent "payload" = Some p -> truthy p = true ->
  (NoAmount p \/ isObject p = false) ->
  (forall n, normalize now rawEvent <> NormSuccess n)
  /\ (forall c m, extractClientId rawEvent = Normal c ->
      extractMetric p = Normal m ->
      normalize now rawEvent = NormFailure amountError)
  /\ (forall c e, extractClientId rawEvent = Normal c ->
      extractMetric p = Thrown e ->
      e = typeError /\ normalize now rawEvent = NormFailure typeError).
Proof.
  intros Hget Htruthy Hno.
  assert (HnoA : NoAmount p).
  { destruct Hno as [H|H]; [exact H | apply NoAmount_primitive; exact H]. }
  apply extractAmount_throws_iff in HnoA.
  assert (Hp : payloadOf rawEvent = p).
  { unfold payloadOf. rewrite Hget, Htruthy. reflexivity. }
  assert (Hobj : rawEvent <> JNull) by (intros ->; discriminate Hget).
  split; [|split].
  - intros n. unfold normalize. rewrite Hp, HnoA.
    destruct rawEvent; try discriminate;
      destruct (extractClientId _); try discriminate;
      destruct (extractMetric p); discriminate.
  - intros c m Hc Hm. unfold normalize. rewrite Hp, HnoA, Hc, Hm.
    destruct rawEvent; try reflexivity. congruence.
  - intros c e Hc Hm. pose proof (extractMetric_throws rt p e Hm) as ->.
    split; [reflexivity|].
    unfold normalize. rewrite Hp, Hc, Hm.
    destruct rawEvent; try reflexivity. congruence.
Qed.

Lemma truthy_payload_shadows_top_level_witness :
  @normalize Node.runtime 0
    (JObj [("source", JStr "client_A"); ("amount", JNum 5);
           ("payload", JStr "see attachment")])
  = NormFailure amountError
  /\ @normalize Node.runtime 0
       (JObj [("source", JStr "a");
              ("payload", JObj [("metric", JObj [("toString", JNum 1)])])])
     = NormFailure typeError.
Proof.
  split.
  - apply (proj1 (proj2 (truthy_payload_shadows_top_level Node.runtime 0
                    (JObj [("source", JStr "client_A"); ("amount", JNum 5);
                           ("payload", JStr "see attachment")])
                    (JStr "see attachment") eq_refl eq_refl
                    (or_intror eq_refl))) "client_A" "unknown");
      reflexivity.
  - refine (proj2 (proj2 (proj2 (truthy_payload_shadows_top_level
                    Node.runtime 0
                    (JObj [("source", JStr "a");
                           ("payload",
                            JObj [("metric", JObj [("toString", JNum 1)])])])
                    (JObj [("metric", JObj [("toString", JNum 1)])])
                    eq_refl eq_refl (or_introl _))) "a" typeError
                    eq_refl eq_refl)).
    apply extractAmount_throws_iff. reflexivity.
Defined.

(* ------------------------------------------------------------------ *)
(** ** Aggregation: groups *)

Lemma existsb_eqb_In (k : string) (l : list string) :
  existsb (String.eqb k) l = true <-> In k l.
Proof.
  rewrite existsb_exists. split.
  - intros (x & Hin & Heq). apply String.eqb_eq in Heq. subst. exact Hin.
  - intros Hin. exists k. split; [exact Hin | apply String.eqb_refl].
Qed.

Lemma firstOccurrences_snoc (l : list string) (k : string) :
  firstOccurrences (l ++ [k])
  = if existsb (String.eqb k) (firstOccurrences l) then firstOccurrences l
    else firstOccurrences l ++ [k].
Proof. unfold firstOccurrences. rewrite fold_left_app. reflexivity. Qed.

Lemma firstOccurrences_spec (l : list string) :
  NoDup (firstOccurrences l) /\ forall k, In k (firstOccurrences l) <-> In k l.
Proof.
  induction l as [|k l [IHn IHi]] using rev_ind.
  - split; [constructor | intros k; reflexivity].
  - rewrite firstOccurrences_snoc.
    destruct (existsb (String.eqb k) (firstOccurrences l)) eqn:E.
    + apply existsb_eqb_In in E. split; [exact IHn|].
      intros k'. rewrite in_app_iff, IHi. simpl. split; [auto|].
      intros [H|[<-|[]]]; [exact H | apply IHi; exact E].
    + assert (Hnot : ~ In k (firstOccurrences l)).
      { intros H. apply existsb_eqb_In in H. congruence. }
      split.
      * apply NoDup_app; [exact IHn | repeat constructor; intros [] | ].
        intros x Hx [<-|[]]. contradiction.
      * intros k'. rewrite !in_app_iff, IHi. reflexivity.
Qed.

Lemma addToGroup_present (k : string) (x : Number) (ks : list string)
  (G G' : string -> GroupData) :
  NoDup ks -> In k ks ->
  G' k = mkGroupData (addStored (gTotalAmount (G k)) x) (gTotalCount (G k) + 1)
           (gAmounts (G k) ++ [x]) ->
  (forall k', k' <> k -> G' k' = G k') ->
  addToGroup k x (map (fun k' => (k', G k')) ks) = map (fun k' => (k', G' k')) ks.
Proof.
  intros Hnd Hin Hk Hother. induction ks as [|a ks IH]; [contradiction|].
  inversion Hnd as [|? ? Hna Hnd']; subst. simpl.
  destruct (String.eqb_spec a k) as [->|Hne].
  - rewrite Hk. f_equal. apply map_ext_in. intros k' Hin'.
    rewrite Hother; [reflexivity|]. intros ->. contradiction.
  - rewrite (Hother a Hne). f_equal. apply IH; [exact Hnd'|].
    destruct Hin as [->|Hin]; [contradiction | exact Hin].
Qed.

Lemma addToGroup_absent (k : string) (x : Number) (ks : list string)
  (G G' : string -> GroupData) :
  ~ In k ks ->
  G' k = mkGroupData (addStored (Finite 0) x) (0 + 1) [x] ->
  (forall k', k' <> k -> G' k' = G k') ->
  addToGroup k x (map (fun k' => (k', G k')) ks)
  = map (fun k' => (k', G' k')) (ks ++ [k]).
Proof.
  intros Hnin Hk Hother. induction ks as [|a ks IH]; simpl.
  - rewrite Hk. reflexivity.
  - destruct (String.eqb_spec a k) as [->|Hne].
    + exfalso. apply Hnin. left. reflexivity.
    + rewrite (Hother a Hne). f_equal. apply IH.
      intros H. apply Hnin. right. exact H.
Qed.

Lemma members_snoc (groupBy k : string) (l : list Event) (e : Event) :
  members groupBy k (l ++ [e])
  = members groupBy k l
    ++ (if String.eqb (groupKey groupBy e) k then [e] else []).
Proof. unfold members. rewrite filter_app. reflexivity. Qed.

Lemma members_nil_of_absent (groupBy k : string) (l : list Event) :
  ~ In k (map (groupKey groupBy) l) -> members groupBy k l = [].
Proof.
  intros H. unfold members. induction l as [|e l IH]; [reflexivity|].
  simpl. destruct (String.eqb_spec (groupKey groupBy e) k) as [Heq|Hne].
  - exfalso. apply H. left. exact Heq.
  - apply IH. intros Hin. apply H. right. exact Hin.
Qed.

(** The groups are the distinct keys of the events, in the order in which
    they first occur, each with the sum, the count and the list of the
    amounts of its members. *)
Lemma groupsOf_spec (groupBy : string) (l : list Event) :
  groupsOf groupBy l
  = map (fun k => (k, summarize (amountsOf (members groupBy k l))))
      (firstOccurrences (map (groupKey groupBy) l)).
Proof.
  induction l as [|e l IH] using rev_ind; [reflexivity|].
  unfold groupsOf in *. rewrite fold_left_app. cbn [fold_left].
  rewrite IH, map_app. cbn [map]. rewrite firstOccurrences_snoc.
  destruct (firstOccurrences_spec (map (groupKey groupBy) l)) as [Hnd Hin].
  set (k := groupKey groupBy e). set (x := amount (canonical (data e))).
  assert (Hother : forall k', k' <> k ->
            summarize (amountsOf (members groupBy k' (l ++ [e])))
            = summarize (amountsOf (members groupBy k' l))).
  { intros k' Hne. rewrite members_snoc. fold k.
    destruct (String.eqb_spec k k'); [congruence|].
    rewrite app_nil_r. reflexivity. }
  assert (Hk : members groupBy k (l ++ [e]) = members groupBy k l ++ [e]).
  { rewrite members_snoc. fold k. rewrite String.eqb_refl. reflexivity. }
  destruct (existsb (String.eqb k) _) eqn:E.
  - apply existsb_eqb_In in E.
    apply (addToGroup_present k x _
             (fun k' => summarize (amountsOf (members groupBy k' l)))
             (fun k' => summarize (amountsOf (members groupBy k' (l ++ [e])))));
      try assumption.
    rewrite Hk. unfold summarize, runningSum, amountsOf.
    cbn [gTotalAmount gTotalCount gAmounts].
    rewrite map_app, fold_left_app, length_app. cbn [map fold_left List.length].
    f_equal. lia.
  - assert (Hnot : ~ In k (map (groupKey groupBy) l)).
    { intros H. apply Hin in H. apply existsb_eqb_In in H. congruence. }
    apply (addToGroup_absent k x _
             (fun k' => summarize (amountsOf (members groupBy k' l)))
             (fun k' => summarize (amountsOf (members groupBy k' (l ++ [e])))));
      try assumption.
    + intros H. apply Hnot. apply Hin. exact H.
    + rewrite Hk, (members_nil_of_absent groupBy k l Hnot). reflexivity.
Qed.

(* ------------------------------------------------------------------ *)
(** ** Aggregation: the two sorts *)

Lemma Qltb_false (a b : Q) : Qltb a b = false -> (b <= a)%Q.
Proof.
  unfold Qltb. intros H. apply negb_false_iff in H.
  apply Qle_bool_iff. exact H.
Qed.

Lemma Qltb_true (a b : Q) : Qltb a b = true -> (a <= b)%Q.
Proof.
  unfold Qltb. intros H. apply negb_true_iff in H.
  apply Qlt_le_weak. apply Qnot_le_lt. intros Hle.
  apply Qle_bool_iff in Hle. congruence.
Qed.

Lemma Qltb_false_of_le (a b : Q) : (b <= a)%Q -> Qltb a b = false.
Proof.
  intros H. unfold Qltb. apply negb_false_iff. apply Qle_bool_iff. exact H.
Qed.

Lemma Qltb_asym (a b : Q) : Qltb a b = true -> Qltb b a = false.
Proof. intros H. apply Qltb_false_of_le. apply Qltb_true. exact H. Qed.

(** The order of the numbers is asymmetric... *)
Lemma numberLtb_asym (a b : Number) :
  numberLtb a b = true -> numberLtb b a = false.
Proof.
  destruct a as [x|[|]], b as [y|[|]]; simpl; try congruence.
  apply Qltb_asym.
Qed.

(** ... and its complement is transitive. *)
Lemma numberLtb_false_trans (a b c : Number) :
  numberLtb a b = false -> numberLtb b c = false -> numberLtb a c = false.
Proof.
  destruct a as [x|[|]], b as [y|[|]], c as [z|[|]]; simpl; try congruence.
  intros Hab Hbc. apply Qltb_false_of_le.
  apply Qle_trans with y; apply Qltb_false; assumption.
Qed.

Lemma insertAscending_perm (x : Number) (l : list Number) :
  Permutation (insertAscending x l) (x :: l).
Proof.
  induction l as [|y l IH]; simpl; [reflexivity|].
  destruct (Qltb (storedValue y) (storedValue x)); [|reflexivity].
  rewrite IH. apply perm_swap.
Qed.

Lemma sortAscending_perm (l : list Number) : Permutation (sortAscending l) l.
Proof.
  induction l as [|x l IH]; simpl; [reflexivity|].
  rewrite insertAscending_perm, IH. reflexivity.
Qed.

Lemma insertAscending_sorted (x : Number) (l : list Number) :
  Sorted ascending l -> Sorted ascending (insertAscending x l).
Proof.
  induction 1 as [|y l Hs IH Hhd]; simpl; [repeat constructor|].
  destruct (Qltb (storedValue y) (storedValue x)) eqn:E.
  - constructor; [exact IH|].
    destruct l as [|z l]; simpl.
    + constructor. apply Qltb_true. exact E.
    + destruct (Qltb (storedValue z) (storedValue x)); constructor;
        [inversion Hhd; assumption | apply Qltb_true; exact E].
  - constructor; [constructor; assumption|].
    constructor. apply Qltb_false. exact E.
Qed.

Lemma sortAscending_sorted (l : list Number) :
  StronglySorted ascending (sortAscending l).
Proof.
  apply Sorted_StronglySorted.
  - intros a b c. unfold ascending. apply Qle_trans.
  - induction l as [|x l IH]; simpl; [constructor|].
    apply insertAscending_sorted. exact IH.
Qed.

Lemma sorted_hd_least (l : list Number) (d : Number) :
  StronglySorted ascending l -> forall x, In x l -> ascending (hd d l) x.
Proof.
  intros Hs x Hin. destruct l as [|y l]; [contradiction|]. simpl.
  destruct Hin as [->|Hin]; [apply Qle_refl|].
  inversion Hs as [|? ? _ Hall]; subst.
  rewrite Forall_forall in Hall. apply Hall. exact Hin.
Qed.

Lemma sorted_last_greatest (l : list Number) (d : Number) :
  StronglySorted ascending l -> forall x, In x l -> ascending x (last l d).
Proof.
  induction 1 as [|y l Hs IH Hall]; intros x Hin; [contradiction|].
  destruct l as [|z l].
  - destruct Hin as [->|[]]. apply Qle_refl.
  - change (last (y :: z :: l) d) with (last (z :: l) d).
    destruct Hin as [->|Hin]; [|apply IH; exact Hin].
    unfold ascending. apply Qle_trans with (storedValue z).
    + rewrite Forall_forall in Hall. apply Hall. left. reflexivity.
    + apply IH. left. reflexivity.
Qed.

Lemma hd_In_nonempty (l : list Number) (d : Number) :
  l <> [] -> In (hd d l) l.
Proof. destruct l; [congruence | left; reflexivity]. Qed.

Lemma last_In_nonempty (l : list Number) (d : Number) :
  l <> [] -> In (last l d) l.
Proof.
  induction l as [|x l IH]; [congruence|]. intros _.
  destruct l as [|y l]; [left; reflexivity|].
  right. apply IH. discriminate.
Qed.

Lemma insertDescending_perm (x : AggResult) (l : list AggResult) :
  Permutation (insertDescending x l) (x :: l).
Proof.
  induction l as [|y l IH]; simpl; [reflexivity|].
  destruct (numberLtb (totalAmount x) (totalAmount y)); [|reflexivity].
  rewrite IH. apply perm_swap.
Qed.

Lemma sortDescending_perm (l : list AggResult) :
  Permutation (sortDescending l) l.
Proof.
  induction l as [|x l IH]; simpl; [reflexivity|].
  rewrite insertDescending_perm, IH. reflexivity.
Qed.

Lemma insertDescending_sorted (x : AggResult) (l : list AggResult) :
  Sorted descending l -> Sorted descending (insertDescending x l).
Proof.
  induction 1 as [|y l Hs IH Hhd]; simpl; [repeat constructor|].
  destruct (numberLtb (totalAmount x) (totalAmount y)) eqn:E.
  - constructor; [exact IH|].
    destruct l as [|z l]; simpl.
    + constructor. apply numberLtb_asym. exact E.
    + destruct (numberLtb (totalAmount x) (totalAmount z)); constructor;
        [inversion Hhd; assumption | apply numberLtb_asym; exact E].
  - constructor; [constructor; assumption|].
    constructor. exact E.
Qed.

Lemma sortDescending_sorted (l : list AggResult) :
  StronglySorted descending (sortDescending l).
Proof.
  apply Sorted_StronglySorted.
  - intros a b c Hab Hbc. unfold descending in *.
    apply numberLtb_false_trans with (totalAmount b); assumption.
  - induction l as [|x l IH]; simpl; [constructor|].
    apply insertDescending_sorted. exact IH.
Qed.

(** Sums of integers are exact as long as they stay below 2^53. *)
Lemma addStored_integers (a b : Z) :
  Z.abs (a + b) <= 2 ^ 53 ->
  addStored (Finite (inject_Z a)) (Finite (inject_Z b))
  = Finite (inject_Z (a + b)).
Proof.
  intros H. cbn [addStored storedValue].
  replace (inject_Z a + inject_Z b)%Q with (inject_Z (a + b)).
  - apply toDouble_integer. exact H.
  - unfold Qplus, inject_Z. cbn [Qnum Qden]. f_equal. simpl. lia.
Qed.

Lemma runningSum_integers (zs : list Z) (acc : Z) :
  Z.abs acc + sumAbs zs <= 2 ^ 53 ->
  fold_left addStored (map (fun z => Finite (inject_Z z)) zs)
    (Finite (inject_Z acc))
  = Finite (inject_Z (fold_left Z.add zs acc)).
Proof.
  revert acc. induction zs as [|z zs IH]; intros acc H; [reflexivity|].
  unfold sumAbs in H. cbn [fold_right] in H. fold (sumAbs zs) in H.
  assert (Hpos : 0 <= sumAbs zs).
  { clear. induction zs as [|z zs IH]; [reflexivity|].
    unfold sumAbs. cbn [fold_right]. fold (sumAbs zs). lia. }
  cbn [map fold_left]. rewrite addStored_integers by lia.
  apply IH. lia.
Qed.

(* ------------------------------------------------------------------ *)
(** ** Aggregation: results *)

Lemma members_sizes (groupBy : string) (l : list Event) :
  list_sum (map (fun k => List.length (members groupBy k l))
              (firstOccurrences (map (groupKey groupBy) l)))
  = List.length l.
Proof.
  assert (Hsum : forall (ks : list string) (k : string) (f : string -> nat),
            NoDup ks ->
            list_sum (map (fun k' => (f k' + if String.eqb k k' then 1 else 0)%nat)
                        ks)
            = (list_sum (map f ks) + if existsb (String.eqb k) ks then 1 else 0)%nat).
  { intros ks k f Hnd. induction ks as [|a ks IH]; [reflexivity|].
    inversion Hnd as [|? ? Hna Hnd']; subst.
    unfold list_sum in *. cbn [map fold_right existsb].
    rewrite (IH Hnd').
    destruct (String.eqb_spec k a) as [->|Hne]; simpl.
    - assert (E : existsb (String.eqb a) ks = false).
      { destruct (existsb (String.eqb a) ks) eqn:E; [|reflexivity].
        apply existsb_eqb_In in E. contradiction. }
      rewrite E. lia.
    - lia. }
  induction l as [|e l IH] using rev_ind; [reflexivity|].
  rewrite map_app, length_app. cbn [map List.length].
  rewrite firstOccurrences_snoc.
  destruct (firstOccurrences_spec (map (groupKey groupBy) l)) as [Hnd Hin].
  set (k := groupKey groupBy e).
  assert (Hext : forall ks,
            map (fun k' => List.length (members groupBy k' (l ++ [e]))) ks
            = map (fun k' => (List.length (members groupBy k' l)
                              + if String.eqb k k' then 1 else 0)%nat) ks).
  { intros ks. apply map_ext. intros k'. rewrite members_snoc, length_app.
    fold k. destruct (String.eqb k k'); reflexivity. }
  destruct (existsb (String.eqb k) _) eqn:E.
  - rewrite Hext, (Hsum _ k _ Hnd), E, IH. reflexivity.
  - rewrite map_app, list_sum_app, Hext, (Hsum _ k _ Hnd), E, IH.
    cbn [map list_sum]. rewrite members_snoc. fold k.
    rewrite String.eqb_refl, length_app.
    rewrite (members_nil_of_absent groupBy k l).
    + simpl. lia.
    + intros H. apply Hin in H. apply existsb_eqb_In in H. congruence.
Qed.

Lemma aggregate_by_keys (events : list Event) (q : MatchCriteria)
  (groupBy : string) :
  let filtered := filter (matches q) events in
  let keys := firstOccurrences (map (groupKey groupBy) filtered) in
  let results := sortDescending (map (summaryOf groupBy filtered) keys) in
  aggregate events q groupBy
  = (if String.eqb groupBy "none" then One (hd_error results)
     else Many results).
Proof.
  intros filtered keys results.
  unfold aggregate. fold filtered. fold (groupsOf groupBy filtered).
  rewrite groupsOf_spec, map_map. reflexivity.
Qed.

(** X7. [aggregateEvents] makes one group for each distinct key of the
    events that pass the filter, in the order in which the keys first occur:
    every matching event belongs to exactly one group, no group is empty,
    the count of a group is the number of its members, and the counts of the
    groups add up to the number of matching events.  The total of a group is
    what the additions of doubles give, from zero on, one amount of a member
    after the other in the order of the file, each sum rounded to the
    nearest double and an amount that is [null] counting for zero: it is the
    exact sum when the amounts are integers whose absolute values add up to
    at most 2^53. *)
Theorem aggregateEvents_groups (events : list Event) (q : MatchCriteria)
  (groupBy : string) :
  let filtered := filter (matches q) events in
  let keys := firstOccurrences (map (groupKey groupBy) filtered) in
  let results := sortDescending (map (summaryOf groupBy filtered) keys) in
  aggregate events q groupBy
  = (if String.eqb groupBy "none" then One (hd_error results)
     else Many results)
  /\ NoDup keys
  /\ (forall e, In e filtered -> In (groupKey groupBy e) keys)
  /\ (forall k, In k keys ->
      members groupBy k filtered <> []
      /\ totalCount (summaryOf groupBy filtered k)
         = Z.of_nat (List.length (members groupBy k filtered))
      /\ totalAmount (summaryOf groupBy filtered k)
         = fold_left addStored (amountsOf (members groupBy k filtered))
             (Finite 0)
      /\ (forall zs,
            amountsOf (members groupBy k filtered)
            = map (fun z => Finite (inject_Z z)) zs ->
            sumAbs zs <= 2 ^ 53 ->
            totalAmount (summaryOf groupBy filtered k)
            = Finite (inject_Z (fold_left Z.add zs 0))))
  /\ list_sum (map (fun k => List.length (members groupBy k filtered)) keys)
     = List.length filtered.
Proof.
  intros filtered keys results.
  destruct (firstOccurrences_spec (map (groupKey groupBy) filtered))
    as [Hnd Hin].
  split; [|split; [exact Hnd|split; [|split]]].
  - exact (aggregate_by_keys events q groupBy).
  - intros e He. apply Hin. apply in_map. exact He.
  - intros k Hk.
    split; [|split; [unfold summaryOf, amountsOf; cbn [toResult totalCount
                       summarize gTotalCount]; rewrite length_map;
                     reflexivity | split; [reflexivity|]]].
    + apply Hin in Hk. apply in_map_iff in Hk. destruct Hk as (e & Hkey & He).
      intros Hnil.
      assert (Hmem : In e (members groupBy k filtered)).
      { unfold members. apply filter_In. split; [exact He|].
        rewrite Hkey. apply String.eqb_refl. }
      rewrite Hnil in Hmem. contradiction.
    + intros zs Hzs Hbound. unfold summaryOf.
      cbn [toResult totalAmount summarize gTotalAmount]. unfold runningSum.
      rewrite Hzs. apply (runningSum_integers zs 0). exact Hbound.
  - apply members_sizes.
Qed.

Lemma aggregateEvents_groups_witness :
  aggregate Node.sampleStore Node.onlyProcessed "clientId"
  = Many [summaryOf "clientId" (processedOnly Node.sampleStore) "client_B";
          summaryOf "clientId" (processedOnly Node.sampleStore) "client_A"]
  /\ totalCount (summaryOf "clientId" (processedOnly Node.sampleStore)
                   "client_A") = 2
  /\ totalAmount (summaryOf "clientId" (processedOnly Node.sampleStore)
                    "client_A") = Finite 30.
Proof.
  destruct (aggregateEvents_groups Node.sampleStore Node.onlyProcessed
              "clientId") as (Hagg & _ & _ & Hk & _).
  split; [|split].
  - rewrite Hagg. reflexivity.
  - apply (Hk "client_A"). left. reflexivity.
  - apply (proj2 (proj2 (proj2 (Hk "client_A" (or_introl eq_refl))))
             [10; 20]).
    + reflexivity.
    + vm_compute. discriminate.
Defined.

(** X8. The results of a grouped aggregation are in the order of decreasing
    [totalAmount], the totals being compared as the doubles they are, and
    they are the results of the groups, each once. *)
Theorem aggregateEvents_sorted (events : list Event) (q : MatchCriteria)
  (groupBy : string) (results : list AggResult) :
  aggregate events q groupBy = Many results ->
  StronglySorted descending results
  /\ Permutation results
       (map (summaryOf groupBy (filter (matches q) events))
          (firstOccurrences
             (map (groupKey groupBy) (filter (matches q) events)))).
Proof.
  intros H.
  rewrite (aggregate_by_keys events q groupBy) in H.
  destruct (String.eqb groupBy "none"); [discriminate|].
  injection H as <-. split.
  - apply sortDescending_sorted.
  - apply sortDescending_perm.
Qed.

Lemma aggregateEvents_sorted_witness :
  StronglySorted descending
    [summaryOf "clientId" (processedOnly Node.sampleStore) "client_B";
     summaryOf "clientId" (processedOnly Node.sampleStore) "client_A"]
  /\ StronglySorted descending
       [summaryOf "clientId" Node.roundedStore "client_A";
        summaryOf "clientId" Node.roundedStore "client_B"].
Proof.
  split.
  - apply (aggregateEvents_sorted Node.sampleStore Node.onlyProcessed
             "clientId").
    reflexivity.
  - apply (aggregateEvents_sorted Node.roundedStore Node.onlyProcessed
             "clientId").
    vm_compute. reflexivity.
Defined.

Lemma all_one_key (ks : list string) (k : string) :
  NoDup ks -> ks <> [] -> (forall k', In k' ks -> k' = k) -> ks = [k].
Proof.
  intros Hnd Hne Hall. destruct ks as [|a ks]; [congruence|].
  rewrite (Hall a (or_introl eq_refl)). f_equal.
  destruct ks as [|b ks]; [reflexivity|]. exfalso.
  inversion Hnd as [|? ? Hna _]; subst. apply Hna.
  rewrite (Hall a (or_introl eq_refl)),
    (Hall b (or_intror (or_introl eq_refl))).
  left. reflexivity.
Qed.

(** X9. Without grouping, [aggregateEvents] returns the empty object when
    no event passes the filter; otherwise one object whose [totalCount] is
    the number of the matching events, [totalAmount] the sum of their
    amounts as the additions of doubles give it, in the order of the file,
    [averageAmount] the double nearest to the quotient of the two (infinite
    when the total is), and whose [minAmount] and [maxAmount] are amounts of
    matching events that bound the amount of every matching event, an
    amount that is [null] counting for zero. *)
Theorem aggregateEvents_ungrouped (events : list Event) (q : MatchCriteria) :
  let filtered := filter (matches q) events in
  (filtered = [] -> aggregate events q "none" = One None)
  /\ (filtered <> [] ->
      exists r,
        aggregate events q "none" = One (Some r)
        /\ totalCount r = Z.of_nat (List.length filtered)
        /\ totalAmount r = fold_left addStored (amountsOf filtered) (Finite 0)
        /\ averageAmount r
           = match totalAmount r with
             | Finite t => toDouble (t / inject_Z (totalCount r))
             | Infinity negative => Infinity negative
             end
        /\ group r = None
        /\ In (minAmount r) (amountsOf filtered)
        /\ In (maxAmount r) (amountsOf filtered)
        /\ forall e, In e filtered ->
             (storedValue (minAmount r)
              <= storedValue (amount (canonical (data e))))%Q
             /\ (storedValue (amount (canonical (data e)))
                 <= storedValue (maxAmount r))%Q).
Proof.
  intros filtered.
  pose proof (aggregate_by_keys events q "none") as Hagg.
  cbv zeta in Hagg. fold filtered in Hagg. cbn [String.eqb Ascii.eqb
    Bool.eqb] in Hagg.
  split.
  - intros Hnil. rewrite Hagg, Hnil. reflexivity.
  - intros Hne.
    assert (Hkeys : firstOccurrences (map (groupKey "none") filtered)
                    = ["all"]).
    { destruct (firstOccurrences_spec (map (groupKey "none") filtered))
        as [Hnd Hin].
      apply all_one_key; [exact Hnd | |].
      - destruct filtered as [|e l]; [congruence|]. intros Hnil.
        assert (H : In (groupKey "none" e)
                      (firstOccurrences (map (groupKey "none") (e :: l)))).
        { apply Hin. left. reflexivity. }
        rewrite Hnil in H. contradiction.
      - intros k' Hk'. apply Hin in Hk'. apply in_map_iff in Hk'.
        destruct Hk' as (e & <- & _). reflexivity. }
    assert (Hall : members "none" "all" filtered = filtered).
    { unfold members. clear. induction filtered as [|e l IH];
        [reflexivity|]. cbn [filter].
      change (String.eqb (groupKey "none" e) "all") with true. cbv iota.
      f_equal. exact IH. }
    rewrite Hkeys in Hagg. cbn [map sortDescending fold_right
      insertDescending hd_error] in Hagg.
    unfold summaryOf in Hagg. rewrite Hall in Hagg.
    eexists. split; [exact Hagg|].
    cbn [toResult summarize totalCount totalAmount averageAmount group
         minAmount maxAmount gTotalAmount gTotalCount gAmounts
         String.eqb Ascii.eqb Bool.eqb orb].
    replace (List.length (amountsOf filtered)) with (List.length filtered)
      by (unfold amountsOf; rewrite length_map; reflexivity).
    assert (Hamounts : amountsOf filtered <> []).
    { destruct filtered; [congruence | discriminate]. }
    assert (Hsorted_ne : sortAscending (amountsOf filtered) <> []).
    { intros Hnil. apply Hamounts. apply Permutation_nil.
      rewrite <- Hnil. apply sortAscending_perm. }
    repeat split.
    + apply (Permutation_in _ (sortAscending_perm _)).
      apply hd_In_nonempty. exact Hsorted_ne.
    + apply (Permutation_in _ (sortAscending_perm _)).
      apply last_In_nonempty. exact Hsorted_ne.
    + apply sorted_hd_least; [apply sortAscending_sorted|].
      apply (Permutation_in _ (Permutation_sym (sortAscending_perm _))).
      unfold amountsOf. apply in_map_iff. exists e. auto.
    + apply sorted_last_greatest; [apply sortAscending_sorted|].
      apply (Permutation_in _ (Permutation_sym (sortAscending_perm _))).
      unfold amountsOf. apply in_map_iff. exists e. auto.
Qed.

Lemma aggregateEvents_ungrouped_witness :
  (exists r,
     aggregate Node.sampleStore Node.onlyProcessed "none" = One (Some r)
     /\ totalCount r = 3 /\ minAmount r = Finite 10
     /\ maxAmount r = Finite 40)
  /\ (exists r,
        aggregate Node.roundedStore Node.onlyProcessed "none" = One (Some r)
        /\ totalAmount r = Finite (1351079888211149 # 2251799813685248)).
Proof.
  split.
  - destruct (proj2 (aggregateEvents_ungrouped Node.sampleStore
                       Node.onlyProcessed)) as (r & Hagg & Hc & _).
    + discriminate.
    + exists r. split; [exact Hagg|]. split; [exact Hc|].
      assert (Hr : Some r = match aggregate Node.sampleStore
                                    Node.onlyProcessed "none" with
                            | One x => x
                            | Many _ => None
                            end) by (rewrite Hagg; reflexivity).
      vm_compute in Hr. injection Hr as ->. split; reflexivity.
  - destruct (proj2 (aggregateEvents_ungrouped Node.roundedStore
                       Node.onlyProcessed)) as (r & Hagg & _ & Ht & _).
    + discriminate.
    + exists r. split; [exact Hagg|]. rewrite Ht. vm_compute. reflexivity.
Defined.

(* ------------------------------------------------------------------ *)
(** ** Aggregation: the key of the grouping by client and metric *)

Lemma splitPipe_plain (s : string) :
  lacks "|" s -> splitPipe (list_ascii_of_string s) = [list_ascii_of_string s].
Proof.
  induction s as [|c s IH]; intros H; [reflexivity|].
  destruct H as [Hc Hs]. cbn [list_ascii_of_string splitPipe].
  apply Ascii.eqb_neq in Hc. rewrite Hc, (IH Hs). reflexivity.
Qed.

Lemma splitPipe_first (c rest : string) :
  lacks "|" c ->
  splitPipe (list_ascii_of_string (c ++ String "|" rest))
  = list_ascii_of_string c :: splitPipe (list_ascii_of_string rest).
Proof.
  induction c as [|x c IH]; intros H.
  - cbn [append list_ascii_of_string splitPipe Ascii.eqb Bool.eqb].
    reflexivity.
  - destruct H as [Hx Hc]. cbn [append list_ascii_of_string splitPipe].
    apply Ascii.eqb_neq in Hx. rewrite Hx, (IH Hc). reflexivity.
Qed.

(** X10. Grouping by client and metric joins the two with ['|'] and splits
    the key at ['|'] again for the result: for events whose client
    identifier and metric hold no ['|'] the group of the result names the
    client and the metric of its events, and two events are in the same
    group exactly when they have the same client and the same metric. *)
Theorem group_by_both_key (e e' : Event) (g : GroupData) :
  let client := fun x => clientId (canonical (data x)) in
  let metricOf := fun x => metric (canonical (data x)) in
  lacks "|" (client e) -> lacks "|" (client e') ->
  (lacks "|" (metricOf e) ->
   group (toResult "both" (groupKey "both" e, g))
   = Some (GroupBoth (client e) (metricOf e)))
  /\ (groupKey "both" e = groupKey "both" e'
      <-> client e = client e' /\ metricOf e = metricOf e').
Proof.
  intros client metricOf He He'. split.
  - intros Hm.
    change (groupKey "both" e)
      with (client e ++ String "|" (metricOf e))%string.
    cbn [toResult group String.eqb Ascii.eqb Bool.eqb orb].
    rewrite (splitPipe_first _ _ He), (splitPipe_plain _ Hm).
    cbn [map nth]. rewrite !string_of_list_ascii_of_string. reflexivity.
  - change (groupKey "both" e)
      with (client e ++ String "|" (metricOf e))%string.
    change (groupKey "both" e')
      with (client e' ++ String "|" (metricOf e'))%string.
    split.
    + intros H. exact (append_split "|" _ _ _ _ He He' H).
    + intros [-> ->]. reflexivity.
Qed.

Lemma group_by_both_key_witness :
  group (toResult "both"
           (groupKey "both" (Node.sampleEvent 1 "client_A" 10),
            summarize [Finite 10]))
  = Some (GroupBoth "client_A" "purchase").
Proof.
  apply (proj1 (group_by_both_key (Node.sampleEvent 1 "client_A" 10)
                  (Node.sampleEvent 1 "client_A" 10) (summarize [Finite 10])
                  ltac:(vm_compute; repeat split; discriminate)
                  ltac:(vm_compute; repeat split; discriminate))).
  vm_compute. repeat split; discriminate.
Defined.

(* ------------------------------------------------------------------ *)
(** ** The aggregation route *)

Lemma aggregateEvents_run {env : Env} (w : World) (q : MatchCriteria)
  (groupBy : string) :
  readsOk env ->
  fileStorage.aggregateEvents q groupBy w
  = (Normal (aggregate (eventsFile w) q groupBy), later 1 w).
Proof.
  intros Hr. unfold fileStorage.aggregateEvents.
  step @readEvents_run. reflexivity.
Qed.

Lemma countDocuments_run {env : Env} (w : World) (q : MatchCriteria) :
  readsOk env ->
  EventModel.countDocuments q w
  = (Normal (Z.of_nat (List.length (filter (matches q) (eventsFile w)))),
     later 1 w).
Proof.
  intros Hr. unfold EventModel.countDocuments, fileStorage.countEvents.
  step @readEvents_run. reflexivity.
Qed.

Lemma aggregate_run {env : Env} (w : World) (q : MatchCriteria)
  (gid : GroupId) (tail : list Stage) (groupBy : string) :
  readsOk env ->
  groupBy = match gid with
            | IdString id =>
                if String.eqb id "$clientId" then "clientId"
                else if String.eqb id "$metric" then "metric" else "none"
            | IdObject c m =>
                if negb (String.eqb c "") && negb (String.eqb m "")
                then "both" else "none"
            | IdNull => "none"
            end ->
  EventModel.aggregate (MatchStage q :: GroupStage gid :: tail) w
  = (Normal (match aggregate (eventsFile w) q groupBy with
             | Many results => map Some results
             | One r => [r]
             end), later 1 w).
Proof.
  intros Hr ->. unfold EventModel.aggregate. cbn [find].
  erewrite run_bind; [|apply aggregateEvents_run; exact Hr]. reflexivity.
Qed.

Lemma handler_run (rt : Runtime) (env : Env)
  (query : AggregationQuery) (w : World) :
  readsOk env ->
  let q := routeCriteria query in
  let n := Z.of_nat (List.length (filter (matches q) (eventsFile w))) in
  let results :=
    match aggregate (eventsFile w) q (effectiveGroupBy query) with
    | Many results => map Some results
    | One r => [r]
    end in
  aggregationRoute.handler query w
  = (Normal
       (mkResponse
          (if String.eqb
                match qGroupBy query with Some g => g | None => "none" end
                "none"
           then AggObject (match results with r :: _ => r | [] => None end)
           else AggArray results)
          (mkStatistics n n n)),
     later 4 w).
Proof.
  intros Hr q n results. unfold aggregationRoute.handler.
  fold (routeCriteria query). fold q.
  set (groupBy := match qGroupBy query with Some g => g | None => "none" end).
  cbn [app].
  erewrite run_bind;
    [| apply (aggregate_run w q _ _ (effectiveGroupBy query) Hr);
       unfold effectiveGroupBy, groupBy;
       destruct (qGroupBy query) as [g|]; [|reflexivity];
       destruct (String.eqb_spec g "clientId") as [->|_]; [reflexivity|];
       destruct (String.eqb_spec g "metric") as [->|_]; [reflexivity|];
       destruct (String.eqb_spec g "both") as [->|_]; reflexivity].
  do 3 (erewrite run_bind; [| apply countDocuments_run; exact Hr]).
  reflexivity.
Qed.

(** X11. When the store can be read, the aggregation route answers with the
    aggregation of the processed events that pass the filters of the query,
    grouped as asked; a [groupBy] other than clientId, metric, both and none
    gives the totals without grouping, in an array of one element.  The
    three statistics are one and the same number, the count of these
    processed events: the counters named rejected and failed do not count
    rejected or failed events.  The route writes nothing. *)
Theorem aggregation_response (rt : Runtime) (env : Env)
  (query : AggregationQuery) (w : World) :
  readsOk env ->
  let q := routeCriteria query in
  let n := Z.of_nat (List.length (filter (matches q) (eventsFile w))) in
  aggregationRoute.handler query w
  = (Normal
       (mkResponse
          (match aggregate (eventsFile w) q (effectiveGroupBy query) with
           | Many results => AggArray (map Some results)
           | One r =>
               match qGroupBy query with
               | None => AggObject r
               | Some g => if String.eqb g "none" then AggObject r
                           else AggArray [r]
               end
           end)
          (mkStatistics n n n)),
     later 4 w).
Proof.
  intros Hr q n. rewrite (handler_run rt env query w Hr). cbv zeta.
  fold q. fold n. f_equal. f_equal. f_equal.
  unfold effectiveGroupBy.
  destruct (qGroupBy query) as [g|].
  - destruct (String.eqb_spec g "none") as [->|Hnone].
    + cbn [String.eqb Ascii.eqb Bool.eqb orb].
      destruct (aggregate (eventsFile w) q "none") as [r|rs] eqn:E.
      * reflexivity.
      * unfold aggregate in E. cbn [String.eqb Ascii.eqb Bool.eqb] in E.
        discriminate E.
    + destruct (String.eqb_spec g "clientId") as [->|H1];
        [destruct (aggregate _ _ _); reflexivity|].
      destruct (String.eqb_spec g "metric") as [->|H2];
        [destruct (aggregate _ _ _); reflexivity|].
      destruct (String.eqb_spec g "both") as [->|H3];
        [destruct (aggregate _ _ _); reflexivity|].
      cbn [orb]. destruct (aggregate _ _ _); reflexivity.
  - cbn [String.eqb Ascii.eqb Bool.eqb].
    destruct (aggregate (eventsFile w) q "none") as [r|rs] eqn:E.
    + reflexivity.
    + unfold aggregate in E. cbn [String.eqb Ascii.eqb Bool.eqb] in E.
      discriminate E.
Qed.

Lemma aggregation_response_witness :
  fst (@aggregationRoute.handler Node.runtime Node.calm
         (mkQuery None None None None (Some "month"))
         (mkWorld Node.sampleStore [] 0))
  = Normal
      (mkResponse
         (AggArray
            [Some (mkAggResult (Finite 70) 3 (toDouble (70 # 3))
                     (Finite 10) (Finite 40) None)])
         (mkStatistics 3 3 3)).
Proof.
  rewrite (aggregation_response Node.runtime Node.calm
             (mkQuery None None None None (Some "month"))
             (mkWorld Node.sampleStore [] 0) calm_readsOk).
  vm_compute. reflexivity.
Defined.

(* ------------------------------------------------------------------ *)
(** ** The file storage *)

(** Unfolds the operations of the storage down to the oracles. *)
Ltac files :=
  cbv beta iota delta
    [bind ret throw tryCatch consult getEventsFile getDedupFile putEventsFile
     putDedupFile later
     fileStorage.readEvents fileStorage.writeEvents
     fileStorage.readDedupRecords fileStorage.writeDedupRecords
     fileStorage.createEvent fileStorage.findEventById
     fileStorage.deleteEventById fileStorage.findDedupRecord
     fileStorage.upsertDedupRecord];
  cbn [eventsFile dedupFile ticks Nat.add].

Lemma find_other_after_append (id : nat) (events : list Event) (e : Event) :
  id <> _id e ->
  find (hasId id) (events ++ [e]) = find (hasId id) events.
Proof.
  intros Hne. induction events as [|x events IH]; simpl.
  - unfold hasId. destruct (Nat.eqb_spec (_id e) id); [congruence|reflexivity].
  - destruct (hasId id x); [reflexivity | exact IH].
Qed.

(** X12. An event that [createEvent] has stored is found again by its
    identifier: [findEventById] returns an event with this identifier, the
    created one when the identifier was not in use; the events stored
    before are kept, in their order, and are found as before. *)
Theorem createEvent_then_findEventById (env : Env) (w : World)
  (d : EventData) :
  readsOk env -> eventWritesOk env ->
  exists e w',
    fileStorage.createEvent d w = (Normal e, w')
    /\ data e = d
    /\ eventsFile w' = eventsFile w ++ [e]
    /\ dedupFile w' = dedupFile w
    /\ (exists found,
          fst (fileStorage.findEventById (_id e) w') = Normal (Some found)
          /\ _id found = _id e
          /\ (find (hasId (_id e)) (eventsFile w) = None -> found = e))
    /\ (forall id, id <> _id e ->
          fst (fileStorage.findEventById id w')
          = Normal (find (hasId id) (eventsFile w))).
Proof.
  intros Hr Hw. exists (saved w d). eexists.
  split; [exact (save_run w Hr d Hw)|].
  split; [reflexivity|]. split; [reflexivity|]. split; [reflexivity|].
  split.
  - destruct (find_app_hit (hasId (_id (saved w d))) (eventsFile w)
                (saved w d)) as (found & Hfound & Hid).
    { unfold hasId. apply Nat.eqb_refl. }
    exists found.
    change (fileStorage.findEventById) with (@EventModel.findById env).
    rewrite findById_run by exact Hr. cbn [fst eventsFile].
    split; [rewrite Hfound; reflexivity|].
    split; [apply Nat.eqb_eq; exact Hid|].
    intros Hnone.
    rewrite (find_app_last _ _ _ Hnone) in Hfound;
      [congruence | unfold hasId; apply Nat.eqb_refl].
  - intros id Hne.
    change (fileStorage.findEventById) with (@EventModel.findById env).
    rewrite findById_run by exact Hr. cbn [fst eventsFile].
    rewrite (find_other_after_append id _ _ Hne). reflexivity.
Qed.

Lemma createEvent_then_findEventById_witness :
  exists e w',
    @fileStorage.createEvent Node.calm
      (data (Node.sampleEvent 1 "client_A" 10)) (mkWorld Node.sampleStore [] 0)
    = (Normal e, w')
    /\ eventsFile w' = Node.sampleStore ++ [e].
Proof.
  destruct (createEvent_then_findEventById Node.calm
              (mkWorld Node.sampleStore [] 0)
              (data (Node.sampleEvent 1 "client_A" 10)) calm_readsOk
              (fun _ => eq_refl))
    as (e & w' & Hrun & _ & Hfile & _).
  exists e, w'. split; [exact Hrun | exact Hfile].
Defined.

Lemma filter_length_same {A : Type} (p : A -> bool) (l : list A) :
  List.length (filter p l) = List.length l -> filter p l = l.
Proof.
  induction l as [|x l IH]; [reflexivity|]. simpl.
  destruct (p x); simpl; intros H.
  - f_equal. apply IH. lia.
  - pose proof (filter_length_le p l). lia.
Qed.

Lemma find_other_after_delete (id id' : nat) (events : list Event) :
  id' <> id ->
  find (hasId id') (filter (fun e => negb (hasId id e)) events)
  = find (hasId id') events.
Proof.
  intros Hne. induction events as [|x events IH]; [reflexivity|].
  cbn [filter find]. destruct (hasId id x) eqn:E; cbn [negb find].
  - assert (E' : hasId id' x = false).
    { unfold hasId in *. apply Nat.eqb_eq in E. apply Nat.eqb_neq. lia. }
    rewrite E'. exact IH.
  - destruct (hasId id' x); [reflexivity | exact IH].
Qed.

Lemma length_differs (id : nat) (l : list Event) :
  negb (Nat.eqb (List.length l)
          (List.length (filter (fun e => negb (Nat.eqb (_id e) id)) l)))
  = existsb (hasId id) l.
Proof.
  induction l as [|x l IH]; [reflexivity|].
  cbn [filter existsb List.length]. unfold hasId at 1.
  destruct (Nat.eqb (_id x) id); cbn [negb orb List.length].
  - pose proof (filter_length_le (fun e => negb (Nat.eqb (_id e) id)) l).
    destruct (Nat.eqb_spec (S (List.length l))
                (List.length (filter (fun e => negb (Nat.eqb (_id e) id)) l)));
      [lia | reflexivity].
  - exact IH.
Qed.

(** X13. [deleteEventById] removes every stored event with the identifier
    and no other: afterwards the identifier is not found, the other
    identifiers are found as before, and the result tells whether an event
    was removed; deleting an identifier that is not stored changes
    nothing. *)
Theorem deleteEventById_effect (env : Env) (w : World) (id : nat) :
  readsOk env -> eventWritesOk env ->
  exists w',
    fileStorage.deleteEventById id w
    = (Normal (existsb (hasId id) (eventsFile w)), w')
    /\ eventsFile w' = filter (fun e => negb (hasId id e)) (eventsFile w)
    /\ dedupFile w' = dedupFile w
    /\ find (hasId id) (eventsFile w') = None
    /\ (forall id', id' <> id ->
          find (hasId id') (eventsFile w') = find (hasId id') (eventsFile w))
    /\ (find (hasId id) (eventsFile w) = None ->
        eventsFile w' = eventsFile w).
Proof.
  intros Hr Hw. eexists. split.
  - unfold fileStorage.deleteEventById.
    step @readEvents_run. step @writeEvents_run. unfold ret.
    rewrite length_differs. reflexivity.
  - cbn [eventsFile dedupFile]. split; [reflexivity|]. split; [reflexivity|].
    split; [apply find_after_delete|].
    split; [intros id' Hne; apply find_other_after_delete; exact Hne|].
    intros Hnone. induction (eventsFile w) as [|x l IH]; [reflexivity|].
    cbn [find filter] in *. unfold hasId in *.
    destruct (Nat.eqb (_id x) id); [discriminate|].
    cbn [negb]. f_equal. apply IH. exact Hnone.
Qed.

Lemma deleteEventById_effect_witness :
  exists w',
    @fileStorage.deleteEventById Node.calm 2 (mkWorld Node.sampleStore [] 0)
    = (Normal true, w')
    /\ List.length (eventsFile w') = 3%nat.
Proof.
  destruct (deleteEventById_effect Node.calm (mkWorld Node.sampleStore [] 0) 2
              calm_readsOk (fun _ => eq_refl)) as (w' & Hrun & Hfile & _).
  exists w'. split; [exact Hrun|]. rewrite Hfile. reflexivity.
Defined.

Lemma replaceFirst_find (h : string) (r : Dedup.t) (l : list Dedup.t)
  (old : Dedup.t) :
  Dedup.eventHash r = h -> find (sameHash h) l = Some old ->
  find (sameHash h) (replaceFirst (sameHash h) r l) = Some r.
Proof.
  intros Hr. induction l as [|x l IH]; [discriminate|]. cbn [find replaceFirst].
  destruct (sameHash h x) eqn:E.
  - intros _. cbn [find]. unfold sameHash. rewrite Hr, String.eqb_refl.
    reflexivity.
  - intros H. cbn [find]. rewrite E. exact (IH H).
Qed.

Lemma replaceFirst_find_other (h h' : string) (r : Dedup.t)
  (l : list Dedup.t) :
  Dedup.eventHash r = h -> h' <> h ->
  find (sameHash h') (replaceFirst (sameHash h) r l) = find (sameHash h') l.
Proof.
  intros Hr Hne. induction l as [|x l IH]; [reflexivity|].
  cbn [find replaceFirst]. destruct (sameHash h x) eqn:E.
  - cbn [find]. unfold sameHash in *. rewrite Hr.
    apply String.eqb_eq in E. rewrite E.
    destruct (String.eqb_spec h h'); [congruence | reflexivity].
  - cbn [find]. destruct (sameHash h' x); [reflexivity | exact IH].
Qed.

Lemma replaceFirst_hashes (h : string) (r : Dedup.t) (l : list Dedup.t) :
  Dedup.eventHash r = h ->
  map Dedup.eventHash (replaceFirst (sameHash h) r l) = map Dedup.eventHash l.
Proof.
  intros Hr. induction l as [|x l IH]; [reflexivity|].
  cbn [replaceFirst]. destruct (sameHash h x) eqn:E; cbn [map].
  - unfold sameHash in E. apply String.eqb_eq in E. congruence.
  - f_equal. exact IH.
Qed.

Lemma find_other_hash_after_append (h h' : string) (r : Dedup.t)
  (l : list Dedup.t) :
  Dedup.eventHash r = h -> h' <> h ->
  find (sameHash h') (l ++ [r]) = find (sameHash h') l.
Proof.
  intros Hr Hne. induction l as [|x l IH]; cbn [app find].
  - unfold sameHash. rewrite Hr.
    destruct (String.eqb_spec h h'); [congruence | reflexivity].
  - destruct (sameHash h' x); [reflexivity | exact IH].
Qed.

(** X14. [upsertDedupRecord] leaves one record to be found for the hash,
    the one it returns, with the client and the event given: a record that
    exists for the hash is replaced where it stands and keeps its creation
    time, otherwise the record is appended.  The records of the other hashes
    are found as before, and the events are not touched. *)
Theorem upsertDedupRecord_effect (env : Env) (w : World) (h c : string)
  (id : nat) :
  readsOk env -> dedupWritesOk env ->
  exists r w',
    fileStorage.upsertDedupRecord h c id w = (Normal r, w')
    /\ Dedup.eventHash r = h /\ Dedup.clientId r = c /\ Dedup.eventId r = id
    /\ eventsFile w' = eventsFile w
    /\ find (sameHash h) (dedupFile w') = Some r
    /\ (forall h', h' <> h ->
          find (sameHash h') (dedupFile w') = find (sameHash h') (dedupFile w))
    /\ match find (sameHash h) (dedupFile w) with
       | Some old =>
           map Dedup.eventHash (dedupFile w')
           = map Dedup.eventHash (dedupFile w)
           /\ Dedup.createdAt r = Dedup.createdAt old
       | None => dedupFile w' = dedupFile w ++ [r]
       end.
Proof.
  intros Hr Hw. unfold fileStorage.upsertDedupRecord.
  destruct (find (sameHash h) (dedupFile w)) as [old|] eqn:E.
  - eexists. eexists. split.
    + step @readDedupRecords_run. fold (sameHash h). rewrite E.
      step @consult_run. erewrite run_bind; [|reflexivity].
      step @consult_run. step @writeDedupRecords_run. reflexivity.
    + cbn [Dedup.eventHash Dedup.clientId Dedup.eventId Dedup.createdAt
           eventsFile dedupFile].
      split; [reflexivity|]. split; [reflexivity|]. split; [reflexivity|].
      split; [reflexivity|].
      split; [apply (replaceFirst_find h _ _ old); [reflexivity | exact E]|].
      split; [intros h' Hne; apply (replaceFirst_find_other h h');
              [reflexivity | exact Hne]|].
      split; [apply replaceFirst_hashes; reflexivity | reflexivity].
  - eexists. eexists. split.
    + step @readDedupRecords_run. fold (sameHash h). rewrite E.
      do 3 step @consult_run. step @writeDedupRecords_run. reflexivity.
    + cbn [Dedup.eventHash Dedup.clientId Dedup.eventId Dedup.createdAt
           eventsFile dedupFile].
      split; [reflexivity|]. split; [reflexivity|]. split; [reflexivity|].
      split; [reflexivity|].
      split; [apply find_app_last; [exact E|];
              unfold sameHash; apply String.eqb_refl|].
      split; [intros h' Hne; apply (find_other_hash_after_append h h');
              [reflexivity | exact Hne]|].
      reflexivity.
Qed.

Lemma upsertDedupRecord_effect_witness :
  exists r w',
    @fileStorage.upsertDedupRecord Node.calm
      "d78a2d9110eb7aeea2360146840d55a09b76afe6b524ad6405bd3760e5f6df24"
      "client_B" 7 Node.afterPurchase
    = (Normal r, w')
    /\ Dedup.eventId r = 7%nat
    /\ List.length (dedupFile w') = 1%nat.
Proof.
  destruct (upsertDedupRecord_effect Node.calm Node.afterPurchase
              "d78a2d9110eb7aeea2360146840d55a09b76afe6b524ad6405bd3760e5f6df24"
              "client_B" 7 calm_readsOk (fun _ => eq_refl))
    as (r & w' & Hrun & _ & _ & Hid & _ & _ & _ & Hmatch).
  exists r, w'. split; [exact Hrun|]. split; [exact Hid|].
  change (find _ (dedupFile Node.afterPurchase))
    with (Some (Dedup.mk
                  "d78a2d9110eb7aeea2360146840d55a09b76afe6b524ad6405bd3760e5f6df24"
                  "client_A" 4 1704067211000 1704067212000 1704067213000))
    in Hmatch.
  destruct Hmatch as [Hmap _].
  rewrite <- (length_map Dedup.eventHash), Hmap. reflexivity.
Defined.

(** X15. A read of a data file that fails is taken for an empty file, and
    the write that follows replaces the file: after a failed read
    [createEvent] leaves the new event as the only stored event,
    [deleteEventById] leaves no event at all, and [upsertDedupRecord] leaves
    the new record as the only record. *)
Theorem failed_read_empties_the_file (env : Env) (w : World) :
  (forall d,
     eventsReadOk (ticks w) = false -> eventsWriteOk (4 + ticks w) = true ->
     exists e w', fileStorage.createEvent d w = (Normal e, w')
                  /\ eventsFile w' = [e])
  /\ (forall id,
        eventsReadOk (ticks w) = false -> eventsWriteOk (1 + ticks w) = true ->
        exists w', fileStorage.deleteEventById id w = (Normal false, w')
                   /\ eventsFile w' = [])
  /\ (forall h c id,
        dedupReadOk (ticks w) = false -> dedupWriteOk (4 + ticks w) = true ->
        exists r w', fileStorage.upsertDedupRecord h c id w = (Normal r, w')
                     /\ dedupFile w' = [r]).
Proof.
  split; [|split].
  - intros d Hread Hwrite. cbn [Nat.add] in Hwrite. eexists. eexists. files.
    rewrite Hread. files. rewrite Hwrite. split; reflexivity.
  - intros id Hread Hwrite. cbn [Nat.add] in Hwrite. eexists. files.
    rewrite Hread. files. rewrite Hwrite. split; reflexivity.
  - intros h c id Hread Hwrite. cbn [Nat.add] in Hwrite. eexists. eexists. files.
    rewrite Hread. files. cbn [find app]. files. rewrite Hwrite.
    split; reflexivity.
Qed.

Lemma failed_read_empties_the_file_witness :
  exists w',
    @fileStorage.deleteEventById Node.blindReads 77
      (mkWorld Node.sampleStore [] 0)
    = (Normal false, w')
    /\ eventsFile w' = [].
Proof.
  apply (proj1 (proj2 (failed_read_empties_the_file Node.blindReads
                         (mkWorld Node.sampleStore [] 0))));
    reflexivity.
Defined.

(* ------------------------------------------------------------------ *)
(** ** Reasoning on computations *)

Lemma triple_ret {A : Type} (P : World -> Prop) (a : A)
  (Q : A -> World -> Prop) (E : string -> World -> Prop) :
  (forall w, P w -> Q a w) -> triple P (ret a) Q E.
Proof. intros H w Hw. exact (H w Hw). Qed.

Lemma triple_throw {A : Type} (P : World -> Prop) (e : string)
  (Q : A -> World -> Prop) (E : string -> World -> Prop) :
  (forall w, P w -> E e w) -> triple P (throw e) Q E.
Proof. intros H w Hw. exact (H w Hw). Qed.

Lemma triple_bind {A B : Type} (P : World -> Prop) (m : M A)
  (k : A -> M B) (R : A -> World -> Prop) (Q : B -> World -> Prop)
  (E : string -> World -> Prop) :
  triple P m R E -> (forall a, triple (R a) (k a) Q E) ->
  triple P (bind m k) Q E.
Proof.
  intros Hm Hk w Hw. unfold bind. specialize (Hm w Hw).
  destruct (m w) as [[a|e] w1]; [exact (Hk a w1 Hm) | exact Hm].
Qed.

Lemma triple_try {A : Type} (P : World -> Prop) (m : M A)
  (h : string -> M A) (Q : A -> World -> Prop)
  (E' E : string -> World -> Prop) :
  triple P m Q E' -> (forall e, triple (E' e) (h e) Q E) ->
  triple P (tryCatch m h) Q E.
Proof.
  intros Hm Hh w Hw. unfold tryCatch. specialize (Hm w Hw).
  destruct (m w) as [[a|e] w1]; [exact Hm | exact (Hh e w1 Hm)].
Qed.

Lemma triple_weaken {A : Type} (P P' : World -> Prop) (m : M A)
  (Q Q' : A -> World -> Prop) (E E' : string -> World -> Prop) :
  triple P m Q E ->
  (forall w, P' w -> P w) -> (forall a w, Q a w -> Q' a w) ->
  (forall e w, E e w -> E' e w) ->
  triple P' m Q' E'.
Proof.
  intros Hm HP HQ HE w Hw. specialize (Hm w (HP w Hw)).
  destruct (m w) as [[a|e] w1]; [exact (HQ a w1 Hm) | exact (HE e w1 Hm)].
Qed.

Lemma keeps_ret {A : Type} (I : World -> Prop) (a : A) : keeps I (ret a).
Proof. apply triple_ret. intros w Hw. exact Hw. Qed.

Lemma keeps_throw {A : Type} (I : World -> Prop) (e : string) :
  keeps I (@throw A e).
Proof. apply triple_throw. intros w Hw. exact Hw. Qed.

Lemma keeps_bind {A B : Type} (I : World -> Prop) (m : M A) (k : A -> M B) :
  keeps I m -> (forall a, keeps I (k a)) -> keeps I (bind m k).
Proof. intros Hm Hk. exact (triple_bind I m k _ _ _ Hm Hk). Qed.

Lemma keeps_try {A : Type} (I : World -> Prop) (m : M A)
  (h : string -> M A) :
  keeps I m -> (forall e, keeps I (h e)) -> keeps I (tryCatch m h).
Proof. intros Hm Hh. exact (triple_try I m h _ _ _ Hm Hh). Qed.

(* ------------------------------------------------------------------ *)
(** ** The deduplication file *)

Section UniqueHashes.
Context {rt : Runtime} {env : Env}.

Lemma keeps_consult {A : Type} (oracle : nat -> A) :
  keeps uniqueHashes (consult oracle).
Proof. intros w Hw. exact Hw. Qed.

Lemma keeps_getEventsFile : keeps uniqueHashes getEventsFile.
Proof. intros w Hw. exact Hw. Qed.

Lemma keeps_getDedupFile : keeps uniqueHashes getDedupFile.
Proof. intros w Hw. exact Hw. Qed.

Lemma keeps_putEventsFile (events : list Event) :
  keeps uniqueHashes (putEventsFile events).
Proof. intros w Hw. exact Hw. Qed.

Lemma find_sameHash_none (h : string) (l : list Dedup.t) :
  find (sameHash h) l = None -> ~ In h (map Dedup.eventHash l).
Proof.
  induction l as [|x l IH]; cbn [find map In]; [tauto|].
  unfold sameHash at 1. destruct (String.eqb_spec (Dedup.eventHash x) h).
  - discriminate.
  - intros H [Hx|Hin]; [congruence | exact (IH H Hin)].
Qed.

Lemma NoDup_snoc (h : string) (l : list string) :
  NoDup l -> ~ In h l -> NoDup (l ++ [h]).
Proof.
  intros Hl Hh. induction Hl as [|x l Hx Hl IH]; cbn [app].
  - constructor; [intros [] | constructor].
  - constructor.
    + rewrite in_app_iff. cbn [In]. intros [H|[H|[]]]; [exact (Hx H)|].
      apply Hh. left. symmetry. exact H.
    + apply IH. intros H. apply Hh. right. exact H.
Qed.

Lemma keeps_upsertDedupRecord (h c : string) (id : nat) :
  keeps uniqueHashes (fileStorage.upsertDedupRecord h c id).
Proof.
  intros w Hw. unfold uniqueHashes in *. files.
  destruct (dedupReadOk (ticks w)).
  - files. fold (sameHash h).
    destruct (find (sameHash h) (dedupFile w)) as [old|] eqn:E; files.
    + destruct (dedupWriteOk _); files; [|exact Hw].
      rewrite replaceFirst_hashes; [exact Hw | reflexivity].
    + destruct (dedupWriteOk _); files; [|exact Hw].
      rewrite map_app. cbn [map Dedup.eventHash].
      apply NoDup_snoc; [exact Hw | exact (find_sameHash_none h _ E)].
  - files. cbn [find app]. files.
    destruct (dedupWriteOk _); files; [|exact Hw].
    cbn [map]. constructor; [intros [] | constructor].
Qed.

Ltac keep :=
  repeat first
    [ apply keeps_ret | apply keeps_throw | apply keeps_consult
    | apply keeps_getEventsFile | apply keeps_getDedupFile
    | apply keeps_putEventsFile | apply keeps_upsertDedupRecord
    | apply keeps_bind; [|intros ?] | apply keeps_try; [|intros ?]
    | match goal with
      | |- keeps _ (match ?x with _ => _ end) => destruct x
      end ].

Lemma keeps_processEvent (rawEvent : JSON) (simulateFailure : bool) :
  keeps uniqueHashes
    (eventProcessingService.processEvent rawEvent simulateFailure).
Proof.
  unfold eventProcessingService.processEvent, eventProcessingService.reject,
    eventProcessingService.store, eventProcessingService.recover,
    deduplicationService.isDuplicate,
    deduplicationService.recordProcessedEvent,
    deduplicationService.getExistingEventId,
    DeduplicationRecord.findOne, DeduplicationRecord.findOneAndUpdate,
    EventModel.new, EventModel.save, EventModel.findById,
    EventModel.findByIdAndDelete,
    fileStorage.createEvent, fileStorage.findEventById,
    fileStorage.deleteEventById, fileStorage.findDedupRecord,
    fileStorage.readEvents, fileStorage.writeEvents,
    fileStorage.readDedupRecords.
  cbv zeta. keep.
Qed.

(** X16. The deduplication file never comes to hold two records with the
    same hash: when its hashes are distinct before a batch they are
    distinct after it, whatever the events, whatever reads and writes
    fail, with or without the simulated failure, and whether the batch
    returns or throws. *)
Theorem dedup_hashes_stay_unique (rawEvents : list JSON)
  (simulateFailure : bool) (w : World) :
  uniqueHashes w ->
  uniqueHashes
    (snd (eventProcessingService.processEvents rawEvents simulateFailure w)).
Proof.
  intros Hw.
  assert (H : keeps uniqueHashes
                (eventProcessingService.processEvents rawEvents
                   simulateFailure)).
  { induction rawEvents as [|rawEvent rest IH];
      cbn [eventProcessingService.processEvents].
    - apply keeps_ret.
    - apply keeps_bind; [apply keeps_processEvent|]. intros r.
      apply keeps_bind; [exact IH|]. intros rs. apply keeps_ret. }
  specialize (H w Hw).
  destruct (eventProcessingService.processEvents rawEvents simulateFailure w)
    as [[rs|e] w']; exact H.
Qed.

End UniqueHashes.

Lemma dedup_hashes_stay_unique_witness :
  uniqueHashes
    (snd (@eventProcessingService.processEvents Node.runtime
            Node.dedupDiskFull [Node.purchase; Node.anonymous; Node.purchase]
            false Node.afterPurchase)).
Proof.
  apply (@dedup_hashes_stay_unique Node.runtime Node.dedupDiskFull).
  unfold uniqueHashes. cbn [Node.afterPurchase dedupFile map].
  constructor; [intros [] | constructor].
Defined.

(* ------------------------------------------------------------------ *)
(** ** The results of [processEvent] *)

Lemma value_bind {A B : Type} (m : M A) (k : A -> M B) (R : A -> Prop)
  (Q : B -> World -> Prop) (E : string -> World -> Prop) :
  triple anyWorld m (fun a _ => R a) E ->
  (forall a, R a -> triple anyWorld (k a) Q E) ->
  triple anyWorld (bind m k) Q E.
Proof.
  intros Hm Hk. apply (triple_bind _ _ _ (fun a _ => R a)); [exact Hm|].
  intros a w Ha. exact (Hk a Ha w I).
Qed.

Lemma value_try {A : Type} (m : M A) (h : string -> M A)
  (Q : A -> World -> Prop) (E : string -> World -> Prop) :
  triple anyWorld m Q (fun _ _ => True) ->
  (forall e, triple anyWorld (h e) Q E) ->
  triple anyWorld (tryCatch m h) Q E.
Proof.
  intros Hm Hh. apply (triple_try _ _ _ _ (fun _ _ => True)); [exact Hm|].
  intros e w _. exact (Hh e w I).
Qed.

Lemma triple_any {A : Type} (m : M A) :
  triple anyWorld m (fun _ _ => True) (fun _ _ => True).
Proof. intros w _. destruct (m w) as [[a|e] w']; exact I. Qed.

Section ResultShape.
Context {rt : Runtime} {env : Env}.

Lemma triple_new (fields : Canonical) (s : Status) (reason : option string)
  (payload : JSON) (E : string -> World -> Prop) :
  triple anyWorld (EventModel.new fields (Some s) reason payload)
    (fun d _ => canonical d = fields /\ status d = s
                /\ rejectionReason d = reason /\ originalPayload d = payload)
    E.
Proof. intros w _. cbn. repeat split. Qed.

Lemma triple_save (d : EventData) :
  triple anyWorld (EventModel.save d) (fun e _ => data e = d)
    (fun _ _ => True).
Proof.
  intros w _. unfold EventModel.save. files.
  destruct (eventsReadOk (ticks w)); files;
    destruct (eventsWriteOk _); files; solve [reflexivity | exact I].
Qed.

Lemma triple_isDuplicate (h : string) (E : string -> World -> Prop) :
  triple anyWorld (deduplicationService.isDuplicate h) (fun _ _ => True) E.
Proof.
  intros w _. destruct (returns_isDuplicate h w) as (a & w' & ->). exact I.
Qed.

Lemma triple_getExistingEventId (h : string) (E : string -> World -> Prop) :
  triple anyWorld (deduplicationService.getExistingEventId h)
    (fun _ _ => True) E.
Proof.
  intros w _. destruct (returns_getExistingEventId h w) as (a & w' & ->).
  exact I.
Qed.

Lemma triple_findById (id : nat) (E : string -> World -> Prop) :
  triple anyWorld (EventModel.findById id) (fun _ _ => True) E.
Proof.
  intros w _. destruct (returns_findById id w) as (a & w' & ->). exact I.
Qed.

Ltac account :=
  intros ? _; unfold accounted;
  cbn [success event isDuplicate error];
  repeat split; intros; subst;
  try solve [discriminate | congruence | assumption | reflexivity].

Lemma recover_accounted (n : Canonical) (rawEvent : JSON) (message : string) :
  triple anyWorld (eventProcessingService.recover n rawEvent message)
    (fun r _ => accounted rawEvent true r) (fun _ _ => False).
Proof.
  assert (Hmark :
    triple anyWorld
      (tryCatch
         (failedEvent <- EventModel.new n (Some failed) (Some message)
                           rawEvent ;;
          saved <- EventModel.save failedEvent ;;
          ret (mkResult false (Some saved) false (Some message)))
         (fun _ =>
            ret (mkResult false None false
                   (Some ("Failed to process event: " ++ message)%string))))
      (fun r _ => accounted rawEvent true r) (fun _ _ => False)).
  { apply value_try.
    - eapply value_bind; [apply triple_new|].
      intros d (Hc & Hs & Hr & Hp).
      eapply value_bind; [apply triple_save|]. intros e He.
      apply triple_ret. account; rewrite Hs in *; discriminate.
    - intros e. apply triple_ret. account. }
  unfold eventProcessingService.recover. cbv zeta.
  eapply value_bind; [apply triple_getExistingEventId|]. intros [id|] _.
  - eapply value_bind; [apply triple_findById|]. intros [e|] _.
    + apply triple_ret. account.
    + exact Hmark.
  - exact Hmark.
Qed.

Lemma store_accounted (n : Canonical) (rawEvent : JSON) :
  triple anyWorld (eventProcessingService.store n rawEvent)
    (fun r _ => accounted rawEvent true r) (fun _ _ => False).
Proof.
  unfold eventProcessingService.store.
  apply (triple_try _ _ _ _ (fun _ _ => True)).
  - eapply value_bind; [apply triple_new|].
    intros d (Hc & Hs & Hr & Hp).
    eapply value_bind; [apply triple_save|]. intros e He.
    eapply value_bind; [apply triple_any|]. intros dedupResult _.
    assert (Hcreated :
      triple anyWorld (ret (mkResult true (Some e) false None))
        (fun r _ => accounted rawEvent true r) (fun _ _ => True)).
    { apply triple_ret. account; rewrite Hs in *; discriminate. }
    cbv zeta. destruct (negb dedupResult); [|exact Hcreated].
    eapply value_bind; [apply triple_any|]. intros _ _.
    eapply value_bind; [apply triple_getExistingEventId|]. intros [id|] _.
    + eapply value_bind; [apply triple_findById|]. intros [e'|] _.
      * apply triple_ret. account.
      * exact Hcreated.
    + exact Hcreated.
  - intros message w _. exact (recover_accounted n rawEvent message w I).
Qed.

Lemma reject_accounted (rawEvent : JSON) (reason : string) :
  triple anyWorld (eventProcessingService.reject rawEvent reason)
    (fun r _ => accounted rawEvent false r) (fun _ _ => False).
Proof.
  unfold eventProcessingService.reject. apply value_try.
  - eapply value_bind; [apply triple_any|]. intros now _.
    eapply value_bind; [apply triple_any|]. intros dateNow _.
    eapply value_bind; [apply triple_any|]. intros random _.
    eapply value_bind; [apply triple_new|].
    intros d (Hc & Hs & Hr & Hp).
    eapply value_bind; [apply triple_save|]. intros e He.
    apply triple_ret. account; rewrite Hs in *; discriminate.
  - intros e. apply triple_ret. account.
Qed.

Lemma processEvent_accounted (rawEvent : JSON) (simulateFailure : bool)
  (w : World) :
  match eventProcessingService.processEvent rawEvent simulateFailure w with
  | (Thrown message, _) =>
      simulateFailure = true /\ message = simulatedFailure
  | (Normal r, _) =>
      accounted rawEvent
        match normalize (clock (ticks w)) rawEvent with
        | NormSuccess _ => true
        | NormFailure _ => false
        end r
  end.
Proof.
  unfold eventProcessingService.processEvent.
  unfold bind at 1. unfold consult at 1. cbv zeta.
  set (w1 := mkWorld (eventsFile w) (dedupFile w) (S (ticks w))).
  destruct (normalize (clock (ticks w)) rawEvent) as [n|reason].
  - assert (Hproceed :
      triple anyWorld
        (if simulateFailure then throw simulatedFailure
         else eventProcessingService.store n rawEvent)
        (fun r _ => accounted rawEvent true r)
        (fun message _ =>
           simulateFailure = true /\ message = simulatedFailure)).
    { destruct simulateFailure.
      - apply triple_throw. intros ? _. split; reflexivity.
      - eapply triple_weaken; [apply store_accounted | | |].
        + intros ? H. exact H.
        + intros ? ? H. exact H.
        + intros ? ? []. }
    assert (H :
      triple anyWorld
        (isDuplicate <-
           deduplicationService.isDuplicate (eventHash n) ;;
         if isDuplicate : bool then
           existingEventId <-
             deduplicationService.getExistingEventId (eventHash n) ;;
           match existingEventId with
           | Some id =>
               existingEvent <- EventModel.findById id ;;
               ret (mkResult true existingEvent true None)
           | None =>
               if simulateFailure then throw simulatedFailure
               else eventProcessingService.store n rawEvent
           end
         else
           if simulateFailure then throw simulatedFailure
           else eventProcessingService.store n rawEvent)
        (fun r _ => accounted rawEvent true r)
        (fun message _ =>
           simulateFailure = true /\ message = simulatedFailure)).
    { eapply value_bind; [apply triple_isDuplicate|]. intros [|] _.
      - eapply value_bind; [apply triple_getExistingEventId|].
        intros [id|] _; [|exact Hproceed].
        eapply value_bind; [apply triple_findById|]. intros existing _.
        apply triple_ret. account.
      - exact Hproceed. }
    specialize (H w1 I). exact H.
  - pose proof (reject_accounted rawEvent reason w1 I) as H.
    destruct (eventProcessingService.reject rawEvent reason w1)
      as [[r|e] w']; [exact H | destruct H].
Qed.


Lemma processEvents_results_accounted (rawEvents : list JSON)
  (simulateFailure : bool) (w : World) :
  match eventProcessingService.processEvents rawEvents simulateFailure w with
  | (Normal results, _) =>
      forall r, In r results -> isDuplicate r = true -> success r = true
  | (Thrown _, _) => True
  end.
Proof.
  revert w. induction rawEvents as [|rawEvent rest IH]; intros w.
  - intros r [].
  - cbn [eventProcessingService.processEvents]. unfold bind at 1.
    pose proof (processEvent_accounted rawEvent simulateFailure w) as H.
    destruct (eventProcessingService.processEvent rawEvent simulateFailure w)
      as [[r|e] w1]; [|exact I].
    unfold bind at 1. specialize (IH w1).
    destruct (eventProcessingService.processEvents rest simulateFailure w1)
      as [[rs|e] w2]; [|exact I].
    intros r' [<-|Hin]; [apply H | exact (IH r' Hin)].
Qed.

(** X17. Whatever reads and writes fail, [processEvent] throws only the
    simulated failure, and only when it is asked for.  In a result it
    returns, [error] is null exactly when [success] is true, a duplicate is
    a success, and an event that fails normalization is never a success.
    A result that is no duplicate carries no event only when it is a
    failure; the event it carries has the raw event as original payload and
    the error as rejection reason, is processed exactly when the result is a
    success, and is rejected exactly when normalization failed. *)
Theorem processEvent_result_shape (rawEvent : JSON) (simulateFailure : bool)
  (w : World) :
  match eventProcessingService.processEvent rawEvent simulateFailure w with
  | (Thrown message, _) =>
      simulateFailure = true /\ message = simulatedFailure
  | (Normal r, _) =>
      let normalizes :=
        match normalize (clock (ticks w)) rawEvent with
        | NormSuccess _ => true
        | NormFailure _ => false
        end in
      (error r = None <-> success r = true)
      /\ (isDuplicate r = true -> success r = true)
      /\ (success r = true -> normalizes = true)
      /\ (isDuplicate r = false ->
          match event r with
          | Some e =>
              originalPayload (data e) = rawEvent
              /\ rejectionReason (data e) = error r
              /\ (status (data e) = processed <-> success r = true)
              /\ (status (data e) = rejected <-> normalizes = false)
          | None => success r = false
          end)
  end.
Proof.
  pose proof (processEvent_accounted rawEvent simulateFailure w) as H.
  destruct (eventProcessingService.processEvent rawEvent simulateFailure w)
    as [[r|e] w']; exact H.
Qed.

End ResultShape.

(* ------------------------------------------------------------------ *)
(** ** Processed events and their records *)

Lemma find_app_found {A : Type} (p : A -> bool) (l l' : list A) :
  find p l <> None -> find p (l ++ l') <> None.
Proof.
  induction l as [|x l IH]; cbn [find app]; [congruence|].
  destruct (p x); [congruence | exact IH].
Qed.

Lemma processedWith_none_registered (w : World) (h : string) :
  exactlyOnce w -> find (sameHash h) (dedupFile w) = None ->
  processedWith h (eventsFile w) = [].
Proof.
  intros [_ Hreg] Hnone.
  destruct (processedWith h (eventsFile w)) as [|e l] eqn:E; [reflexivity|].
  exfalso.
  assert (Hin : In e (processedWith h (eventsFile w)))
    by (rewrite E; left; reflexivity).
  unfold processedWith in Hin. apply filter_In in Hin.
  destruct Hin as [Hin Hcond]. apply andb_prop in Hcond.
  destruct Hcond as [Hs Hh]. apply String.eqb_eq in Hh.
  apply (Hreg e).
  - unfold processedOnly. apply filter_In. split; assumption.
  - rewrite Hh. exact Hnone.
Qed.

Section ExactlyOnce.
Context {rt : Runtime} {env : Env}.
Hypothesis noFault : faultFree env.

Lemma processEvent_keeps_exactlyOnce (rawEvent : JSON) (w : World) :
  exactlyOnce w ->
  exists r w' added,
    eventProcessingService.processEvent rawEvent false w = (Normal r, w')
    /\ eventsFile w' = eventsFile w ++ added
    /\ exactlyOnce w'.
Proof.
  intros Hw. destruct (faultFree_split env noFault) as (Hr & Hew & Hdw).
  destruct (normalize (clock (ticks w)) rawEvent) as [n|reason] eqn:Hn.
  - destruct (find (sameHash (eventHash n)) (dedupFile w)) as [r|] eqn:Hfind.
    + eexists. eexists. exists []. split.
      * exact (processEvent_duplicate rawEvent w Hr n Hn false r Hfind).
      * split; [symmetry; apply app_nil_r | exact Hw].
    + eexists. eexists. eexists. split.
      * exact (processEvent_fresh rawEvent w Hr n Hn Hew Hdw Hfind).
      * split; [reflexivity|]. destruct Hw as [Hone Hreg].
        split; cbn [eventsFile dedupFile].
        -- intros h. unfold processedWith. rewrite filter_app, length_app.
           fold (processedWith h (eventsFile w)).
           cbn [filter firstEvent saved data status canonical Status_eqb
                andb].
           destruct (String.eqb_spec (eventHash n) h) as [<-|Hne].
           ++ rewrite (processedWith_none_registered w (eventHash n)
                         (conj Hone Hreg) Hfind).
              cbn. lia.
           ++ cbn [List.length]. rewrite Nat.add_0_r. apply Hone.
        -- intros e He. unfold processedOnly in He.
           rewrite filter_app in He. apply in_app_or in He.
           destruct He as [He|He].
           ++ apply find_app_found. apply Hreg. exact He.
           ++ cbn [filter firstEvent saved data status Status_eqb] in He.
              destruct He as [<-|[]]. cbn [data canonical].
              erewrite find_app_last; [discriminate | exact Hfind |].
              unfold sameHash, recorded. cbn [Dedup.eventHash].
              apply String.eqb_refl.
  - eexists. eexists. eexists. split.
    + exact (processEvent_rejected rawEvent w Hr false reason Hn Hew).
    + split; [reflexivity|]. destruct Hw as [Hone Hreg].
      split; cbn [eventsFile dedupFile].
      * intros h. unfold processedWith. rewrite filter_app, length_app.
        fold (processedWith h (eventsFile w)).
        cbn [filter rejectedEvent saved data status canonical Status_eqb
             andb List.length].
        rewrite Nat.add_0_r. apply Hone.
      * intros e He. unfold processedOnly in He.
        rewrite filter_app in He.
        cbn [filter rejectedEvent saved data status Status_eqb] in He.
        rewrite app_nil_r in He. apply Hreg. exact He.
Qed.

(** X18. When no read and no write fails and no failure is simulated, a
    batch keeps this state of the store: no hash has more than one
    processed event, and the hash of every processed event is recorded in
    the deduplication file.  The batch returns, and it only appends to the
    stored events. *)
Theorem processed_exactly_once (rawEvents : list JSON) (w : World) :
  exactlyOnce w ->
  exists results w' added,
    eventProcessingService.processEvents rawEvents false w
    = (Normal results, w')
    /\ eventsFile w' = eventsFile w ++ added
    /\ exactlyOnce w'
    /\ (forall h, (List.length (processedWith h (eventsFile w')) <= 1)%nat).
Proof.
  revert w. induction rawEvents as [|rawEvent rest IH]; intros w Hw.
  - exists [], w, []. split; [reflexivity|].
    split; [symmetry; apply app_nil_r|]. split; [exact Hw | apply Hw].
  - destruct (processEvent_keeps_exactlyOnce rawEvent w Hw)
      as (r & w1 & added1 & E1 & Hadd1 & Hw1).
    destruct (IH w1 Hw1) as (rs & w2 & added2 & E2 & Hadd2 & Hw2 & Hone).
    exists (r :: rs), w2, (added1 ++ added2). split.
    + exact (processEvents_cons rawEvent rest false w w1 w2 r rs E1 E2).
    + split; [rewrite Hadd2, Hadd1, app_assoc; reflexivity|].
      split; [exact Hw2 | exact Hone].
Qed.

End ExactlyOnce.

Lemma processed_exactly_once_witness :
  exists results w' added,
    @eventProcessingService.processEvents Node.runtime Node.calm
      [Node.purchase; Node.anonymous; Node.purchase] false Node.emptyWorld
    = (Normal results, w')
    /\ eventsFile w' = eventsFile Node.emptyWorld ++ added
    /\ exactlyOnce w'
    /\ (forall h, (List.length (processedWith h (eventsFile w')) <= 1)%nat).
Proof.
  apply (@processed_exactly_once Node.runtime Node.calm calm_faultFree).
  split; [intros h; apply Nat.le_0_l | intros e []].
Defined.

(* ------------------------------------------------------------------ *)
(** ** Writes of events.json that fail *)

Section FailedWrites.
Context {rt : Runtime} {env : Env}.
Hypothesis reads : readsOk env.

Lemma save_at (w : World) (d : EventData) :
  eventsWriteOk (4 + ticks w) = true ->
  EventModel.save d w
  = (Normal (saved w d),
     mkWorld (eventsFile w ++ [saved w d]) (dedupFile w) (5 + ticks w)).
Proof.
  intros Hw. cbn [Nat.add] in Hw.
  unfold EventModel.save, fileStorage.createEvent.
  step @readEvents_run. do 3 step @consult_run.
  unfold fileStorage.writeEvents, bind, consult. cbn [ticks]. rewrite Hw.
  reflexivity.
Qed.

Lemma save_fails_at (w : World) (d : EventData) :
  eventsWriteOk (4 + ticks w) = false ->
  EventModel.save d w = (Thrown writeError, later 5 w).
Proof.
  intros Hw. cbn [Nat.add] in Hw.
  unfold EventModel.save, fileStorage.createEvent.
  step @readEvents_run. do 3 step @consult_run.
  unfold fileStorage.writeEvents, bind, consult. cbn [ticks]. rewrite Hw.
  reflexivity.
Qed.

(** X19. While events.json cannot be written and the files can be read,
    [processEvent] returns and leaves both files as they were.  An event
    that is already recorded is answered as a duplicate.  Otherwise the
    result is a failure without an event: for an event that fails
    normalization the error is that the rejected event could not be saved,
    and does not tell why the event was rejected; for any other event the
    error is that it could not be processed. *)
Theorem processEvent_on_unwritable_store (rawEvent : JSON) (w : World) :
  eventWritesFail env ->
  exists r w',
    eventProcessingService.processEvent rawEvent false w = (Normal r, w')
    /\ eventsFile w' = eventsFile w /\ dedupFile w' = dedupFile w
    /\ r = match normalize (clock (ticks w)) rawEvent with
           | NormFailure _ =>
               mkResult false None false
                 (Some ("Failed to save rejected event: " ++ writeError)%string)
           | NormSuccess n =>
               match find (sameHash (eventHash n)) (dedupFile w) with
               | Some record =>
                   mkResult true
                     (find (hasId (Dedup.eventId record)) (eventsFile w))
                     true None
               | None =>
                   mkResult false None false
                     (Some ("Failed to process event: " ++ writeError)%string)
               end
           end.
Proof.
  intros Hfail.
  destruct (normalize (clock (ticks w)) rawEvent) as [n|reason] eqn:Hn.
  - destruct (find (sameHash (eventHash n)) (dedupFile w)) as [r|] eqn:Hfind.
    + eexists. eexists. split.
      * exact (processEvent_duplicate rawEvent w reads n Hn false r Hfind).
      * repeat split.
    + pose proof (normalize_hash_nonempty rt _ _ _ Hn) as Hne.
      eexists. eexists. split.
      * unfold eventProcessingService.processEvent.
        step @consult_run. rewrite Hn.
        step @isDuplicate_run. rewrite Hfind.
        unfold eventProcessingService.store.
        erewrite run_catch;
          [| step @new_run; apply run_bind_thrown; apply save_fails_at;
             apply Hfail].
        unfold eventProcessingService.recover. cbv zeta.
        step @getExistingEventId_run. rewrite Hfind. cbn [option_map].
        erewrite run_catch;
          [| step @new_run; apply run_bind_thrown; apply save_fails_at;
             apply Hfail].
        reflexivity.
      * repeat split.
  - eexists. eexists. split.
    + unfold eventProcessingService.processEvent.
      step @consult_run. rewrite Hn.
      unfold eventProcessingService.reject.
      erewrite run_catch;
        [| do 3 step @consult_run; step @new_run; apply run_bind_thrown;
           apply save_fails_at; apply Hfail].
      reflexivity.
    + repeat split.
Qed.

(** X20. When the write of a new event fails and the next write succeeds,
    the event is stored with the status failed and the message of the write
    error as rejection reason, and the result is a failure that carries this
    stored event.  Its hash is not recorded, so that the same event
    submitted again is not taken for a duplicate. *)
Theorem failed_write_leaves_failed_record (rawEvent : JSON) (w : World)
  (n : Canonical) :
  normalize (clock (ticks w)) rawEvent = NormSuccess n ->
  find (sameHash (eventHash n)) (dedupFile w) = None ->
  eventsWriteOk (7 + ticks w) = false ->
  eventsWriteOk (14 + ticks w) = true ->
  exists e w',
    eventProcessingService.processEvent rawEvent false w
    = (Normal (mkResult false (Some e) false (Some writeError)), w')
    /\ eventsFile w' = eventsFile w ++ [e]
    /\ dedupFile w' = dedupFile w
    /\ data e = mkEventData n failed (Some writeError) rawEvent
                  (clock (9 + ticks w)) 0
    /\ find (sameHash (eventHash n)) (dedupFile w') = None.
Proof.
  intros Hn Hfind Hbad Hgood.
  pose proof (normalize_hash_nonempty rt _ _ _ Hn) as Hne.
  eexists. eexists. split.
  - unfold eventProcessingService.processEvent.
    step @consult_run. rewrite Hn.
    step @isDuplicate_run. rewrite Hfind.
    unfold eventProcessingService.store.
    erewrite run_catch;
      [| step @new_run; apply run_bind_thrown; apply save_fails_at;
         exact Hbad].
    unfold eventProcessingService.recover. cbv zeta.
    step @getExistingEventId_run. rewrite Hfind. cbn [option_map].
    apply run_try. step @new_run.
    erewrite run_bind; [| apply save_at; exact Hgood].
    reflexivity.
  - cbn [eventsFile dedupFile]. repeat split. exact Hfind.
Qed.

End FailedWrites.

Lemma processEvent_on_unwritable_store_witness :
  exists w',
    @eventProcessingService.processEvent Node.runtime Node.eventsDiskFull
      Node.priceless false Node.emptyWorld
    = (Normal
         (mkResult false None false
            (Some "Failed to save rejected event: EIO: i/o error, write")),
       w')
    /\ eventsFile w' = [].
Proof.
  destruct (@processEvent_on_unwritable_store Node.runtime
              Node.eventsDiskFull (fun _ => conj eq_refl eq_refl)
              Node.priceless Node.emptyWorld (fun _ => eq_refl))
    as (r & w' & Hrun & Hevents & _ & Hr).
  exists w'. split; [|exact Hevents].
  rewrite Hrun, Hr. reflexivity.
Defined.

Lemma failed_write_leaves_failed_record_witness :
  exists e w',
    @eventProcessingService.processEvent Node.runtime Node.oneBadWrite
      Node.purchase false Node.emptyWorld
    = (Normal (mkResult false (Some e) false (Some writeError)), w')
    /\ eventsFile w' = [e]
    /\ status (data e) = failed.
Proof.
  destruct (@failed_write_leaves_failed_record Node.runtime Node.oneBadWrite
              (fun _ => conj eq_refl eq_refl) Node.purchase Node.emptyWorld
              _ eq_refl eq_refl eq_refl eq_refl)
    as (e & w' & Hrun & Hevents & _ & Hdata & _).
  exists e, w'. split; [exact Hrun|]. split; [exact Hevents|].
  rewrite Hdata. reflexivity.
Defined.

(* ------------------------------------------------------------------ *)
(** ** POST /api/events *)

Lemma filter_partition_length {A : Type} (p : A -> bool) (l : list A) :
  (List.length (filter p l) + List.length (filter (fun x => negb (p x)) l)
   = List.length l)%nat.
Proof.
  induction l as [|x l IH]; [reflexivity|]. cbn [filter].
  destruct (p x); cbn [negb List.length]; lia.
Qed.

Section EventsRoute.
Context {rt : Runtime} {env : Env}.

(** X21. Without the simulated failure, [POST /api/events] answers whatever
    reads and writes fail.  An empty array is refused with status 400 and
    nothing is read or written.  Any other body is answered with status
    200: an array counts for its elements and any other value for one
    event, there is one result for each event, in the order of the events,
    and the counts of processed and failed events add up to the number of
    events, a duplicate counting as processed. *)
Theorem post_events_response (body : JSON) (simulateFailure : option string)
  (w : World) :
  simulateFailure <> Some "true" ->
  exists response w',
    eventsRoute.post body simulateFailure w = (Normal response, w')
    /\ match eventsOfBody body with
       | [] => body = JArr [] /\ response = BadRequest "No events provided"
               /\ w' = w
       | events =>
           exists results,
             eventProcessingService.processEvents events false w
             = (Normal results, w')
             /\ response
                = Ingested (List.length (filter success results))
                    (List.length results
                     - List.length (filter success results))
                    (map resultJson results)
             /\ List.length results = List.length events
             /\ (forall r, In r results -> isDuplicate r = true ->
                   In r (filter success results))
       end.
Proof.
  intros Hsim.
  assert (Hflag : match simulateFailure with
                  | Some s => String.eqb s "true"
                  | None => false
                  end = false).
  { destruct simulateFailure as [s|]; [|reflexivity].
    destruct (String.eqb_spec s "true"); [subst; congruence | reflexivity]. }
  unfold eventsRoute.post. rewrite Hflag. cbv zeta.
  destruct (eventsOfBody body) as [|rawEvent rest] eqn:Hbody.
  - exists (BadRequest "No events provided"), w. split; [reflexivity|].
    split; [|split; reflexivity].
    destruct body; cbn [eventsOfBody] in Hbody; try discriminate.
    rewrite Hbody. reflexivity.
  - cbn [List.length Nat.eqb].
    destruct (processEvents_one_result_each (rawEvent :: rest) w)
      as (results & w' & Hrun & Hlen).
    eexists. exists w'. split.
    + apply run_try. erewrite run_bind; [|exact Hrun]. reflexivity.
    + exists results. split; [exact Hrun|]. split; [|split].
      * f_equal.
        pose proof (filter_partition_length success results). lia.
      * exact Hlen.
      * intros r Hin Hdup. apply filter_In. split; [exact Hin|].
        pose proof (processEvents_results_accounted (rawEvent :: rest)
                      false w) as Hall.
        rewrite Hrun in Hall. exact (Hall r Hin Hdup).
Qed.

Lemma processEvents_simulated_after_rejected (pre : list JSON)
  (rawEvent : JSON) (rest : list JSON) (n : Canonical) :
  readsOk env -> eventWritesOk env ->
  (forall e now, In e pre -> exists reason,
       normalize now e = NormFailure reason) ->
  (forall now, normalize now rawEvent = NormSuccess n) ->
  forall w,
    find (sameHash (eventHash n)) (dedupFile w) = None ->
    exists w' added,
      eventProcessingService.processEvents (pre ++ rawEvent :: rest) true w
      = (Thrown simulatedFailure, w')
      /\ dedupFile w' = dedupFile w
      /\ eventsFile w' = eventsFile w ++ added
      /\ List.length added = List.length pre
      /\ Forall (fun e => status (data e) = rejected) added.
Proof.
  intros Hr Hew Hpre Hn. induction pre as [|e pre IH]; intros w Hnone.
  - exists (later 2 w), []. split.
    + cbn [app eventProcessingService.processEvents].
      apply run_bind_thrown.
      exact (processEvent_simulated_failure rawEvent w Hr n (Hn _) Hnone).
    + split; [reflexivity|]. split; [symmetry; apply app_nil_r|].
      split; [reflexivity | constructor].
  - destruct (Hpre e (clock (ticks w)) (or_introl eq_refl)) as [reason He].
    pose proof (processEvent_rejected e w Hr true reason He Hew) as Hrun.
    set (w1 := mkWorld (eventsFile w ++ [rejectedEvent w e reason])
                 (dedupFile w) (10 + ticks w)) in *.
    destruct (IH (fun e' now H => Hpre e' now (or_intror H)) w1 Hnone)
      as (w' & added & Hrest & Hdedup & Hevents & Hlen & Hall).
    exists w', (rejectedEvent w e reason :: added). split.
    + cbn [app eventProcessingService.processEvents].
      erewrite run_bind; [|exact Hrun].
      apply run_bind_thrown. exact Hrest.
    + split; [exact Hdedup|]. split; [|split].
      * rewrite Hevents. unfold w1. cbn [eventsFile].
        rewrite <- app_assoc. reflexivity.
      * cbn [List.length]. rewrite Hlen. reflexivity.
      * constructor; [reflexivity | exact Hall].
Qed.

(** X22. With [simulateFailure=true], a body with an event that normalizes
    and is not recorded yet is answered with status 500 and the message
    of the simulated failure.  The events ahead of it have been processed
    all the same: when they are events that fail normalization, a rejected
    event has been stored for each of them, of which the response tells
    nothing; the events behind it are not looked at, and the
    deduplication file is as before. *)
Theorem post_events_simulated_failure (body : JSON) (pre : list JSON)
  (rawEvent : JSON) (rest : list JSON) (n : Canonical) (w : World) :
  readsOk env -> eventWritesOk env ->
  eventsOfBody body = pre ++ rawEvent :: rest ->
  (forall e now, In e pre -> exists reason,
       normalize now e = NormFailure reason) ->
  (forall now, normalize now rawEvent = NormSuccess n) ->
  find (sameHash (eventHash n)) (dedupFile w) = None ->
  exists w' added,
    eventsRoute.post body (Some "true") w
    = (Normal (ServerError simulatedFailure), w')
    /\ dedupFile w' = dedupFile w
    /\ eventsFile w' = eventsFile w ++ added
    /\ List.length added = List.length pre
    /\ Forall (fun e => status (data e) = rejected) added.
Proof.
  intros Hr Hew Hbody Hpre Hn Hnone.
  destruct (processEvents_simulated_after_rejected pre rawEvent rest n
              Hr Hew Hpre Hn w Hnone)
    as (w' & added & Hrun & Hrest).
  exists w', added. split; [|exact Hrest].
  unfold eventsRoute.post. cbv zeta. rewrite Hbody.
  change (String.eqb "true" "true") with true.
  rewrite length_app. cbn [List.length].
  rewrite Nat.add_succ_r. cbn [Nat.eqb].
  erewrite run_catch; [reflexivity|].
  apply run_bind_thrown. exact Hrun.
Qed.

End EventsRoute.

Lemma post_events_response_witness :
  exists response w',
    @eventsRoute.post Node.runtime Node.calm
      (JArr [Node.purchase; Node.purchase; Node.priceless]) None
      Node.emptyWorld
    = (Normal response, w').
Proof.
  destruct (@post_events_response Node.runtime Node.calm
              (JArr [Node.purchase; Node.purchase; Node.priceless]) None
              Node.emptyWorld)
    as (response & w' & Hrun & _); [discriminate|].
  exists response, w'. exact Hrun.
Defined.

Lemma post_events_simulated_failure_witness :
  exists w',
    @eventsRoute.post Node.runtime Node.calm
      (JArr [JNull; Node.purchase; Node.priceless]) (Some "true")
      Node.emptyWorld
    = (Normal (ServerError simulatedFailure), w')
    /\ List.length (eventsFile w') = 1%nat.
Proof.
  destruct (@post_events_simulated_failure Node.runtime Node.calm
              (JArr [JNull; Node.purchase; Node.priceless]) [JNull]
              Node.purchase [Node.priceless]
              (match @normalize Node.runtime 0 Node.purchase with
               | NormSuccess n => n
               | NormFailure _ => mkCanonical "" "" (Finite 0) 0 ""
               end)
              Node.emptyWorld calm_readsOk (fun _ => eq_refl) eq_refl)
    as (w' & added & Hrun & _ & Hevents & Hlen & _).
  - intros e now [<-|[]]. eexists. reflexivity.
  - intros now. rewrite purchase_pinned. reflexivity.
  - reflexivity.
  - exists w'. split; [exact Hrun|]. rewrite Hevents. exact Hlen.
Defined.

(* ------------------------------------------------------------------ *)
(** ** The date filters of the aggregation *)

Lemma aggregate_ext (events : list Event) (q q' : MatchCriteria)
  (groupBy : string) :
  (forall e, matches q e = matches q' e) ->
  aggregate events q groupBy = aggregate events q' groupBy
  /\ filter (matches q) events = filter (matches q') events.
Proof.
  intros H. unfold aggregate.
  rewrite (filter_ext (matches q) (matches q') H). split; reflexivity.
Qed.

Lemma handler_ext (rt : Runtime) (env : Env) (query query' : AggregationQuery)
  (w : World) :
  readsOk env ->
  qGroupBy query = qGroupBy query' ->
  (forall e, matches (routeCriteria query) e
             = matches (routeCriteria query') e) ->
  aggregationRoute.handler query w = aggregationRoute.handler query' w.
Proof.
  intros Hr Hg Hq.
  rewrite (handler_run rt env query w Hr), (handler_run rt env query' w Hr).
  cbv zeta. unfold effectiveGroupBy. rewrite Hg.
  destruct (aggregate_ext (eventsFile w) _ _
              (match qGroupBy query' with
               | Some g =>
                   if String.eqb g "clientId" || String.eqb g "metric"
                      || String.eqb g "both"
                   then g else "none"
               | None => "none"
               end) Hq) as [-> ->].
  reflexivity.
Qed.

(** X23. When the store can be read, a start or end date of the
    aggregation query that does not parse to a date is ignored: the
    response is that of the query without it.
    Dates that parse bound the timestamps of the aggregated events on both
    sides, the bounds included. *)
Theorem aggregation_date_filter (rt : Runtime) (env : Env)
  (c m g : option string) (w : World) :
  readsOk env ->
  (forall s other, dateParse s = InvalidDate ->
     aggregationRoute.handler (mkQuery c (Some s) other m g) w
     = aggregationRoute.handler (mkQuery c None other m g) w
     /\ aggregationRoute.handler (mkQuery c other (Some s) m g) w
        = aggregationRoute.handler (mkQuery c other None m g) w)
  /\ (forall startDate endDate a b e,
        startDate <> "" -> endDate <> "" ->
        dateParse startDate = ValidDate a ->
        dateParse endDate = ValidDate b ->
        (matches (routeCriteria
                    (mkQuery c (Some startDate) (Some endDate) m g)) e = true
         <-> matches (routeCriteria (mkQuery c None None m g)) e = true
             /\ a <= timestamp (canonical (data e)) <= b)).
Proof.
  intros Hr. split.
  - intros s other Hs. split; apply (handler_ext rt env _ _ w Hr);
      try reflexivity; intros e; unfold matches, routeCriteria;
      cbn [qClientId qMetric qStartDate qEndDate mStatus mClientId mMetric
           mTimestamp nonEmpty];
      f_equal; f_equal;
      destruct (String.eqb s ""); destruct (nonEmpty other) as [o|];
      cbn [outsideRange option_map gte lte]; rewrite ?Hs;
      try reflexivity;
      destruct (dateParse o); cbn [orb]; rewrite ?orb_false_r; reflexivity.
  - intros startDate endDate a b e Ha Hb Hpa Hpb.
    unfold matches, routeCriteria.
    cbn [qClientId qMetric qStartDate qEndDate mStatus mClientId mMetric
         mTimestamp nonEmpty].
    destruct (String.eqb_spec startDate ""); [contradiction|].
    destruct (String.eqb_spec endDate ""); [contradiction|].
    cbn [outsideRange option_map gte lte negb andb]. rewrite Hpa, Hpb.
    rewrite !andb_true_r, andb_true_iff, negb_true_iff, orb_false_iff,
      !Z.ltb_ge.
    tauto.
Qed.

Lemma aggregation_date_filter_witness :
  @aggregationRoute.handler Node.runtime Node.calm
    (mkQuery None (Some "yesterday") None None None)
    (mkWorld Node.sampleStore [] 0)
  = @aggregationRoute.handler Node.runtime Node.calm
      (mkQuery None None None None None) (mkWorld Node.sampleStore [] 0).
Proof.
  apply (proj1 (aggregation_date_filter Node.runtime Node.calm None None None
                  (mkWorld Node.sampleStore [] 0) calm_readsOk)
           "yesterday" None).
  reflexivity.
Defined.

(* ------------------------------------------------------------------ *)
(** ** The deduplication service *)

(** X24. As long as the reads of deduplication.json succeed (a read that
    fails is taken for an empty file), [recordProcessedEvent] never replaces
    a record: when the hash has one, it returns false and writes nothing,
    and the first event remains the one that [getExistingEventId] gives.
    When the hash has none, the record is written and the call returns
    true; from then on [isDuplicate] is true for the hash and
    [getExistingEventId] gives the event.  When this write fails the call
    returns false as well, though the hash still has no record.  For the
    empty hash the call returns true and records nothing. *)
Theorem recordProcessedEvent_first_wins {env : Env} (w : World)
  (h c : string) (id : nat) :
  readsOk env ->
  h <> "" ->
  (forall r, find (sameHash h) (dedupFile w) = Some r ->
     exists w',
       deduplicationService.recordProcessedEvent h c id w = (Normal false, w')
       /\ eventsFile w' = eventsFile w /\ dedupFile w' = dedupFile w
       /\ fst (deduplicationService.getExistingEventId h w')
          = Normal (Some (Dedup.eventId r)))
  /\ (find (sameHash h) (dedupFile w) = None -> dedupWritesOk env ->
      exists w',
        deduplicationService.recordProcessedEvent h c id w = (Normal true, w')
        /\ eventsFile w' = eventsFile w
        /\ fst (deduplicationService.isDuplicate h w') = Normal true
        /\ fst (deduplicationService.getExistingEventId h w')
           = Normal (Some id))
  /\ (find (sameHash h) (dedupFile w) = None -> dedupWritesFail env ->
      exists w',
        deduplicationService.recordProcessedEvent h c id w
        = (Normal false, w')
        /\ eventsFile w' = eventsFile w /\ dedupFile w' = dedupFile w
        /\ fst (deduplicationService.getExistingEventId h w') = Normal None)
  /\ (exists w',
        deduplicationService.recordProcessedEvent "" c id w = (Normal true, w')
        /\ eventsFile w' = eventsFile w /\ dedupFile w' = dedupFile w).
Proof.
  intros reads Hh. apply String.eqb_neq in Hh. split; [|split; [|split]].
  - intros r Hfind. eexists. split.
    + exact (recordProcessedEvent_existing w reads h c id Hh r Hfind).
    + split; [reflexivity|]. split; [reflexivity|].
      rewrite (getExistingEventId_run _ h reads Hh).
      cbn [fst later dedupFile]. rewrite Hfind. reflexivity.
  - intros Hnone Hw. eexists. split.
    + exact (recordProcessedEvent_fresh w reads h c id Hh Hw Hnone).
    + split; [reflexivity|].
      assert (Hfound :
        find (sameHash h) (dedupFile w ++ [recorded w h c id])
        = Some (recorded w h c id)).
      { apply find_app_last; [exact Hnone|].
        unfold sameHash, recorded. cbn [Dedup.eventHash].
        apply String.eqb_refl. }
      rewrite (isDuplicate_run _ h reads Hh),
        (getExistingEventId_run _ h reads Hh).
      cbn [fst dedupFile]. rewrite Hfound. split; reflexivity.
  - intros Hnone Hw. eexists. split.
    + exact (recordProcessedEvent_write_fails w reads h c id Hh Hw Hnone).
    + split; [reflexivity|]. split; [reflexivity|].
      rewrite (getExistingEventId_run _ h reads Hh).
      cbn [fst later dedupFile]. rewrite Hnone. reflexivity.
  - eexists. split; [reflexivity|]. split; reflexivity.
Qed.

Lemma recordProcessedEvent_first_wins_witness :
  exists w',
    @deduplicationService.recordProcessedEvent Node.calm
      "d78a2d9110eb7aeea2360146840d55a09b76afe6b524ad6405bd3760e5f6df24"
      "client_B" 7 Node.afterPurchase
    = (Normal false, w')
    /\ fst (@deduplicationService.getExistingEventId Node.calm
              "d78a2d9110eb7aeea2360146840d55a09b76afe6b524ad6405bd3760e5f6df24"
              w')
       = Normal (Some 4%nat).
Proof.
  destruct (proj1 (@recordProcessedEvent_first_wins Node.calm
                     Node.afterPurchase
                     "d78a2d9110eb7aeea2360146840d55a09b76afe6b524ad6405bd3760e5f6df24"
                     "client_B" 7 calm_readsOk ltac:(discriminate))
              (Dedup.mk
                 "d78a2d9110eb7aeea2360146840d55a09b76afe6b524ad6405bd3760e5f6df24"
                 "client_A" 4 1704067211000 1704067212000 1704067213000)
              eq_refl)
    as (w' & Hrun & _ & _ & Hid).
  exists w'. split; [exact Hrun | exact Hid].
Defined.
